(** * Process supervisor of the tunnel node: ring buffer, line splitter,
      request validation and the spawn / monitor / stop state machine.

    The development is a shallow embedding of the TypeScript source
    (the [RingBuffer] and [FrpsManager] classes, [streamLines],
    [assertBinaryExists] and [validateCreateBody]). *)

From Stdlib Require Import ZArith QArith Qround Lia Ascii String.
From Equations Require Import Equations.
From stdpp Require Import base option list gmap strings pretty.

Local Open Scope nat_scope.
Set Warnings "-register-all".

(** Keeps the equation of a scrutinee in a [with] clause. *)
Definition inspect {A} (x : A) : { y : A | x = y } := exist _ x eq_refl.


(** ** JavaScript numbers

    A [number] is a double: not-a-number, an infinity, or a finite value.
    Finite values are kept as rationals; the operations below are the ones
    the source applies to numbers.  Subtraction is exact, which agrees with
    double arithmetic on integer operands far below 2^53; on other
    operands a double subtraction may round, so the properties of
    [toArray] with a limit are stated for integer limits, or say only
    what holds under either subtraction. *)
Module Js.

Inductive number :=
  | NaN
  | NegInfinity
  | Fin (q : Q)
  | Infinity.

Definition of_Z (z : Z) : number := Fin (inject_Z z).
Definition of_nat (n : nat) : number := of_Z (Z.of_nat n).

(** [a > b]; any comparison with NaN is false. *)
Definition gt (a b : number) : bool :=
  match a, b with
  | NaN, _ | _, NaN => false
  | NegInfinity, _ => false
  | _, Infinity => false
  | Fin x, Fin y => negb (Qle_bool x y)
  | Fin _, NegInfinity => true
  | Infinity, _ => true
  end.

(** [Math.max(a, b)] and [Math.min(a, b)]: NaN is contagious. *)
Definition Math_max (a b : number) : number :=
  match a, b with
  | NaN, _ | _, NaN => NaN
  | _, _ => if gt b a then b else a
  end.

Definition Math_min (a b : number) : number :=
  match a, b with
  | NaN, _ | _, NaN => NaN
  | _, _ => if gt a b then b else a
  end.

(** [a - b]. *)
Definition sub (a b : number) : number :=
  match a, b with
  | NaN, _ | _, NaN => NaN
  | Infinity, Infinity | NegInfinity, NegInfinity => NaN
  | Infinity, _ | _, NegInfinity => Infinity
  | NegInfinity, _ | _, Infinity => NegInfinity
  | Fin x, Fin y => Fin (x - y)
  end.

(** Truncation toward zero of a rational. *)
Definition trunc (q : Q) : Z := Z.quot (Qnum q) (Z.pos (Qden q)).

Definition is_integer (q : Q) : bool :=
  Z.eqb (Z.rem (Qnum q) (Z.pos (Qden q))) 0.

(** [Array.prototype.slice(start)] on an array held as a list:
    the relative start is [ToIntegerOrInfinity(start)], a negative one
    counts from the end, and the result is clamped to the array. *)
Definition slice_from {A} (l : list A) (start : number) : list A :=
  match start with
  | NaN => l
  | NegInfinity => l
  | Infinity => []
  | Fin q =>
      let rel := trunc q in
      if (rel <? 0)%Z
      then drop (Z.to_nat (Z.max (Z.of_nat (length l) + rel) 0)) l
      else drop (Z.to_nat (Z.min rel (Z.of_nat (length l)))) l
  end.

(** [a[i] = x] on an array held as a list of possibly empty slots:
    in range the slot is overwritten, out of range the array grows. *)
Definition array_set {A} (l : list (option A)) (i : nat) (x : A)
  : list (option A) :=
  if decide (i < length l) then <[i := Some x]> l
  else l ++ replicate (i - length l) None ++ [Some x].

End Js.

(** ** Thrown values *)
Inductive Thrown :=
  | HttpError (status : Z) (message : string)
  | RangeError
  | TypeError
  | HostFailure (what : string).

Inductive Result (A : Type) :=
  | Ok (a : A)
  | Throw (e : Thrown).
Arguments Ok {A} a.
Arguments Throw {A} e.

(** ** RingBuffer *)
Module RingBuffer.

Record t := mk {
  capacity : nat;
  buffer : list (option string);
  index : nat;
  filled : bool
}.

(** The clamped capacity computed by the constructor. *)
Definition clamp (capacity : Js.number) : Js.number :=
  Js.Math_max (Js.of_Z 10) (Js.Math_min capacity (Js.of_Z 10000)).

(** [new RingBuffer(capacity)].  [new Array(n)] throws a RangeError unless
    [n] is an integer array length. *)
Definition new (capacity : Js.number) : Result t :=
  match clamp capacity with
  | Js.Fin q =>
      if Js.is_integer q && (0 <=? Js.trunc q)%Z
      then let c := Z.to_nat (Js.trunc q) in
           Ok {| capacity := c; buffer := replicate c None;
                 index := 0; filled := false |}
      else Throw RangeError
  | _ => Throw RangeError
  end.

(** [push(line)].  The constructor makes [capacity] at least 10, so the
    remainder is never taken by zero. *)
Definition push (line : string) (rb : t) : t :=
  let buffer' := Js.array_set (buffer rb) (index rb) line in
  let index' := (index rb + 1) mod capacity rb in
  {| capacity := capacity rb;
     buffer := buffer';
     index := index';
     filled := if decide (index' = 0) then true else filled rb |}.

Definition toArray (limit : option Js.number) (rb : t)
  : list (option string) :=
  let data :=
    if filled rb
    then drop (index rb) (buffer rb) ++ take (index rb) (buffer rb)
    else take (index rb) (buffer rb) in
  match limit with
  | Some l =>
      if Js.gt l (Js.of_Z 0)
      then Js.slice_from data
             (Js.Math_max (Js.of_Z 0) (Js.sub (Js.of_nat (length data)) l))
      else data
  | None => data
  end.

(** Pushing a sequence of lines, oldest first. *)
Definition pushes (lines : list string) (rb : t) : t :=
  foldl (fun acc line => push line acc) rb lines.

End RingBuffer.

(** ** Line splitter

    Text is a [string] of 8-bit code units.  A chunk is the text that
    [decoder.decode(chunk, { stream: true })] yields for one chunk of the
    byte stream. *)
Module LineSplitter.

Definition LF : ascii := Ascii.ascii_of_nat 10.
Definition CR : ascii := Ascii.ascii_of_nat 13.

(** [s.indexOf(c)], [None] standing for -1. *)
Fixpoint indexOf (c : ascii) (s : string) : option nat :=
  match s with
  | EmptyString => None
  | String a r => if Ascii.eqb a c then Some 0 else S <$> indexOf c r
  end.

(** [s.slice(0, n)] and [s.slice(n)] for an index inside the string. *)
Fixpoint slice_to (n : nat) (s : string) : string :=
  match n, s with
  | S k, String a r => String a (slice_to k r)
  | _, _ => EmptyString
  end.

Fixpoint slice_from (n : nat) (s : string) : string :=
  match n, s with
  | S k, String _ r => slice_from k r
  | _, _ => s
  end.

(** [line.replace(/\r$/, "")]: one carriage return at the very end goes. *)
Fixpoint strip_cr (s : string) : string :=
  match s with
  | EmptyString => EmptyString
  | String a EmptyString => if Ascii.eqb a CR then EmptyString else s
  | String a r => String a (strip_cr r)
  end.

Lemma indexOf_slice_shorter c buf idx :
  indexOf c buf = Some idx ->
  String.length (slice_from (idx + 1) buf) < String.length buf.
Proof.
  revert idx; induction buf as [|a r IH]; intros idx; simpl; [discriminate|].
  destruct (Ascii.eqb a c).
  - intros [= <-]; simpl. destruct r; simpl; lia.
  - destruct (indexOf c r) as [k|] eqn:E; simpl; [|discriminate].
    intros [= <-]. specialize (IH k eq_refl). simpl. lia.
Qed.

(** The inner [while ((idx = buf.indexOf("\n")) !== -1)] loop: emits every
    completed line of [buf] to the sink and returns what is left of [buf]. *)
Equations? drain {S} (onLine : string -> S -> S) (buf : string) (sink : S)
  : string * S by wf (String.length buf) lt :=
  drain onLine buf sink with inspect (indexOf LF buf) => {
    | exist _ None _ => (buf, sink);
    | exist _ (Some idx) Hidx =>
        drain onLine (slice_from (idx + 1) buf)
          (onLine (strip_cr (slice_to idx buf)) sink) }.
Proof. eapply indexOf_slice_shorter; eassumption. Qed.

(** One iteration of [for await (const chunk of stream)]. *)
Definition on_chunk {S} (onLine : string -> S -> S) (chunk : string)
    (st : string * S) : string * S :=
  drain onLine (String.app (fst st) chunk) (snd st).

(** The chunks of a stream, in order. *)
Definition feed {S} (onLine : string -> S -> S) (chunks : list string)
    (st : string * S) : string * S :=
  foldl (fun acc chunk => on_chunk onLine chunk acc) st chunks.

(** [if (buf) onLine(buf)] at the end of the stream. *)
Definition on_end {S} (onLine : string -> S -> S) (st : string * S) : S :=
  match fst st with
  | EmptyString => snd st
  | buf => onLine buf (snd st)
  end.

Definition streamLines {S} (onLine : string -> S -> S)
    (chunks : list string) (sink : S) : S :=
  on_end onLine (feed onLine chunks (EmptyString, sink)).

(** The sink that records the emitted lines, oldest first. *)
Definition record_line (line : string) (out : list string) : list string :=
  out ++ [line].

(** *** What the contract says, on the whole text

    [split_LF text] cuts [text] at every line feed: the completed segments
    in order, and the unterminated remainder. *)
Fixpoint split_LF (text : string) : list string * string :=
  match text with
  | EmptyString => ([], EmptyString)
  | String a r =>
      let '(segs, rest) := split_LF r in
      if Ascii.eqb a LF then (EmptyString :: segs, rest)
      else match segs with
           | [] => ([], String a rest)
           | seg :: segs' => (String a seg :: segs', rest)
           end
  end.

Definition concat_chunks (chunks : list string) : string :=
  foldr String.app EmptyString chunks.

End LineSplitter.

(** ** Request bodies

    A parsed JSON body ([req.json()]).  An object is held as its list of
    own properties. *)
Inductive json :=
  | JNull
  | JBool (b : bool)
  | JNum (n : Js.number)
  | JStr (s : string)
  | JArr (items : list json)
  | JObj (fields : list (string * json)).

Module Json.

(** [typeof v === "object"]. *)
Definition is_object (v : json) : bool :=
  match v with
  | JNull | JArr _ | JObj _ => true
  | _ => false
  end.

(** [Boolean(v)], the truthiness that [!v] negates. *)
Definition truthy (v : json) : bool :=
  match v with
  | JNull => false
  | JBool b => b
  | JNum (Js.Fin q) => negb (Z.eqb (Qnum q) 0)
  | JNum Js.NaN => false
  | JNum _ => true
  | JStr s => negb (String.eqb s EmptyString)
  | JArr _ | JObj _ => true
  end.

Fixpoint assoc (k : string) (fields : list (string * json)) : option json :=
  match fields with
  | [] => None
  | (k', v) :: rest => if String.eqb k' k then Some v else assoc k rest
  end.

(** [v.k] for one of the property names the validator reads; [None] is
    [undefined]. *)
Definition prop (k : string) (v : json) : option json :=
  match v with
  | JObj fields => assoc k fields
  | _ => None
  end.

(** [items.every((v) => typeof v === "string")], with the strings. *)
Fixpoint strings_of (items : list json) : option (list string) :=
  match items with
  | [] => Some []
  | JStr s :: rest => cons s <$> strings_of rest
  | _ :: _ => None
  end.

End Json.

(** The argument of [FrpsManager.create]; every field is optional. *)
Module CreateInput.
Record t := mk {
  id : option string;
  binaryPath : option string;
  configToml : option string;
  config : option json;
  env : option json;
  args : option (list string);
  logLines : option Js.number;
  replaceIfExists : option bool
}.
End CreateInput.

Definition bad_request {A} (message : string) : Result A :=
  Throw (HttpError 400 message).

Definition bind {A B} (r : Result A) (k : A -> Result B) : Result B :=
  match r with
  | Ok a => k a
  | Throw e => Throw e
  end.

Notation "x <- r ;; k" := (bind r (fun x => k))
  (at level 100, r at next level, right associativity).

Section Validation.

(** [Number(v)], the host's conversion of an arbitrary value. *)
Variable ToNumber : json -> Js.number.

Definition validate_string (field message : string) (body : json)
  : Result (option string) :=
  match Json.prop field body with
  | None => Ok None
  | Some (JStr s) =>
      if String.eqb s EmptyString then bad_request message else Ok (Some s)
  | Some _ => bad_request message
  end.

Definition validate_object (field message : string) (body : json)
  : Result (option json) :=
  match Json.prop field body with
  | None => Ok None
  | Some v => if Json.is_object v then Ok (Some v) else bad_request message
  end.

Definition validate_args (body : json) : Result (option (list string)) :=
  match Json.prop "args" body with
  | None => Ok None
  | Some (JArr items) =>
      match Json.strings_of items with
      | Some l => Ok (Some l)
      | None => bad_request "args must be string[]"
      end
  | Some _ => bad_request "args must be string[]"
  end.

Definition validate_logLines (body : json) : Result (option Js.number) :=
  match Json.prop "logLines" body with
  | None => Ok None
  | Some v =>
      match ToNumber v with
      | Js.Fin q =>
          if Qle_bool 10 q then Ok (Some (Js.of_Z (Qfloor q)))
          else bad_request "logLines must be number >= 10"
      | _ => bad_request "logLines must be number >= 10"
      end
  end.

Definition validateCreateBody (body : json) : Result CreateInput.t :=
  if negb (Json.truthy body) || negb (Json.is_object body)
  then bad_request "body must be object"
  else
    id <- validate_string "id" "id must be non-empty string" body ;;
    binaryPath <- validate_string "binaryPath" "binaryPath must be string" body ;;
    configToml <- validate_string "configToml" "configToml must be string" body ;;
    config <- validate_object "config" "config must be object" body ;;
    env <- validate_object "env" "env must be object" body ;;
    args <- validate_args body ;;
    logLines <- validate_logLines body ;;
    let replaceIfExists := Json.truthy <$> Json.prop "replaceIfExists" body in
    if negb (bool_decide (is_Some configToml)) &&
       negb (from_option Json.truthy false config)
    then bad_request "either configToml or config must be provided"
    else Ok {| CreateInput.id := id;
               CreateInput.binaryPath := binaryPath;
               CreateInput.configToml := configToml;
               CreateInput.config := config;
               CreateInput.env := env;
               CreateInput.args := args;
               CreateInput.logLines := logLines;
               CreateInput.replaceIfExists := replaceIfExists |}.

End Validation.

(** ** Process records and the supervisor's world

    Objects live in a store and are named by locations, because the source
    shares them: a record, its [args] array, its [env] object, its [state]
    object and its [logBuffer] are separate JavaScript objects, and several
    references to one of them see the same mutations. *)
Inductive ManagedProcessState :=
  | running (pid : Z) (startedAt : Z)
  | exited (startedAt exitedAt : Z) (exitCode : option Z)
           (signal : option string).

Definition is_exited (st : ManagedProcessState) : bool :=
  match st with
  | exited _ _ _ _ => true
  | running _ _ => false
  end.

Abbreviation loc := positive.

Module Meta.
Record t := mk {
  id : string;
  binaryPath : string;
  configPath : string;
  workDir : string;
  args : loc;
  env : loc;
  state : loc;
  logBuffer : loc
}.

Definition set_state (l : loc) (m : t) : t :=
  mk (id m) (binaryPath m) (configPath m) (workDir m) (args m) (env m) l
     (logBuffer m).
End Meta.

Inductive Signal := SIGTERM | SIGKILL.

Inductive Channel := Stdout | Stderr.

(** What the closures attached to one spawned child hold: the exit watcher
    captures [id], [startedAt] and the child; each capture task captures
    the record's buffer and owns its decode buffer ([None] once its stream
    has ended). *)
Record Child := mkChild {
  c_pid : Z;
  c_id : string;
  c_startedAt : Z;
  c_logBuffer : loc;
  c_exitHandled : bool;
  c_stdout : option string;
  c_stderr : option string
}.

(** [signals] is the log of [process.kill] calls and [spawned] the log of
    [Bun.spawn] calls (pid, binary, arguments, working directory), both
    oldest first; [dirs] and [files] are the host's file system. *)
Record State := mkState {
  processes : list (string * loc);
  metas : gmap loc Meta.t;
  arrays : gmap loc (list string);
  envs : gmap loc (gmap string json);
  states : gmap loc ManagedProcessState;
  buffers : gmap loc RingBuffer.t;
  dirs : gset string;
  files : gmap string string;
  clock : Z;
  signals : list (Z * Signal);
  spawned : list (Z * string * list string * string);
  children : list Child;
  uuids : nat
}.

Definition set_processes v (s : State) : State :=
  mkState v (metas s) (arrays s) (envs s) (states s) (buffers s) (dirs s)
    (files s) (clock s) (signals s) (spawned s) (children s) (uuids s).
Definition set_metas v (s : State) : State :=
  mkState (processes s) v (arrays s) (envs s) (states s) (buffers s)
    (dirs s) (files s) (clock s) (signals s) (spawned s) (children s)
    (uuids s).
Definition set_arrays v (s : State) : State :=
  mkState (processes s) (metas s) v (envs s) (states s) (buffers s) (dirs s)
    (files s) (clock s) (signals s) (spawned s) (children s) (uuids s).
Definition set_envs v (s : State) : State :=
  mkState (processes s) (metas s) (arrays s) v (states s) (buffers s)
    (dirs s) (files s) (clock s) (signals s) (spawned s) (children s)
    (uuids s).
Definition set_states v (s : State) : State :=
  mkState (processes s) (metas s) (arrays s) (envs s) v (buffers s) (dirs s)
    (files s) (clock s) (signals s) (spawned s) (children s) (uuids s).
Definition set_buffers v (s : State) : State :=
  mkState (processes s) (metas s) (arrays s) (envs s) (states s) v (dirs s)
    (files s) (clock s) (signals s) (spawned s) (children s) (uuids s).
Definition set_dirs v (s : State) : State :=
  mkState (processes s) (metas s) (arrays s) (envs s) (states s) (buffers s)
    v (files s) (clock s) (signals s) (spawned s) (children s) (uuids s).
Definition set_files v (s : State) : State :=
  mkState (processes s) (metas s) (arrays s) (envs s) (states s) (buffers s)
    (dirs s) v (clock s) (signals s) (spawned s) (children s) (uuids s).
Definition set_clock v (s : State) : State :=
  mkState (processes s) (metas s) (arrays s) (envs s) (states s) (buffers s)
    (dirs s) (files s) v (signals s) (spawned s) (children s) (uuids s).
Definition set_signals v (s : State) : State :=
  mkState (processes s) (metas s) (arrays s) (envs s) (states s) (buffers s)
    (dirs s) (files s) (clock s) v (spawned s) (children s) (uuids s).
Definition set_spawned v (s : State) : State :=
  mkState (processes s) (metas s) (arrays s) (envs s) (states s) (buffers s)
    (dirs s) (files s) (clock s) (signals s) v (children s) (uuids s).
Definition set_children v (s : State) : State :=
  mkState (processes s) (metas s) (arrays s) (envs s) (states s) (buffers s)
    (dirs s) (files s) (clock s) (signals s) (spawned s) v (uuids s).
Definition set_uuids v (s : State) : State :=
  mkState (processes s) (metas s) (arrays s) (envs s) (states s) (buffers s)
    (dirs s) (files s) (clock s) (signals s) (spawned s) (children s) v.

(** The state of a freshly constructed manager on an empty host. *)
Definition initial : State :=
  mkState [] ∅ ∅ ∅ ∅ ∅ ∅ ∅ 0%Z [] [] [] 0.

(** The JavaScript [Map] behind [processes]: insertion ordered, and [set]
    on a present key keeps its place. *)
Fixpoint map_get (k : string) (m : list (string * loc)) : option loc :=
  match m with
  | [] => None
  | (k', v) :: rest => if String.eqb k' k then Some v else map_get k rest
  end.

Definition map_has (k : string) (m : list (string * loc)) : bool :=
  match map_get k m with Some _ => true | None => false end.

Fixpoint map_set (k : string) (v : loc) (m : list (string * loc))
  : list (string * loc) :=
  match m with
  | [] => [(k, v)]
  | (k', v') :: rest =>
      if String.eqb k' k then (k, v) :: rest else (k', v') :: map_set k v rest
  end.

(** [meta.state] read through a record reference: [None] when the
    reference or its [state] field names no object. *)
Definition state_of (p : loc) (s : State) : option ManagedProcessState :=
  match metas s !! p with
  | Some m => states s !! Meta.state m
  | None => None
  end.

(** ** What happens while a task is suspended *)
Inductive Event :=
  | ChildExit (child : nat) (exitCode : option Z)
  | Output (child : nat) (ch : Channel) (chunk : string)
  | OutputEnd (child : nat) (ch : Channel).

(** The body of the [child.exited.then] callback. *)
Definition exit_watcher (c : Child) (exitCode : option Z) (s : State)
  : State :=
  let exitedAt := clock s in
  match map_get (c_id c) (processes s) with
  | None => s
  | Some prev =>
      match metas s !! prev with
      | None => s
      | Some m =>
          let l := fresh (dom (states s)) in
          set_metas (<[prev := Meta.set_state l m]> (metas s))
            (set_states
               (<[l := exited (c_startedAt c) exitedAt exitCode None]>
                  (states s)) s)
      end
  end.

Definition tag (ch : Channel) : string :=
  match ch with
  | Stdout => "[stdout] "
  | Stderr => "[stderr] "
  end.

(** The sink of a capture task: [(line) => logBuffer.push(tag + line)]. *)
Definition capture_sink (l : loc) (ch : Channel) (line : string)
    (bufs : gmap loc RingBuffer.t) : gmap loc RingBuffer.t :=
  alter (RingBuffer.push (String.app (tag ch) line)) l bufs.

Definition stream_of (ch : Channel) (c : Child) : option string :=
  match ch with
  | Stdout => c_stdout c
  | Stderr => c_stderr c
  end.

Definition set_stream (ch : Channel) (v : option string) (c : Child) : Child :=
  match ch with
  | Stdout => mkChild (c_pid c) (c_id c) (c_startedAt c) (c_logBuffer c)
                (c_exitHandled c) v (c_stderr c)
  | Stderr => mkChild (c_pid c) (c_id c) (c_startedAt c) (c_logBuffer c)
                (c_exitHandled c) (c_stdout c) v
  end.

Definition mark_exit_handled (c : Child) : Child :=
  mkChild (c_pid c) (c_id c) (c_startedAt c) (c_logBuffer c) true
    (c_stdout c) (c_stderr c).

Definition fire (e : Event) (s : State) : State :=
  match e with
  | ChildExit i exitCode =>
      match children s !! i with
      | Some c =>
          if c_exitHandled c then s
          else exit_watcher c exitCode
                 (set_children (<[i := mark_exit_handled c]> (children s)) s)
      | None => s
      end
  | Output i ch chunk =>
      match children s !! i with
      | Some c =>
          match stream_of ch c with
          | Some buf =>
              let r := LineSplitter.on_chunk (capture_sink (c_logBuffer c) ch)
                         chunk (buf, buffers s) in
              set_buffers (snd r)
                (set_children (<[i := set_stream ch (Some (fst r)) c]>
                                 (children s)) s)
          | None => s
          end
      | None => s
      end
  | OutputEnd i ch =>
      match children s !! i with
      | Some c =>
          match stream_of ch c with
          | Some buf =>
              set_buffers
                (LineSplitter.on_end (capture_sink (c_logBuffer c) ch)
                   (buf, buffers s))
                (set_children (<[i := set_stream ch None c]> (children s)) s)
          | None => s
          end
      | None => s
      end
  end.

(** One suspension: the time that passes beyond the requested minimum, and
    the events delivered before the task resumes. *)
Record Tick := mkTick {
  elapsed : nat;
  events : list Event
}.

Definition fire_all (es : list Event) (s : State) : State :=
  foldl (fun acc e => fire e acc) s es.

(** [await] of a host operation that takes at least [min_ms]; past the end
    of the schedule nothing else happens meanwhile. *)
Definition await_ (min_ms : Z) (sched : list Tick) (s : State)
  : State * list Tick :=
  match sched with
  | [] => (set_clock (clock s + min_ms)%Z s, [])
  | t :: rest =>
      (fire_all (events t)
         (set_clock (clock s + min_ms + Z.of_nat (elapsed t))%Z s), rest)
  end.

(** ** The host and the collaborators

    What the manager is constructed with and what it asks of the platform:
    [path.join], [Bun.which], [process.env], [crypto.randomUUID] (by how
    many were drawn before), the configuration renderer [generateToml],
    whether [mkdir] and [writeFile] go through, and the pid [Bun.spawn]
    hands back ([None] when the host refuses to start the process). *)
Record Host := mkHost {
  runtimeRoot : string;
  path_join : string -> string -> string;
  which : string -> option string;
  process_env : gmap string json;
  randomUUID : nat -> string;
  generateToml : json -> string;
  mkdir_ok : string -> bool;
  writeFile_ok : string -> bool;
  spawn_pid : nat -> string -> list string -> option Z
}.

(** The options of [stop]; [timeoutMs] is any number: the handler of
    [DELETE /frps/:id] passes what [Number] makes of a query string. *)
Record StopOptions := mkStopOptions {
  force : option bool;
  timeoutMs : option Js.number
}.

Module FrpsManager.

Definition get (id : string) (s : State) : option loc :=
  map_get id (processes s).

(** What [stop] sees behind an id: no record, a record whose [state]
    names no object (reading its [status] is a TypeError), or a state. *)
Inductive Seen :=
  | Absent
  | Broken
  | Has (st : ManagedProcessState).

Definition look (id : string) (s : State) : Seen :=
  match get id s with
  | None => Absent
  | Some p =>
      match state_of p s with
      | Some st => Has st
      | None => Broken
      end
  end.

(** [process.kill(pid, sig)] inside [try { } catch {}]: the delivery is
    attempted and its outcome ignored. *)
Definition kill (pid : Z) (sig : Signal) (s : State) : State :=
  set_signals (signals s ++ [(pid, sig)]) s.

(** The guard [!current || current.state.status === "exited"].  On a
    record without a state object the source throws here; the loop is left
    and [stop] throws at its next look at the record, the state being the
    same. *)
Definition wait_over (id : string) (s : State) : bool :=
  match look id s with
  | Has (running _ _) => false
  | _ => true
  end.

Lemma fire_clock e s : clock (fire e s) = clock s.
Proof.
  destruct e as [i code|i ch chunk|i ch]; simpl;
    destruct (children s !! i) as [c|]; try reflexivity.
  - destruct (c_exitHandled c); [reflexivity|].
    unfold exit_watcher; simpl.
    destruct (map_get _ _); [|reflexivity].
    destruct (metas s !! _); reflexivity.
  - destruct (stream_of ch c); reflexivity.
  - destruct (stream_of ch c); reflexivity.
Qed.

Lemma fire_all_clock es s : clock (fire_all es s) = clock s.
Proof.
  revert s; induction es as [|e es IH]; intros s; [reflexivity|].
  change (fire_all (e :: es) s) with (fire_all es (fire e s)).
  rewrite IH. apply fire_clock.
Qed.

Lemma await_clock min_ms sched s :
  (0 <= min_ms -> clock s + min_ms <= clock (fst (await_ min_ms sched s)))%Z.
Proof.
  intros Hms. destruct sched as [|t rest]; simpl; [lia|].
  rewrite fire_all_clock. simpl. lia.
Qed.

(** The polling loop of [stop] for a timeout of [timeout] milliseconds:
    while the timeout has not elapsed and the record is still running,
    sleep 50ms. *)
Equations? poll (id : string) (startWait timeout : Z)
    (sched : list Tick) (s : State) : State * list Tick
    by wf (Z.to_nat (startWait + timeout - clock s)) lt :=
  poll id startWait timeout sched s
    with inspect (clock s - startWait <? timeout)%Z => {
    | exist _ false _ => (s, sched);
    | exist _ true Hlt with wait_over id s => {
        | true => (s, sched);
        | false =>
            poll id startWait timeout
              (snd (await_ 50 sched s)) (fst (await_ 50 sched s)) } }.
Proof.
  apply Z.ltb_lt in Hlt.
  pose proof (await_clock 50 sched s). lia.
Qed.

(** The same loop when [timeoutMs] is [Infinity]: the test on the time
    never fails, so the loop is left only once the record is gone or has
    exited.  Past the end of the schedule nothing happens any more: a
    record that is still running then stays so, and the loop never ends
    ([None]). *)
Fixpoint poll_forever (id : string) (sched : list Tick) (s : State)
  : option (State * list Tick) :=
  match sched with
  | [] => if wait_over id s then Some (s, []) else None
  | t :: rest =>
      if wait_over id s then Some (s, t :: rest)
      else poll_forever id rest (fst (await_ 50 (t :: rest) s))
  end.

(** [while (Date.now() - startWait < timeoutMs) { ... }] for any number.
    The elapsed time is a whole number of milliseconds, so it is below a
    finite [timeoutMs] exactly when it is below its ceiling; against NaN
    or -Infinity the test fails at once; against Infinity it never
    fails.  [None]: the loop never ends. *)
Definition wait (id : string) (startWait : Z) (timeoutMs : Js.number)
    (sched : list Tick) (s : State) : option (State * list Tick) :=
  match timeoutMs with
  | Js.Fin q => Some (poll id startWait (Qceiling q) sched s)
  | Js.Infinity => poll_forever id sched s
  | Js.NaN | Js.NegInfinity => Some (s, sched)
  end.

(** [stop] from the end of the loop on. *)
Definition finish (id : string) (force_ : bool) (s2 : State)
    (sched2 : list Tick) : Result bool * State * list Tick :=
  match look id s2 with
  | Broken => (Throw TypeError, s2, sched2)
  | Has (running pid' _) =>
      if force_ then (Ok true, kill pid' SIGKILL s2, sched2)
      else (Ok true, s2, sched2)
  | _ => (Ok true, s2, sched2)
  end.

(** [stop(id, options)]; [None] when the call never returns. *)
Definition stop (id : string) (options : option StopOptions)
    (sched : list Tick) (s : State)
  : option (Result bool * State * list Tick) :=
  match look id s with
  | Absent => Some (Ok false, s, sched)
  | Broken => Some (Throw TypeError, s, sched)
  | Has (exited _ _ _ _) => Some (Ok true, s, sched)
  | Has (running pid _) =>
      let force_ := default false (options ≫= force) in
      let timeout := default (Js.of_Z 3000) (options ≫= timeoutMs) in
      let s1 := kill pid SIGTERM s in
      let startWait := clock s1 in
      match wait id startWait timeout sched s1 with
      | Some (s2, sched2) => Some (finish id force_ s2 sched2)
      | None => None
      end
  end.

(** [stop] with a [timeoutMs] that is a whole number of milliseconds, as
    [create] calls it: the loop ends, so the call returns or throws
    ([stop_whole_timeout] below relates it to [stop]). *)
Definition stop_within (id : string) (force_ : bool) (timeout : Z)
    (sched : list Tick) (s : State) : Result bool * State * list Tick :=
  match look id s with
  | Absent => (Ok false, s, sched)
  | Broken => (Throw TypeError, s, sched)
  | Has (exited _ _ _ _) => (Ok true, s, sched)
  | Has (running pid _) =>
      let s1 := kill pid SIGTERM s in
      let startWait := clock s1 in
      let '(s2, sched2) := poll id startWait timeout sched s1 in
      finish id force_ s2 sched2
  end.

Definition includes (c : ascii) (text : string) : bool :=
  match LineSplitter.indexOf c text with
  | Some _ => true
  | None => false
  end.

(** [stat(path)] succeeds on what exists. *)
Definition path_exists (p : string) (s : State) : bool :=
  bool_decide (p ∈ dirs s) || bool_decide (is_Some (files s !! p)).

Definition slash : ascii := Ascii.ascii_of_nat 47.
Definition backslash : ascii := Ascii.ascii_of_nat 92.

Definition assertBinaryExists (h : Host) (binaryPath : string)
    (sched : list Tick) (s : State) : Result unit * State * list Tick :=
  if includes slash binaryPath || includes backslash binaryPath
  then
    let found := path_exists binaryPath s in
    let '(s', sched') := await_ 0 sched s in
    if found then (Ok tt, s', sched')
    else (Throw (HttpError 400
                   (String.app "binary not found at path: " binaryPath)),
          s', sched')
  else
    match which h binaryPath with
    | Some _ => (Ok tt, s, sched)
    | None =>
        (Throw (HttpError 400
                  (String.app "binary not found in PATH: " binaryPath)),
         s, sched)
    end.

(** [await mkdir(workDir, { recursive: true })]: no error when the
    directory is already there. *)
Definition mkdir (h : Host) (workDir : string) (sched : list Tick)
    (s : State) : Result unit * State * list Tick :=
  if mkdir_ok h workDir
  then let '(s', sched') :=
         await_ 0 sched (set_dirs ({[workDir]} ∪ dirs s) s) in
       (Ok tt, s', sched')
  else let '(s', sched') := await_ 0 sched s in
       (Throw (HostFailure "mkdir"), s', sched').

(** [await writeFile(path, text, "utf8")]: creates or overwrites. *)
Definition writeFile (h : Host) (path text : string) (sched : list Tick)
    (s : State) : Result unit * State * list Tick :=
  if writeFile_ok h path
  then let '(s', sched') :=
         await_ 0 sched (set_files (<[path := text]> (files s)) s) in
       (Ok tt, s', sched')
  else let '(s', sched') := await_ 0 sched s in
       (Throw (HostFailure "writeFile"), s', sched').

(** The own enumerable properties an object spread copies. *)
Definition spread (v : option json) : gmap string json :=
  match v with
  | Some (JObj fields) => list_to_map fields
  | Some (JArr items) => list_to_map (imap (fun i x => (pretty i, x)) items)
  | _ => ∅
  end.

(** The synchronous end of [create], from the computation of [args] to
    [return meta]: spawn, build the record, insert it, attach the capture
    tasks and the exit watcher. *)
Definition spawn_and_register (h : Host) (input : CreateInput.t)
    (id binaryPath configPath workDir : string) (s : State)
  : Result loc * State :=
  let args :=
    match CreateInput.args input with
    | Some (a :: rest) => a :: rest
    | _ => ["-c"; configPath]
    end in
  let env := spread (CreateInput.env input) ∪ process_env h in
  match spawn_pid h (length (spawned s)) binaryPath args with
  | None => (Throw (HostFailure "spawn"), s)
  | Some pid =>
      let s1 := set_spawned (spawned s ++ [(pid, binaryPath, args, workDir)]) s in
      match RingBuffer.new
              (default (Js.of_Z 1000) (CreateInput.logLines input)) with
      | Throw e => (Throw e, s1)
      | Ok logBuffer =>
          let startedAt := clock s1 in
          let la := fresh (dom (arrays s1)) in
          let le := fresh (dom (envs s1)) in
          let ls := fresh (dom (states s1)) in
          let lb := fresh (dom (buffers s1)) in
          let lm := fresh (dom (metas s1)) in
          let meta := Meta.mk id binaryPath configPath workDir la le ls lb in
          (Ok lm,
           mkState (map_set id lm (processes s1))
             (<[lm := meta]> (metas s1))
             (<[la := args]> (arrays s1))
             (<[le := env]> (envs s1))
             (<[ls := running pid startedAt]> (states s1))
             (<[lb := logBuffer]> (buffers s1))
             (dirs s1) (files s1) (clock s1) (signals s1) (spawned s1)
             (children s1 ++
                [mkChild pid id startedAt lb false
                   (Some EmptyString) (Some EmptyString)])
             (uuids s1))
      end
  end.

(** [create] from binary resolution on. *)
Definition create_resolved (h : Host) (input : CreateInput.t) (id : string)
    (sched : list Tick) (s : State) : Result loc * State * list Tick :=
  let binaryPath := default "frps" (CreateInput.binaryPath input) in
  let '(r1, s1, sched1) := assertBinaryExists h binaryPath sched s in
  match r1 with
  | Throw e => (Throw e, s1, sched1)
  | Ok _ =>
      let workDir := path_join h (runtimeRoot h) (String.app "frps-" id) in
      let '(r2, s2, sched2) := mkdir h workDir sched1 s1 in
      match r2 with
      | Throw e => (Throw e, s2, sched2)
      | Ok _ =>
          let configPath := path_join h workDir "frps.toml" in
          let text :=
            match CreateInput.configToml input with
            | Some (String a r) => String a r
            | _ => generateToml h
                     (match CreateInput.config input with
                      | Some JNull | None => JObj []
                      | Some c => c
                      end)
            end in
          let '(r3, s3, sched3) := writeFile h configPath text sched2 s2 in
          match r3 with
          | Throw e => (Throw e, s3, sched3)
          | Ok _ =>
              let '(r4, s4) :=
                spawn_and_register h input id binaryPath configPath workDir s3
              in (r4, s4, sched3)
          end
      end
  end.

Definition create (h : Host) (input : CreateInput.t) (sched : list Tick)
    (s : State) : Result loc * State * list Tick :=
  let '(id, s0) :=
    match CreateInput.id input with
    | Some i => (i, s)
    | None => (randomUUID h (uuids s), set_uuids (S (uuids s)) s)
    end in
  if map_has id (processes s0)
  then
    if default false (CreateInput.replaceIfExists input)
    then
      (* await this.stop(id, { force: true, timeoutMs: 1000 }) *)
      let '(r, s1, sched1) := stop_within id true 1000%Z sched s0 in
      match r with
      | Throw e => (Throw e, s1, sched1)
      | Ok _ => create_resolved h input id sched1 s1
      end
    else
      (Throw (HttpError 409
                (String.app "frps with id "
                   (String.app id " already exists"))), s0, sched)
  else create_resolved h input id sched s0.

(** [list()]: one fresh object per record, holding the record's field
    values, in the order of the map. *)
Definition copy_record (acc : list loc * State) (entry : string * loc)
  : list loc * State :=
  match metas (snd acc) !! snd entry with
  | Some m =>
      let l := fresh (dom (metas (snd acc))) in
      (fst acc ++ [l], set_metas (<[l := m]> (metas (snd acc))) (snd acc))
  | None => acc
  end.

Definition list (s : State) : list loc * State :=
  foldl copy_record ([], s) (processes s).

End FrpsManager.

(** The handler of [POST /frps]:
    [manager.create(validateCreateBody(body))]. *)
Definition post_frps (ToNumber : json -> Js.number) (h : Host) (body : json)
    (sched : list Tick) (s : State) : Result loc * State * list Tick :=
  match validateCreateBody ToNumber body with
  | Throw e => (Throw e, s, sched)
  | Ok input => FrpsManager.create h input sched s
  end.

(** ** What a caller can do with a returned record

    A caller holding a reference [p] to a record object can assign its
    fields and can mutate the objects its fields refer to. *)
Module Caller.

Inductive FieldWrite :=
  | WId (v : string)
  | WBinaryPath (v : string)
  | WConfigPath (v : string)
  | WWorkDir (v : string)
  | WArgs (l : loc)
  | WEnv (l : loc)
  | WState (l : loc)
  | WLogBuffer (l : loc).

Definition write_field (w : FieldWrite) (m : Meta.t) : Meta.t :=
  match w with
  | WId v => Meta.mk v (Meta.binaryPath m) (Meta.configPath m)
               (Meta.workDir m) (Meta.args m) (Meta.env m) (Meta.state m)
               (Meta.logBuffer m)
  | WBinaryPath v => Meta.mk (Meta.id m) v (Meta.configPath m)
               (Meta.workDir m) (Meta.args m) (Meta.env m) (Meta.state m)
               (Meta.logBuffer m)
  | WConfigPath v => Meta.mk (Meta.id m) (Meta.binaryPath m) v
               (Meta.workDir m) (Meta.args m) (Meta.env m) (Meta.state m)
               (Meta.logBuffer m)
  | WWorkDir v => Meta.mk (Meta.id m) (Meta.binaryPath m) (Meta.configPath m)
               v (Meta.args m) (Meta.env m) (Meta.state m) (Meta.logBuffer m)
  | WArgs l => Meta.mk (Meta.id m) (Meta.binaryPath m) (Meta.configPath m)
               (Meta.workDir m) l (Meta.env m) (Meta.state m)
               (Meta.logBuffer m)
  | WEnv l => Meta.mk (Meta.id m) (Meta.binaryPath m) (Meta.configPath m)
               (Meta.workDir m) (Meta.args m) l (Meta.state m)
               (Meta.logBuffer m)
  | WState l => Meta.set_state l m
  | WLogBuffer l => Meta.mk (Meta.id m) (Meta.binaryPath m)
               (Meta.configPath m) (Meta.workDir m) (Meta.args m)
               (Meta.env m) (Meta.state m) l
  end.

Inductive Mutation :=
  | Assign (w : FieldWrite)
  | ArgsPush (x : string)
  | EnvSet (k : string) (v : json)
  | StateSet (st : ManagedProcessState)
  | LogPush (line : string).

(** [p.f = v], [p.args.push(x)], [p.env[k] = v], overwriting the fields
    of [p.state] in place, and [p.logBuffer.push(line)]. *)
Definition mutate (p : loc) (mu : Mutation) (s : State) : State :=
  match metas s !! p with
  | None => s
  | Some m =>
      match mu with
      | Assign w => set_metas (<[p := write_field w m]> (metas s)) s
      | ArgsPush x =>
          set_arrays (alter (fun a => a ++ [x]) (Meta.args m) (arrays s)) s
      | EnvSet k v =>
          set_envs (alter (fun e => <[k := v]> e) (Meta.env m) (envs s)) s
      | StateSet st =>
          set_states (alter (fun _ => st) (Meta.state m) (states s)) s
      | LogPush line =>
          set_buffers
            (alter (RingBuffer.push line) (Meta.logBuffer m) (buffers s)) s
      end
  end.

End Caller.

(** ** Observing the registry

    A record with every reference followed: what an inspection of the
    supervisor's internal state can tell. *)
Record Snapshot := mkSnapshot {
  snap_meta : Meta.t;
  snap_args : option (list string);
  snap_env : option (gmap string json);
  snap_state : option ManagedProcessState;
  snap_log : option RingBuffer.t
}.

Definition deref (p : loc) (s : State) : option Snapshot :=
  match metas s !! p with
  | Some m =>
      Some (mkSnapshot m (arrays s !! Meta.args m) (envs s !! Meta.env m)
              (states s !! Meta.state m) (buffers s !! Meta.logBuffer m))
  | None => None
  end.

Definition registry_view (s : State) : list (string * loc * option Snapshot) :=
  map (fun e => (fst e, snd e, deref (snd e) s)) (processes s).

(** Every reference held by the map names a record object. *)
Definition registry_allocated (s : State) : Prop :=
  Forall (fun e => is_Some (metas s !! snd e)) (processes s).

(** ** The supervisor as a transition system

    A call of [create], a call of [stop] that returns, a call of [stop]
    that never returns (it has sent its SIGTERM; what happens while it
    polls are events and time, below), a call of [list], an event, and
    the passing of time. *)
Inductive step (h : Host) : State -> State -> Prop :=
  | step_create input sched s r s' sched' :
      FrpsManager.create h input sched s = (r, s', sched') ->
      step h s s'
  | step_stop id options sched s r s' sched' :
      FrpsManager.stop id options sched s = Some (r, s', sched') ->
      step h s s'
  | step_stop_pending id options sched s p pid startedAt :
      FrpsManager.stop id options sched s = None ->
      FrpsManager.get id s = Some p ->
      state_of p s = Some (running pid startedAt) ->
      step h s (FrpsManager.kill pid SIGTERM s)
  | step_list s snaps s' :
      FrpsManager.list s = (snaps, s') ->
      step h s s'
  | step_fire e s :
      step h s (fire e s)
  | step_time dt s :
      step h s (set_clock (clock s + Z.of_nat dt)%Z s).

(** ** A concrete host, for running the model *)
Module Demo.

Definition host : Host :=
  mkHost "/srv/runtime"
    (fun a b => String.app a (String.app "/" b))
    (fun name => if String.eqb name "frps" then Some "/usr/bin/frps" else None)
    ∅
    (fun n => String.app "uuid-" (pretty n))
    (fun _ => "")
    (fun _ => true)
    (fun _ => true)
    (fun n _ _ => Some (1000 + Z.of_nat n)%Z).

Definition ToNumber (v : json) : Js.number :=
  match v with
  | JNum n => n
  | _ => Js.NaN
  end.

Definition input (id : string) (replace : bool) : CreateInput.t :=
  CreateInput.mk (Some id) None (Some "bindPort = 7000") None None None None
    (Some replace).

(** The state after a first [create] of id ["a"] on the initial state. *)
Definition after_first : Result loc * State * list Tick :=
  FrpsManager.create host (input "a" false) [] initial.

End Demo.

(** ** Vocabulary of the properties *)

(** What the buffer holds after the pushes [lines] on a new buffer of
    capacity [c]. *)
Definition ring_inv (c : nat) (lines : list string) (rb : RingBuffer.t)
  : Prop :=
  RingBuffer.capacity rb = c /\
  length (RingBuffer.buffer rb) = c /\
  RingBuffer.index rb < c /\
  if RingBuffer.filled rb
  then c <= length lines /\
       drop (RingBuffer.index rb) (RingBuffer.buffer rb) ++
       take (RingBuffer.index rb) (RingBuffer.buffer rb)
       = Some <$> drop (length lines - c) lines
  else RingBuffer.index rb = length lines /\
       take (RingBuffer.index rb) (RingBuffer.buffer rb) = Some <$> lines.

(** A limit that is zero, negative or not a number. *)
Definition not_positive (l : Js.number) : Prop :=
  l = Js.NaN \/ l = Js.NegInfinity \/ exists q, l = Js.Fin q /\ (q <= 0)%Q.

(** Handing a list of lines to a sink, first to last. *)
Definition emit {S} (onLine : string -> S -> S) (lines : list string)
    (sink : S) : S :=
  foldl (fun acc line => onLine line acc) sink lines.

(** Segments put back together, a line feed after each, then the rest. *)
Definition join_LF (segs : list string) (rest : string) : string :=
  foldr (fun seg acc => String.app seg (String LineSplitter.LF acc)) rest segs.

(** A state object either stays what it was or has become [exited]. *)
Definition state_le (st st' : ManagedProcessState) : Prop :=
  st' = st \/ is_exited st' = true.

(** [quiet s s']: between [s] and [s'] the map, the signal log and the
    spawn log are the same, no record object appeared, record objects
    changed at most in their [state] field, and states only moved toward
    [exited]. *)
Definition quiet (s s' : State) : Prop :=
  processes s' = processes s /\
  signals s' = signals s /\
  spawned s' = spawned s /\
  (forall p m, metas s !! p = Some m ->
               exists l, metas s' !! p = Some (Meta.set_state l m)) /\
  (forall p, metas s !! p = None -> metas s' !! p = None) /\
  (forall p st, state_of p s = Some st ->
                exists st', state_of p s' = Some st' /\ state_le st st').

Definition same_fs (s s' : State) : Prop :=
  dirs s' = dirs s /\ files s' = files s.

(** Every id of the map leads to a record with a state. *)
Definition registry_sound (s : State) : Prop :=
  Forall (fun e => is_Some (state_of (snd e) s)) (processes s).

(** The part of [quiet] that every operation of the supervisor keeps. *)
Definition monotone (s s' : State) : Prop :=
  (forall p m, metas s !! p = Some m ->
               exists l, metas s' !! p = Some (Meta.set_state l m)) /\
  (forall p st, state_of p s = Some st ->
                exists st', state_of p s' = Some st' /\ state_le st st').

(** The working directory and the config file that [create] derives from
    the id. *)
Definition workDir_of (h : Host) (id : string) : string :=
  path_join h (runtimeRoot h) (String.app "frps-" id).

Definition configPath_of (h : Host) (id : string) : string :=
  path_join h (workDir_of h id) "frps.toml".

(** The locator that [create] resolves, and its failure to resolve. *)
Definition locator (input : CreateInput.t) : string :=
  default "frps" (CreateInput.binaryPath input).

Definition has_separator (binaryPath : string) : bool :=
  FrpsManager.includes FrpsManager.slash binaryPath ||
  FrpsManager.includes FrpsManager.backslash binaryPath.

(** A locator with a path separator resolves when that exact path exists;
    a bare name resolves when the host's executable search finds it. *)
Definition resolves (h : Host) (binaryPath : string) (s : State) : bool :=
  if has_separator binaryPath
  then FrpsManager.path_exists binaryPath s
  else match which h binaryPath with Some _ => true | None => false end.

Definition not_found_message (binaryPath : string) : string :=
  if has_separator binaryPath
  then String.app "binary not found at path: " binaryPath
  else String.app "binary not found in PATH: " binaryPath.

(** The host lets [create] through once the binary is resolved. *)
Definition cooperative (h : Host) (input : CreateInput.t) (id : string)
  : Prop :=
  mkdir_ok h (workDir_of h id) = true /\
  writeFile_ok h (configPath_of h id) = true /\
  (forall n args, is_Some (spawn_pid h n (locator input) args)) /\
  exists rb, RingBuffer.new
               (default (Js.of_Z 1000) (CreateInput.logLines input)) = Ok rb.

(** The record that a successful [create] installs under [id]. *)
Definition installed (h : Host) (id : string) (s s' : State) (p' : loc)
  : Prop :=
  metas s !! p' = None /\
  FrpsManager.get id s' = Some p' /\
  (exists pid', state_of p' s' = Some (running pid' (clock s'))) /\
  exists m', metas s' !! p' = Some m' /\ Meta.id m' = id /\
             Meta.workDir m' = workDir_of h id /\
             Meta.configPath m' = configPath_of h id.

(** The id under which [create] works. *)
Definition id_of (h : Host) (input : CreateInput.t) (s : State) : string :=
  default (randomUUID h (uuids s)) (CreateInput.id input).

Definition conflict_message (id : string) : string :=
  String.app "frps with id " (String.app id " already exists").

(** [s'] differs from [s] at most in the store of record objects. *)
Definition same_but_metas (s s' : State) : Prop :=
  s' = set_metas (metas s') s.


(** ** More concrete states, for running the model *)
Module DemoStates.

(** After the first [create] of id ["a"]. *)
Definition s1 : State := snd (fst Demo.after_first).

(** After the child of that record has exited with code 0. *)
Definition s1_exited : State := fire (ChildExit 0 (Some 0%Z)) s1.

(** A request for id ["a"] with a locator that resolves to nothing. *)
Definition missing_binary (replace : bool) : CreateInput.t :=
  CreateInput.mk (Some "a") (Some "no-such-binary") (Some "bindPort = 7000")
    None None None None (Some replace).

(** What [list()] returns on [s1], and the state it leaves. *)
Definition listed : list loc * State := FrpsManager.list s1.

End DemoStates.

(** ** More of the program, and the vocabulary of its properties *)

(** [lines] written out with the terminator [eol] after each. *)
Definition terminated (eol : string) (lines : list string) : string :=
  foldr (fun line acc => String.app line (String.app eol acc)) EmptyString
    lines.

Fixpoint last_char (s : string) : option ascii :=
  match s with
  | EmptyString => None
  | String a EmptyString => Some a
  | String _ r => last_char r
  end.

Definition LF_free (s : string) : Prop :=
  LineSplitter.indexOf LineSplitter.LF s = None.

Definition CRLF : string :=
  String LineSplitter.CR (String LineSplitter.LF EmptyString).

(** What the contract says of one emitted line: [line] is the segment
    [seg] without its one trailing carriage return, when it has one, and
    [seg] itself otherwise. *)
Definition stripped (seg line : string) : Prop :=
  seg = String.app line (String LineSplitter.CR EmptyString) \/
  (seg = line /\ last_char seg <> Some LineSplitter.CR).

(** The unterminated remainder as the last line: emitted when it is not
    empty. *)
Definition last_line (rest : string) : list string :=
  match rest with
  | EmptyString => []
  | _ => [rest]
  end.

(** The options [stop] works with, after its defaults. *)
Definition force_of (options : option StopOptions) : bool :=
  default false (options ≫= force).

Definition timeout_of (options : option StopOptions) : Js.number :=
  default (Js.of_Z 3000) (options ≫= timeoutMs).

(** The state in which [create] goes on once it has its id: a generated
    id uses up one draw of the host's generator. *)
Definition id_drawn (input : CreateInput.t) (s : State) : State :=
  match CreateInput.id input with
  | Some _ => s
  | None => set_uuids (S (uuids s)) s
  end.

(** What [create] writes, passes and merges. *)
Definition config_text (h : Host) (input : CreateInput.t) : string :=
  match CreateInput.configToml input with
  | Some (String a r) => String a r
  | _ => generateToml h
           (match CreateInput.config input with
            | Some JNull | None => JObj []
            | Some c => c
            end)
  end.

Definition args_of (h : Host) (input : CreateInput.t) (id : string)
  : list string :=
  match CreateInput.args input with
  | Some (a :: rest) => a :: rest
  | _ => ["-c"; configPath_of h id]
  end.

Definition env_of (h : Host) (input : CreateInput.t) : gmap string json :=
  FrpsManager.spread (CreateInput.env input) ∪ process_env h.

(** The layout that [create] gives a record held under [fst e]: its id is
    its key, its working directory and config file are the ones derived
    from the id, and both exist on the host. *)
Definition record_laid_out (h : Host) (s : State) (e : string * loc) : Prop :=
  exists m,
    metas s !! snd e = Some m /\
    Meta.id m = fst e /\
    Meta.workDir m = workDir_of h (fst e) /\
    Meta.configPath m = configPath_of h (fst e) /\
    workDir_of h (fst e) ∈ dirs s /\
    is_Some (files s !! configPath_of h (fst e)).

(** Nothing that existed on the host has gone. *)
Definition fs_grows (s s' : State) : Prop :=
  dirs s ⊆ dirs s' /\
  forall k, is_Some (files s !! k) -> is_Some (files s' !! k).

(** ** Bearer authentication

    [requireAuth(req, apiSecret)] of the supervisor's server.  [get] is
    [req.headers.get]; header values and the secret are strings of 8-bit
    code units. *)
Module Auth.

(** The white space that [trim] removes, among 8-bit code units: tab,
    line feed, vertical tab, form feed, carriage return, space and the
    no-break space. *)
Definition is_space (a : ascii) : bool :=
  let n := Ascii.nat_of_ascii a in
  (9 <=? n) && (n <=? 13) || (n =? 32) || (n =? 160).

Fixpoint trim_start (s : string) : string :=
  match s with
  | EmptyString => EmptyString
  | String a r => if is_space a then trim_start r else s
  end.

Fixpoint trim_end (s : string) : string :=
  match s with
  | EmptyString => EmptyString
  | String a r =>
      match trim_end r with
      | EmptyString => if is_space a then EmptyString else String a EmptyString
      | r' => String a r'
      end
  end.

(** [s.trim()]. *)
Definition trim (s : string) : string := trim_end (trim_start s).

(** [s.startsWith(p)]. *)
Fixpoint startsWith (p s : string) : bool :=
  match p, s with
  | EmptyString, _ => true
  | String a p', String b s' => Ascii.eqb a b && startsWith p' s'
  | String _ _, EmptyString => false
  end.

(** [a || b] on header values: the first when it is there and not empty. *)
Definition or_else (a b : option string) : option string :=
  match a with
  | Some (String _ _) => a
  | _ => b
  end.

Definition requireAuth (get : string -> option string) (apiSecret : string)
  : Result unit :=
  let auth := or_else (get "authorization") (get "Authorization") in
  match auth with
  | Some (String a r) =>
      if startsWith "Bearer " (String a r)
      then
        let token := trim (LineSplitter.slice_from 7 (String a r)) in
        if String.eqb token apiSecret then Ok tt
        else Throw (HttpError 403 "invalid token")
      else Throw (HttpError 401 "missing bearer token")
  | _ => Throw (HttpError 401 "missing bearer token")
  end.

(** [s.charCodeAt(i)] as an operand of a bit operation: the code unit,
    or 0 past the end (NaN becomes 0 there). *)
Definition charCodeAt (s : string) (i : nat) : Z :=
  match String.get i s with
  | Some a => Z.of_nat (Ascii.nat_of_ascii a)
  | None => 0%Z
  end.

(** The loop [for (let i = 0; i < a.length; i++) result |= ...] of
    [timingSafeEqual], with [n] iterations left.  Code units are below
    2^16, so the 32-bit operations never wrap. *)
Fixpoint or_of_xors (a b : string) (i n : nat) (result : Z) : Z :=
  match n with
  | 0 => result
  | S n' =>
      or_of_xors a b (S i) n'
        (Z.lor result (Z.lxor (charCodeAt a i) (charCodeAt b i)))
  end.

(** [timingSafeEqual(a, b)] of the proxy manager. *)
Definition timingSafeEqual (a b : string) : bool :=
  if negb (String.length a =? String.length b) then false
  else Z.eqb (or_of_xors a b 0 (String.length a) 0) 0.

(** [requireAuth] of the proxy manager: the same, with the token compared
    by [timingSafeEqual]. *)
Definition requireAuth_timingSafe (get : string -> option string)
    (apiSecret : string) : Result unit :=
  let auth := or_else (get "authorization") (get "Authorization") in
  match auth with
  | Some (String a r) =>
      if startsWith "Bearer " (String a r)
      then
        let token := trim (LineSplitter.slice_from 7 (String a r)) in
        if timingSafeEqual token apiSecret then Ok tt
        else Throw (HttpError 403 "invalid token")
      else Throw (HttpError 401 "missing bearer token")
  | _ => Throw (HttpError 401 "missing bearer token")
  end.

End Auth.

(** A string that [trim] leaves as it is: no white space at either end. *)
Definition tight (s : string) : Prop := Auth.trim s = s.

(** A string of white space only. *)
Definition blank (s : string) : Prop := Auth.trim_start s = EmptyString.

(** ** Reading the logs

    The part of the [GET /frps/:id/logs] handler between the query
    parameter [n] and the lines: [StringToNumber] is [Number] on a
    string. *)
Section Logs.

Variable StringToNumber : string -> Js.number.

Definition logs_limit (n : option string) : option Js.number :=
  match n with
  | Some (String a r) =>
      Some (Js.Math_max (Js.of_Z 1)
              (Js.Math_min (Js.of_Z 10000) (StringToNumber (String a r))))
  | _ => None
  end.

Definition read_logs (n : option string) (rb : RingBuffer.t)
  : list (option string) :=
  RingBuffer.toArray (logs_limit n) rb.

End Logs.

(** ** The configuration renderer

    [generateToml] and [tomlValue].  [stringify] is [JSON.stringify] on a
    string and [show_number] is [String] on a number.  The fields of a
    [JObj] are the own properties of the object in the order in which
    [Object.entries] lists them. *)
Section Toml.

Variable stringify : string -> string.
Variable show_number : Js.number -> string.

(** [parts.join(sep)]. *)
Definition join (sep : string) (parts : list string) : string :=
  match parts with
  | [] => EmptyString
  | p :: ps => foldl (fun acc x => String.app acc (String.app sep x)) p ps
  end.

Fixpoint tomlValue (v : json) : string :=
  match v with
  | JStr s => stringify s
  | JNum n => show_number n
  | JBool b => if b then "true" else "false"
  | JArr items =>
      String.app "[" (String.app (join ", " (map tomlValue items)) "]")
  | JObj fields =>
      String.app "{ "
        (String.app
           (join ", "
              (map (fun kv =>
                      match kv with
                      | (k, x) => String.app k (String.app " = " (tomlValue x))
                      end) fields))
           " }")
  | JNull => "null"
  end.

(** [Object.entries(v)] for an object, an array or a string. *)
Definition Object_entries (v : json) : list (string * json) :=
  match v with
  | JObj fields => fields
  | JArr items => imap (fun i x => (pretty i, x)) items
  | JStr s =>
      imap (fun i c => (pretty i, JStr (String c EmptyString)))
        (list_ascii_of_string s)
  | _ => []
  end.

(** [value && typeof value === "object" && !Array.isArray(value)]. *)
Definition is_table (v : json) : bool :=
  match v with
  | JObj _ => true
  | _ => false
  end.

Definition entry_line (kv : string * json) : string :=
  String.app (fst kv) (String.app " = " (tomlValue (snd kv))).

(** [obj[k] = v] on a plain object with the own properties [fields]. *)
Fixpoint obj_set (k : string) (v : json) (fields : list (string * json))
  : list (string * json) :=
  match fields with
  | [] => [(k, v)]
  | (k', v') :: rest =>
      if String.eqb k' k then (k, v) :: rest else (k', v') :: obj_set k v rest
  end.

(** The body of the first loop: tables on one side, everything else on
    the other.  [tables] is a plain object: assigning an object to its
    [__proto__] sets its prototype and adds no property. *)
Definition classify (acc : list (string * json) * list (string * json))
    (kv : string * json) : list (string * json) * list (string * json) :=
  if is_table (snd kv)
  then if String.eqb (fst kv) "__proto__" then acc
       else (fst acc, obj_set (fst kv) (snd kv) (snd acc))
  else (fst acc ++ [kv], snd acc).

Definition push_entry (lines : list string) (kv : string * json)
  : list string :=
  lines ++ [entry_line kv].

(** The body of the loop over the tables. *)
Definition push_table (lines : list string) (tbl : string * json)
  : list string :=
  foldl push_entry
    ((lines ++ [EmptyString]) ++
     [String.app "[" (String.app (fst tbl) "]")])
    (Object_entries (snd tbl)).

Definition generateToml_lines (config : json) : list string :=
  let sorted := foldl classify ([], []) (Object_entries config) in
  foldl push_table (foldl push_entry [] (fst sorted)) (snd sorted).

(** [Object.entries(null)] is a TypeError. *)
Definition generateToml_source (config : json) : Result string :=
  match config with
  | JNull => Throw TypeError
  | _ =>
      Ok (String.app (join (String LineSplitter.LF EmptyString)
                        (generateToml_lines config))
            (String LineSplitter.LF EmptyString))
  end.

(** The block that a table contributes. *)
Definition table_block (tbl : string * json) : list string :=
  EmptyString :: String.app "[" (String.app (fst tbl) "]")
  :: map entry_line (Object_entries (snd tbl)).

End Toml.

(** The two sides of the first loop of [generateToml]. *)
Definition flat_entry (kv : string * json) : bool := negb (is_table (snd kv)).
Definition table_entry (kv : string * json) : bool :=
  is_table (snd kv) && negb (String.eqb (fst kv) "__proto__").

(** ** The proxy manager: request bodies and routes *)
Module Caddy.

Record CreateProxyBody := mkBody {
  id : option string;
  server : string;
  hosts : list string;
  upstreams : list string;
  terminal : option bool
}.

(** [items.every((h) => typeof h === "string" && h)], with the strings. *)
Fixpoint nonempty_strings_of (items : list json) : option (list string) :=
  match items with
  | [] => Some []
  | JStr (String a r) :: rest => cons (String a r) <$> nonempty_strings_of rest
  | _ :: _ => None
  end.

Definition validateCreateProxyBody (body : json) : Result CreateProxyBody :=
  if negb (Json.truthy body) || negb (Json.is_object body)
  then bad_request "body must be object"
  else
    id <- validate_string "id" "id must be non-empty string" body ;;
    server <- match Json.prop "server" body with
              | Some (JStr (String a r)) => Ok (String a r)
              | _ => bad_request "server must be non-empty string"
              end ;;
    hosts <- match Json.prop "hosts" body with
             | Some (JArr items) =>
                 match nonempty_strings_of items with
                 | Some l => Ok l
                 | None => bad_request "hosts must be non-empty string[]"
                 end
             | Some (JStr (String a r)) => Ok [String a r]
             | _ => bad_request "hosts must be string or string[]"
             end ;;
    upstreams <- match Json.prop "upstreams" body with
                 | Some (JArr (x :: items)) =>
                     match nonempty_strings_of (x :: items) with
                     | Some l => Ok l
                     | None => bad_request "upstreams must be non-empty string[]"
                     end
                 | _ => bad_request "upstreams must be non-empty string[]"
                 end ;;
    Ok {| id := id; server := server; hosts := hosts;
          upstreams := upstreams;
          terminal := Some (match Json.prop "terminal" body with
                            | Some v => Json.truthy v
                            | None => true
                            end) |}.

(** The route that [createReverseProxy] posts; [uuid] is what
    [crypto.randomUUID()] returns. *)
Definition route_of (uuid : string) (input : CreateProxyBody) : json :=
  JObj
    [("@id", JStr (default (String.app "rp-" uuid) (id input)));
     ("match", JArr [JObj [("host", JArr (map JStr (hosts input)))]]);
     ("handle",
      JArr [JObj [("handler", JStr "reverse_proxy");
                  ("upstreams",
                   JArr (map (fun dial => JObj [("dial", JStr dial)])
                           (upstreams input)))]]);
     ("terminal", JBool (default true (terminal input)))].

Record Item := mkItem {
  item_id : option json;
  item_server : string;
  item_hosts : option (list json);
  item_upstreams : option (list string);
  item_route : json
}.

(** [v.k]: reading a property of [null] is a TypeError. *)
Definition prop_of (k : string) (v : json) : Result (option json) :=
  match v with
  | JNull => Throw TypeError
  | _ => Ok (Json.prop k v)
  end.

(** [Array.isArray(x) ? x : otherwise]. *)
Definition as_array (x : option json) : option (list json) :=
  match x with
  | Some (JArr items) => Some items
  | _ => None
  end.

(** [match.flatMap((m) => Array.isArray(m.host) ? m.host : [])]. *)
Fixpoint hosts_of_match (ms : list json) : Result (list json) :=
  match ms with
  | [] => Ok []
  | m :: rest =>
      host <- prop_of "host" m ;;
      more <- hosts_of_match rest ;;
      Ok (default [] (as_array host) ++ more)
  end.

(** [typeof u?.dial === "string" ? u.dial : undefined], kept when it is
    a string. *)
Definition dial_of (u : json) : option string :=
  match Json.prop "dial" u with
  | Some (JStr d) => Some d
  | _ => None
  end.

(** The body of the loop over the handlers of one route. *)
Definition item_of_handler (serverName : string) (route h : json)
  : Result (list Item) :=
  if Json.truthy h &&
     match Json.prop "handler" h with
     | Some (JStr kind) => String.eqb kind "reverse_proxy"
     | _ => false
     end
  then
    hosts <- match as_array (Json.prop "match" route) with
             | Some ms => l <- hosts_of_match ms ;; Ok (Some l)
             | None => Ok None
             end ;;
    Ok [mkItem (Json.prop "@id" route) serverName hosts
          (option_map (omap (M:=list) dial_of)
             (as_array (Json.prop "upstreams" h))) route]
  else Ok [].

Fixpoint collect {A} (f : A -> Result (list Item)) (l : list A)
  : Result (list Item) :=
  match l with
  | [] => Ok []
  | x :: rest =>
      here <- f x ;;
      more <- collect f rest ;;
      Ok (here ++ more)
  end.

Definition items_of_route (serverName : string) (route : json)
  : Result (list Item) :=
  handle <- prop_of "handle" route ;;
  collect (item_of_handler serverName route) (default [] (as_array handle)).

Definition items_of_server (targetServer : option string)
    (entry : string * json) : Result (list Item) :=
  match targetServer with
  | Some (String a r) =>
      if negb (String.eqb (fst entry) (String a r)) then Ok []
      else
        routes <- prop_of "routes" (snd entry) ;;
        collect (items_of_route (fst entry)) (default [] (as_array routes))
  | _ =>
      routes <- prop_of "routes" (snd entry) ;;
      collect (items_of_route (fst entry)) (default [] (as_array routes))
  end.

(** [listReverseProxies], from the servers that [getHttpServers] read. *)
Definition listReverseProxies (targetServer : option string) (servers : json)
  : Result (list Item) :=
  match servers with
  | JNull => Throw TypeError
  | _ => collect (items_of_server targetServer) (Object_entries servers)
  end.

End Caddy.

(** ** More hosts, requests and states, for running the model *)
Module DemoMore.

(** The demo host, except that it refuses to start a process. *)
Definition refusing : Host :=
  mkHost (runtimeRoot Demo.host) (path_join Demo.host) (which Demo.host)
    (process_env Demo.host) (randomUUID Demo.host) (generateToml Demo.host)
    (mkdir_ok Demo.host) (writeFile_ok Demo.host) (fun _ _ _ => None).

(** A request for id ["b"] whose [logLines] is 10.5. *)
Definition fractional : CreateInput.t :=
  CreateInput.mk (Some "b") None (Some "bindPort = 7000") None None None
    (Some (Js.Fin (21 # 2))) None.

(** The replacement of the record of [DemoStates.s1] while its process
    ignores SIGTERM and nothing else happens, and the state it leaves. *)
Definition replaced : Result loc * State * list Tick :=
  FrpsManager.create Demo.host (Demo.input "a" true) [] DemoStates.s1.

Definition s1_replaced : State := snd (fst replaced).


(** After the process of the new record has exited with code 1 (it
    could not start: the replaced process was still holding on), and
    after the exit of the replaced process, killed, is notified half a
    second later. *)
Definition s1_new_exited : State := fire (ChildExit 1 (Some 1%Z)) s1_replaced.

Definition s1_old_exit_late : State :=
  fire (ChildExit 0 (Some 137%Z))
    (set_clock (clock s1_new_exited + Z.of_nat 500)%Z s1_new_exited).

(** The child and the log buffer of the record of [DemoStates.s1]. *)
Definition s1_child : Child :=
  mkChild 1000 "a" 0 1 false (Some EmptyString) (Some EmptyString).

Definition s1_log : RingBuffer.t :=
  RingBuffer.mk 1000 (replicate 1000 None) 0 false.

(** A request body, and what the validator makes of it. *)
Definition body : json :=
  JObj [("id", JStr "a"); ("configToml", JStr "bindPort = 7000");
        ("logLines", JNum (Js.Fin (25 # 2)))].

Definition validated : CreateInput.t :=
  CreateInput.mk (Some "a") None (Some "bindPort = 7000") None None None
    (Some (Js.Fin 12)) None.

(** [Number] on the decimal strings that the demo uses. *)
Definition StringToNumber (s : string) : Js.number :=
  if String.eqb s "0" then Js.of_Z 0
  else if String.eqb s "2" then Js.of_Z 2
  else Js.NaN.

(** A configuration with a table before a plain entry. *)
Definition tables : list (string * json) :=
  [("webServer", JObj [("port", JNum (Js.of_Z 7500))])].

Definition flat : list (string * json) :=
  [("bindPort", JNum (Js.of_Z 7000)); ("tls", JBool true)].

(** [String] on the integers that the demo uses, and [JSON.stringify]
    on strings that need no escaping. *)
Definition show_number (n : Js.number) : string :=
  match n with
  | Js.Fin q => pretty (Qnum q)
  | _ => "NaN"
  end.

Definition stringify (s : string) : string :=
  String (Ascii.ascii_of_nat 34)
    (String.app s (String (Ascii.ascii_of_nat 34) EmptyString)).

(** A proxy request body, the request it validates to, and a server
    configuration before and after the request's route is appended. *)
Definition proxy_body : json :=
  JObj [("server", JStr "srv0"); ("hosts", JStr "example.org");
        ("upstreams", JArr [JStr "127.0.0.1:8080"])].

Definition proxy : Caddy.CreateProxyBody :=
  Caddy.mkBody None "srv0" ["example.org"] ["127.0.0.1:8080"] (Some true).

Definition srv0_before : json :=
  JObj [("listen", JArr [JStr ":443"]); ("routes", JArr [])].

Definition srv0_after : json :=
  JObj [("listen", JArr [JStr ":443"]);
        ("routes", JArr [Caddy.route_of "uuid-0" proxy])].

End DemoMore.

(** * Properties of the ring buffer *)
Section RingBufferFacts.

Import RingBuffer.

Lemma clamp_range (capacity : Js.number) (q : Q) :
  clamp capacity = Js.Fin q -> (10 <= Js.trunc q <= 10000)%Z.
Proof.
  assert (Hq : forall x : Q, (10 <= x)%Q -> (x <= 10000)%Q ->
                        (10 <= Js.trunc x <= 10000)%Z).
  { intros [n d] H1 H2. unfold Qle in *. simpl in *. unfold Js.trunc. simpl.
    split.
    - apply Z.quot_le_lower_bound; lia.
    - apply Z.quot_le_upper_bound; lia. }
  unfold clamp, Js.Math_max, Js.Math_min, Js.of_Z.
  destruct capacity as [| |x|]; simpl; try discriminate.
  - intros [= <-]. vm_compute. split; discriminate.
  - destruct (Qle_bool x (inject_Z 10000)) eqn:E1; simpl.
    + destruct (Qle_bool x (inject_Z 10)) eqn:E2; simpl; intros [= <-].
      * vm_compute. split; discriminate.
      * apply Hq.
        -- destruct (Qlt_le_dec x 10) as [Hlt|Hle]; [|exact Hle].
           apply Qlt_le_weak in Hlt. apply Qle_bool_iff in Hlt.
           change (inject_Z 10) with 10%Q in E2. congruence.
        -- apply Qle_bool_iff in E1. exact E1.
    + change (Qle_bool (inject_Z 10000) (inject_Z 10)) with false. simpl.
      intros [= <-]. vm_compute. split; discriminate.
  - change (Qle_bool (inject_Z 10000) (inject_Z 10)) with false. simpl.
    intros [= <-]. vm_compute. split; discriminate.
Qed.

Lemma new_inv (cap : Js.number) (rb : t) :
  new cap = Ok rb ->
  (10 <= Z.of_nat (capacity rb) <= 10000)%Z /\ ring_inv (capacity rb) [] rb.
Proof.
  unfold new. destruct (clamp cap) as [| |q|] eqn:Hc; try discriminate.
  destruct (Js.is_integer q && (0 <=? Js.trunc q)%Z); [|discriminate].
  intros [= <-]. simpl. apply clamp_range in Hc.
  split; [lia|]. unfold ring_inv; simpl.
  rewrite length_replicate. repeat split; lia.
Qed.

Lemma push_inv (c : nat) (lines : list string) (x : string) (rb : t) :
  0 < c -> ring_inv c lines rb -> ring_inv c (lines ++ [x]) (push x rb).
Proof.
  intros Hc (Hcap & Hlen & Hidx & Hdata).
  destruct rb as [cap buf idx fl]; simpl in *. subst cap.
  destruct (lookup_lt_is_Some_2 buf idx ltac:(lia)) as [b Hb].
  pose proof (take_drop_middle buf idx b Hb) as Hsplit.
  set (A := take idx buf) in *. set (B := drop (S idx) buf) in *.
  assert (HA : length A = idx) by (unfold A; rewrite length_take; lia).
  assert (Hset : Js.array_set buf idx x = A ++ Some x :: B).
  { unfold Js.array_set. rewrite decide_True by lia.
    rewrite <- Hsplit at 1. rewrite <- HA at 1.
    rewrite insert_app_r_alt by lia. rewrite Nat.sub_diag. reflexivity. }
  assert (HB : length B = c - S idx) by (unfold B; rewrite length_drop; lia).
  unfold ring_inv, push; simpl. rewrite Hset.
  rewrite !length_app; simpl.
  assert (Hdrop : drop idx buf = b :: B).
  { rewrite <- Hsplit at 1. rewrite drop_app_length'; auto. }
  split; [reflexivity|]. split; [lia|].
  split; [apply Nat.mod_upper_bound; lia|].
  destruct (decide (idx + 1 = c)) as [Hwrap|Hnowrap].
  - (* the write index wraps to 0 *)
    rewrite Hwrap, Nat.Div0.mod_same. simpl.
    assert (HBnil : B = []) by (apply nil_length_inv; lia).
    clearbody A B. subst B.
    rewrite drop_0, app_nil_r.
    destruct fl.
    + destruct Hdata as [Hge Hd]. split; [lia|].
      rewrite Hdrop in Hd. simpl in Hd.
      replace (length lines + 1 - c) with (length lines - c + 1) by lia.
      rewrite <- drop_drop.
      rewrite drop_app_le by lia.
      destruct (drop (length lines - c) lines) as [|l0 L]; [discriminate|].
      injection Hd as _ ->. simpl. rewrite drop_0, fmap_app. reflexivity.
    + destruct Hdata as [Hi Ht]. split; [lia|].
      replace (length lines + 1 - c) with 0 by lia. rewrite drop_0.
      rewrite fmap_app. rewrite Ht. reflexivity.
  - assert (Hmod : (idx + 1) mod c = idx + 1) by (apply Nat.mod_small; lia).
    rewrite Hmod. rewrite decide_False by lia.
    assert (Htk : take (idx + 1) (A ++ Some x :: B) = A ++ [Some x]).
    { rewrite take_app_ge by lia. rewrite HA.
      replace (idx + 1 - idx) with 1 by lia. reflexivity. }
    assert (Hdr : drop (idx + 1) (A ++ Some x :: B) = B).
    { rewrite drop_app_ge by lia. rewrite HA.
      replace (idx + 1 - idx) with 1 by lia. reflexivity. }
    destruct fl.
    + destruct Hdata as [Hge Hd]. split; [lia|].
      rewrite Htk, Hdr. rewrite Hdrop in Hd. simpl in Hd.
      replace (length lines + 1 - c) with (length lines - c + 1) by lia.
      rewrite <- drop_drop.
      rewrite drop_app_le by lia.
      destruct (drop (length lines - c) lines) as [|l0 L]; [discriminate|].
      simpl in Hd. injection Hd as _ Hd. simpl.
      rewrite drop_0, fmap_app, app_assoc. f_equal. exact Hd.
    + destruct Hdata as [Hi Ht]. split; [lia|].
      rewrite Htk. rewrite fmap_app. rewrite Ht. reflexivity.
Qed.

Lemma pushes_inv (c : nat) (lines : list string) (rb : t) :
  0 < c -> ring_inv c [] rb -> ring_inv c lines (pushes lines rb).
Proof.
  intros Hc H0. induction lines as [|x lines IH] using rev_ind; [exact H0|].
  unfold pushes. rewrite foldl_snoc. apply push_inv; assumption.
Qed.

Lemma toArray_all_inv (c : nat) (lines : list string) (rb : t) :
  ring_inv c lines rb ->
  toArray None rb = Some <$> drop (length lines - c) lines.
Proof.
  intros (_ & _ & Hidx & Hdata). unfold toArray.
  destruct (filled rb).
  - apply Hdata.
  - destruct Hdata as [Hi Ht]. rewrite Ht.
    replace (length lines - c) with 0 by lia. reflexivity.
Qed.


Lemma last_drop_lt {A} (l : list A) (k : nat) :
  k < length l -> last (drop k l) = last l.
Proof.
  intros Hk. rewrite !last_lookup, length_drop, lookup_drop. f_equal. lia.
Qed.

(** C3: after any sequence of pushes on a new buffer, [toArray()] is the
    run of the last [capacity] pushed lines, oldest first: at most
    [capacity] entries, in the order they were pushed, ending with the most
    recently pushed line; the capacity is the constructor's argument
    clamped to 10..10000 and never changes.  With capacity 10 and the lines
    numbered 1 to 25, [toArray()] is the lines 16 to 25 in order. *)
Theorem toArray_chronological :
  (forall (requested : Js.number) (rb0 : t) (lines : list string),
      new requested = Ok rb0 ->
      let C := capacity rb0 in
      let out := toArray None (pushes lines rb0) in
      (10 <= Z.of_nat C <= 10000)%Z /\
      capacity (pushes lines rb0) = C /\
      out = Some <$> drop (length lines - C) lines /\
      length out <= C /\
      (forall x, last lines = Some x -> last out = Some (Some x))) /\
  (exists rb0, new (Js.of_Z 10) = Ok rb0 /\ capacity rb0 = 10 /\
      toArray None (pushes (pretty <$> seq 1 25) rb0)
      = (fun n => Some (pretty n)) <$> seq 16 10).
Proof.
  split.
  - intros requested rb0 lines Hnew C out.
    destruct (new_inv _ _ Hnew) as [Hrange Hinv0]. fold C in Hrange, Hinv0.
    assert (HC : 0 < C) by lia.
    pose proof (pushes_inv C lines rb0 HC Hinv0) as Hinv.
    pose proof (toArray_all_inv _ _ _ Hinv) as Hout. fold out in Hout.
    split; [exact Hrange|]. split; [apply Hinv|]. split; [exact Hout|].
    split.
    + rewrite Hout, length_fmap, length_drop. lia.
    + intros x Hx. rewrite Hout, fmap_last.
      assert (0 < length lines) by (destruct lines; [discriminate|simpl; lia]).
      rewrite last_drop_lt by lia. rewrite Hx. reflexivity.
  - eexists. split; [vm_compute; reflexivity|]. split; vm_compute; reflexivity.
Qed.

Lemma toArray_chronological_witness :
  exists rb0, new (Js.of_Z 12) = Ok rb0 /\
    toArray None (pushes ["a"; "b"] rb0) = [Some "a"; Some "b"].
Proof.
  eexists. split; [vm_compute; reflexivity|].
  refine (proj1 (proj2 (proj2
    (proj1 toArray_chronological (Js.of_Z 12) _ ["a"; "b"] _)))).
  vm_compute; reflexivity.
Defined.

Lemma trunc_sub_Z (a b : Z) :
  Js.trunc (inject_Z a - inject_Z b) = (a - b)%Z.
Proof.
  unfold Js.trunc, Qminus, Qplus, Qopp, inject_Z; simpl.
  rewrite Z.quot_1_r. lia.
Qed.

Lemma toArray_positive (rb : t) (L : nat) :
  1 <= L ->
  toArray (Some (Js.of_nat L)) rb
  = drop (length (toArray None rb) - L) (toArray None rb).
Proof.
  intros HL. unfold toArray.
  set (data := if filled rb then _ else _).
  assert (Hgt : Js.gt (Js.of_nat L) (Js.of_Z 0) = true).
  { unfold Js.gt, Js.of_nat, Js.of_Z, Qle_bool, inject_Z; simpl.
    apply negb_true_iff, Z.leb_gt. lia. }
  rewrite Hgt. unfold Js.sub, Js.of_nat, Js.of_Z, Js.Math_max, Js.gt.
  destruct (negb (Qle_bool _ _)) eqn:E; unfold Js.slice_from.
  - rewrite trunc_sub_Z.
    apply negb_true_iff in E. unfold Qle_bool, Qminus, Qplus, Qopp, inject_Z in E.
    simpl in E. apply Z.leb_gt in E.
    destruct (Z.ltb_spec (Z.of_nat (length data) - Z.of_nat L) 0); [lia|].
    f_equal. lia.
  - apply negb_false_iff in E. unfold Qle_bool, Qminus, Qplus, Qopp, inject_Z in E.
    simpl in E. apply Z.leb_le in E.
    change (Js.trunc (inject_Z 0)) with 0%Z. simpl.
    replace (length data - L) with 0 by lia. f_equal. lia.
Qed.

(** C4, as amended: for every buffer state and every limit [L] with
    [1 <= L <= ] the number of retained entries, [toArray(L)] is exactly
    the last [L] entries of [toArray()]. *)
Theorem toArray_limit_suffix (rb : t) (L : nat) :
  1 <= L -> L <= length (toArray None rb) ->
  toArray (Some (Js.of_nat L)) rb
  = drop (length (toArray None rb) - L) (toArray None rb) /\
  length (toArray (Some (Js.of_nat L)) rb) = L.
Proof.
  intros H1 H2. rewrite toArray_positive by exact H1.
  split; [reflexivity|]. rewrite length_drop. lia.
Qed.

Lemma toArray_limit_suffix_witness :
  toArray (Some (Js.of_nat 2)) (mk 10 [Some "a"; Some "b"; Some "c"] 3 false)
  = [Some "b"; Some "c"].
Proof.
  refine (proj1 (toArray_limit_suffix
    (mk 10 [Some "a"; Some "b"; Some "c"] 3 false) 2 _ _)); simpl; lia.
Defined.

(** C4 as first stated fails at the limit 0: with one retained entry,
    [toArray(0)] returns that entry rather than the last 0 entries. *)
Lemma toArray_limit_zero_counterexample :
  ~ (forall (rb : t) (L : nat),
        L <= length (toArray None rb) ->
        toArray (Some (Js.of_nat L)) rb
        = drop (length (toArray None rb) - L) (toArray None rb)).
Proof.
  intros H. specialize (H (mk 10 [Some "a"] 1 false) 0 ltac:(simpl; lia)).
  vm_compute in H. discriminate H.
Qed.

(** C10: with a limit that is zero, negative or not a number, [toArray]
    returns what it returns with no limit: all the retained entries. *)
Theorem toArray_nonpositive_limit (rb : t) (l : Js.number) :
  not_positive l -> toArray (Some l) rb = toArray None rb.
Proof.
  intros Hl. unfold toArray.
  assert (Hgt : Js.gt l (Js.of_Z 0) = false).
  { destruct Hl as [->|[->|(q & -> & Hq)]]; try reflexivity.
    unfold Js.gt, Js.of_Z. apply negb_false_iff, Qle_bool_iff. exact Hq. }
  rewrite Hgt. reflexivity.
Qed.

Lemma toArray_nonpositive_limit_witness :
  toArray (Some (Js.of_Z (-3))) (mk 10 [Some "a"; Some "b"] 2 false)
  = [Some "a"; Some "b"].
Proof.
  refine (toArray_nonpositive_limit (mk 10 [Some "a"; Some "b"] 2 false)
            (Js.of_Z (-3)) _).
  right; right. exists (inject_Z (-3)). split; [reflexivity|].
  unfold Qle; simpl; lia.
Defined.

End RingBufferFacts.

(** * Properties of the line splitter *)
Section LineSplitterFacts.

Import LineSplitter.

Lemma split_LF_no_LF (buf : string) :
  indexOf LF buf = None -> split_LF buf = ([], buf).
Proof.
  induction buf as [|a r IH]; simpl; [reflexivity|].
  destruct (Ascii.eqb a LF); [discriminate|].
  destruct (indexOf LF r); [discriminate|].
  intros _. rewrite IH by reflexivity. reflexivity.
Qed.

Lemma slice_from_0 (s : string) : slice_from 0 s = s.
Proof. destruct s; reflexivity. Qed.

Lemma split_LF_at (buf : string) (idx : nat) :
  indexOf LF buf = Some idx ->
  split_LF buf =
  (slice_to idx buf :: fst (split_LF (slice_from (idx + 1) buf)),
   snd (split_LF (slice_from (idx + 1) buf))).
Proof.
  revert idx; induction buf as [|a r IH]; intros idx; [discriminate|].
  cbn [indexOf split_LF].
  destruct (Ascii.eqb a LF) eqn:Ea.
  - intros [= <-].
    change (slice_from (0 + 1) (String a r)) with (slice_from 0 r).
    rewrite slice_from_0. destruct (split_LF r); reflexivity.
  - destruct (indexOf LF r) as [k|]; [|discriminate].
    intros [= <-]. rewrite (IH k eq_refl).
    change (slice_from (S k + 1) (String a r)) with (slice_from (k + 1) r).
    reflexivity.
Qed.

Lemma split_LF_rest_no_LF (text : string) :
  indexOf LF (snd (split_LF text)) = None.
Proof.
  induction text as [|a r IH]; simpl; [reflexivity|].
  destruct (split_LF r) as [segs rest]; simpl in *.
  destruct (Ascii.eqb a LF) eqn:Ea; simpl; [exact IH|].
  destruct segs; simpl; [|exact IH]. rewrite Ea, IH. reflexivity.
Qed.

(** Cutting a concatenation: the segments of the first part, then the
    cut of its remainder followed by the second part. *)
Lemma split_LF_app (a b : string) :
  split_LF (String.app a b) =
  (fst (split_LF a) ++ fst (split_LF (String.app (snd (split_LF a)) b)),
   snd (split_LF (String.app (snd (split_LF a)) b))).
Proof.
  induction a as [|ch r IH].
  - cbn [split_LF fst snd app].
    change (String.app EmptyString b) with b.
    destruct (split_LF b); reflexivity.
  - change (String.app (String ch r) b) with (String ch (String.app r b)).
    cbn [split_LF]. rewrite IH. destruct (split_LF r) as [sr rr].
    cbn [fst snd].
    destruct (Ascii.eqb ch LF) eqn:Ech; [reflexivity|].
    destruct sr as [|seg sr']; cbn [fst snd app].
    + change (String.app (String ch rr) b)
        with (String ch (String.app rr b)).
      cbn [split_LF]. rewrite Ech.
      destruct (split_LF (String.app rr b)) as [sb rb].
      destruct sb; reflexivity.
    + reflexivity.
Qed.

Lemma str_app_nil_r (x : string) : String.app x EmptyString = x.
Proof.
  induction x as [|a x IH]; [reflexivity|].
  change (String.app (String a x) EmptyString)
    with (String a (String.app x EmptyString)).
  rewrite IH. reflexivity.
Qed.

Lemma str_app_assoc (x y z : string) :
  String.app x (String.app y z) = String.app (String.app x y) z.
Proof.
  induction x as [|a x IH]; [reflexivity|].
  change (String.app (String a x) (String.app y z))
    with (String a (String.app x (String.app y z))).
  rewrite IH. reflexivity.
Qed.

Lemma drain_split {S} (onLine : string -> S -> S) (buf : string) (sink : S) :
  drain onLine buf sink =
  (snd (split_LF buf), emit onLine (map strip_cr (fst (split_LF buf))) sink).
Proof.
  funelim (drain onLine buf sink).
  - match goal with IH : drain _ _ _ = (_, _) |- _ => rewrite IH end.
    rewrite (split_LF_at buf idx) by assumption. reflexivity.
  - match goal with
    | E : indexOf LF buf = None |- _ => rewrite (split_LF_no_LF _ E)
    end. reflexivity.
Qed.

Lemma feed_split {S} (onLine : string -> S -> S) (chunks : list string)
    (buf : string) (sink : S) :
  indexOf LF buf = None ->
  feed onLine chunks (buf, sink) =
  (snd (split_LF (String.app buf (concat_chunks chunks))),
   emit onLine
     (map strip_cr (fst (split_LF (String.app buf (concat_chunks chunks)))))
     sink).
Proof.
  revert buf sink; induction chunks as [|c rest IH]; intros buf sink Hbuf.
  - change (concat_chunks []) with EmptyString.
    rewrite str_app_nil_r, split_LF_no_LF by assumption. reflexivity.
  - change (feed onLine (c :: rest) (buf, sink))
      with (feed onLine rest (on_chunk onLine c (buf, sink))).
    unfold on_chunk; simpl fst; simpl snd. rewrite drain_split.
    rewrite IH by apply split_LF_rest_no_LF.
    change (concat_chunks (c :: rest))
      with (String.app c (concat_chunks rest)).
    rewrite str_app_assoc, (split_LF_app (String.app buf c)). simpl.
    unfold emit. rewrite map_app, foldl_app. reflexivity.
Qed.

Lemma split_LF_join (text : string) :
  join_LF (fst (split_LF text)) (snd (split_LF text)) = text.
Proof.
  induction text as [|a r IH]; [reflexivity|].
  cbn [split_LF]. destruct (split_LF r) as [segs rest]. cbn [fst snd] in IH.
  destruct (Ascii.eqb_spec a LF) as [->|Hne].
  - cbn [fst snd join_LF foldr]. fold (join_LF segs rest). rewrite IH.
    reflexivity.
  - destruct segs as [|seg segs']; cbn [fst snd join_LF foldr] in *.
    + rewrite IH. reflexivity.
    + fold (join_LF segs' rest) in *.
      change (String.app (String a seg) (String LF (join_LF segs' rest)))
        with (String a (String.app seg (String LF (join_LF segs' rest)))).
      rewrite IH. reflexivity.
Qed.

Lemma split_LF_segs_no_LF (text : string) :
  Forall (fun seg => indexOf LF seg = None) (fst (split_LF text)).
Proof.
  induction text as [|a r IH]; [constructor|].
  cbn [split_LF]. destruct (split_LF r) as [segs rest]. cbn [fst] in IH.
  destruct (Ascii.eqb a LF) eqn:Ea; cbn [fst].
  - constructor; [reflexivity|exact IH].
  - destruct segs as [|seg segs']; [constructor|].
    inversion IH as [|? ? Hseg Hsegs]; subst. constructor; [|exact Hsegs].
    cbn [indexOf]. rewrite Ea, Hseg. reflexivity.
Qed.

Lemma str_app_cons (a : ascii) (x y : string) :
  String.app (String a x) y = String a (String.app x y).
Proof. reflexivity. Qed.

Lemma split_LF_line (l rest : string) :
  LF_free l ->
  split_LF (String.app l (String LF rest))
  = (l :: fst (split_LF rest), snd (split_LF rest)).
Proof.
  unfold LF_free. induction l as [|a r IH].
  - intros _. change (String.app EmptyString (String LF rest))
      with (String LF rest).
    cbn [split_LF]. destruct (split_LF rest). reflexivity.
  - cbn [indexOf]. destruct (Ascii.eqb a LF) eqn:Ea; [discriminate|].
    destruct (indexOf LF r) eqn:Er; [discriminate|]. intros _.
    rewrite str_app_cons. cbn [split_LF]. rewrite IH by reflexivity.
    rewrite Ea. reflexivity.
Qed.

(** A text has one decomposition only into segments free of line feeds,
    a line feed after each, and a remainder free of line feeds. *)
Lemma split_LF_of_join (segs : list string) (rest : string) :
  Forall LF_free segs -> LF_free rest ->
  split_LF (join_LF segs rest) = (segs, rest).
Proof.
  intros Hsegs Hrest. induction Hsegs as [|seg segs Hseg _ IH].
  - apply split_LF_no_LF. exact Hrest.
  - cbn [join_LF foldr]. fold (join_LF segs rest).
    rewrite split_LF_line by exact Hseg. rewrite IH. reflexivity.
Qed.

Lemma strip_cr_snoc (l : string) :
  strip_cr (String.app l (String CR EmptyString)) = l.
Proof.
  induction l as [|a r IH]; [reflexivity|].
  rewrite str_app_cons.
  destruct r as [|b r'].
  - reflexivity.
  - rewrite str_app_cons in *.
    change (strip_cr (String a (String b (String.app r' (String CR EmptyString)))))
      with (String a (strip_cr (String b (String.app r' (String CR EmptyString))))).
    rewrite IH. reflexivity.
Qed.

Lemma strip_cr_id (l : string) : last_char l <> Some CR -> strip_cr l = l.
Proof.
  induction l as [|a r IH]; [reflexivity|].
  destruct r as [|b r'].
  - cbn [last_char strip_cr]. destruct (Ascii.eqb_spec a CR) as [->|]; congruence.
  - intros H. change (strip_cr (String a (String b r')))
      with (String a (strip_cr (String b r'))).
    rewrite IH; [reflexivity|exact H].
Qed.

(** The code's [strip_cr] does what the contract says of a line, and the
    contract leaves no other choice. *)
Lemma strip_cr_stripped (seg : string) : stripped seg (strip_cr seg).
Proof.
  induction seg as [|a r IH].
  - right. split; [reflexivity|discriminate].
  - destruct r as [|b r'].
    + cbn [strip_cr]. destruct (Ascii.eqb_spec a CR) as [->|Hne].
      * left. reflexivity.
      * right. split; [reflexivity|]. cbn [last_char]. congruence.
    + change (strip_cr (String a (String b r')))
        with (String a (strip_cr (String b r'))).
      destruct IH as [E|[E Hl]].
      * left. rewrite str_app_cons, <- E. reflexivity.
      * right. split; [rewrite <- E; reflexivity|exact Hl].
Qed.

Lemma stripped_fun (seg line : string) : stripped seg line -> line = strip_cr seg.
Proof.
  intros [->|[<- H]]; symmetry; [apply strip_cr_snoc|apply strip_cr_id, H].
Qed.

Lemma stripped_lines (segs lines : list string) :
  Forall2 stripped segs lines -> lines = map strip_cr segs.
Proof.
  induction 1 as [|seg line segs lines H _ IH]; [reflexivity|].
  cbn [map]. rewrite (stripped_fun _ _ H), IH. reflexivity.
Qed.

Lemma stripped_exists (segs : list string) :
  Forall2 stripped segs (map strip_cr segs).
Proof.
  induction segs as [|seg segs IH]; constructor;
    [apply strip_cr_stripped|exact IH].
Qed.

(** C9: whatever the chunking, the text of the stream is cut at every
    line feed into segments [segs] and an unterminated remainder [rest];
    the sink receives, once each and in order, every segment without its
    one trailing carriage return (when it has one), and then the
    remainder when it is not empty (an empty remainder is not emitted).
    The text has such a decomposition, and the emitted lines are the
    ones of any such decomposition. *)
Theorem streamLines_emits_lines {S} (onLine : string -> S -> S)
    (chunks : list string) (sink : S) :
  (exists segs lines rest,
     concat_chunks chunks = join_LF segs rest /\
     Forall LF_free segs /\ LF_free rest /\ Forall2 stripped segs lines) /\
  (forall segs lines rest,
     concat_chunks chunks = join_LF segs rest ->
     Forall LF_free segs -> LF_free rest -> Forall2 stripped segs lines ->
     streamLines onLine chunks sink
     = emit onLine (lines ++ last_line rest) sink).
Proof.
  split.
  - exists (fst (split_LF (concat_chunks chunks))),
           (map strip_cr (fst (split_LF (concat_chunks chunks)))),
           (snd (split_LF (concat_chunks chunks))).
    split; [symmetry; apply split_LF_join|].
    split; [apply split_LF_segs_no_LF|].
    split; [apply split_LF_rest_no_LF|apply stripped_exists].
  - intros segs lines rest Htext Hsegs Hrest Hlines.
    unfold streamLines. rewrite feed_split by reflexivity.
    change (String.app EmptyString (concat_chunks chunks))
      with (concat_chunks chunks).
    rewrite Htext, (split_LF_of_join _ _ Hsegs Hrest).
    rewrite (stripped_lines _ _ Hlines).
    unfold on_end, emit, last_line. cbn [fst snd].
    rewrite foldl_app. destruct rest; reflexivity.
Qed.

Lemma streamLines_emits_lines_witness :
  streamLines record_line
    ["ab"; String "c" (String CR (String LF "d")); String LF "xx"] []
  = ["abc"; "d"; "xx"].
Proof.
  refine (proj2 (streamLines_emits_lines record_line
                   ["ab"; String "c" (String CR (String LF "d"));
                    String LF "xx"] [])
            [String.app "abc" (String CR EmptyString); "d"] ["abc"; "d"]
            "xx" _ _ _ _).
  - reflexivity.
  - repeat constructor.
  - reflexivity.
  - constructor; [left; reflexivity|].
    constructor; [right; split; [reflexivity|discriminate]|constructor].
Defined.

Example streamLines_three_chunks :
  streamLines record_line
    ["ab"; String "c" (String CR (String LF "d")); String LF "xx"] []
  = ["abc"; "d"; "xx"].
Proof. reflexivity. Qed.

(** The chunking does not matter: two streams with the same text emit the
    same lines. *)
Corollary streamLines_chunking {S} (onLine : string -> S -> S)
    (chunks chunks' : list string) (sink : S) :
  concat_chunks chunks = concat_chunks chunks' ->
  streamLines onLine chunks sink = streamLines onLine chunks' sink.
Proof.
  intros E. unfold streamLines. rewrite !feed_split by reflexivity.
  rewrite E. reflexivity.
Qed.

End LineSplitterFacts.

(** * Frame properties of the supervisor *)

Section SupervisorFrames.

Lemma set_state_same (m : Meta.t) : Meta.set_state (Meta.state m) m = m.
Proof. destruct m; reflexivity. Qed.

Lemma set_state_twice (l l' : loc) (m : Meta.t) :
  Meta.set_state l' (Meta.set_state l m) = Meta.set_state l' m.
Proof. destruct m; reflexivity. Qed.

Lemma state_le_refl st : state_le st st.
Proof. left; reflexivity. Qed.

Lemma state_le_trans a b c : state_le a b -> state_le b c -> state_le a c.
Proof.
  intros [->|Hb] [->|Hc]; unfold state_le; auto.
Qed.

Lemma state_le_exited st st' :
  state_le st st' -> is_exited st = true -> is_exited st' = true.
Proof. intros [->|H] He; assumption. Qed.

Lemma quiet_refl s : quiet s s.
Proof.
  repeat split; auto.
  - intros p m Hm. exists (Meta.state m). rewrite set_state_same. exact Hm.
  - intros p st Hst. exists st. split; [exact Hst | apply state_le_refl].
Qed.

Lemma quiet_trans a b c : quiet a b -> quiet b c -> quiet a c.
Proof.
  intros (P1 & S1 & W1 & M1 & N1 & T1) (P2 & S2 & W2 & M2 & N2 & T2).
  repeat split; try congruence.
  - intros p m Hm. destruct (M1 p m Hm) as [l Hl].
    destruct (M2 p _ Hl) as [l' Hl']. exists l'.
    rewrite set_state_twice in Hl'. exact Hl'.
  - intros p Hp. apply N2, N1, Hp.
  - intros p st Hst. destruct (T1 p st Hst) as (st1 & H1 & L1).
    destruct (T2 p st1 H1) as (st2 & H2 & L2).
    exists st2. split; [exact H2 | eapply state_le_trans; eassumption].
Qed.

Lemma same_fs_refl s : same_fs s s.
Proof. split; reflexivity. Qed.

Lemma same_fs_trans a b c : same_fs a b -> same_fs b c -> same_fs a c.
Proof. intros [D1 F1] [D2 F2]. split; congruence. Qed.

Lemma exit_watcher_quiet c code s : quiet s (exit_watcher c code s).
Proof.
  unfold exit_watcher.
  destruct (map_get (c_id c) (processes s)) as [prev|]; [|apply quiet_refl].
  destruct (metas s !! prev) as [m|] eqn:Hprev; [|apply quiet_refl].
  set (l := fresh (dom (states s))).
  assert (Hl : states s !! l = None).
  { apply not_elem_of_dom. apply is_fresh. }
  repeat split; simpl; auto.
  - intros p m' Hm'. destruct (decide (p = prev)) as [->|Hne].
    + rewrite lookup_insert_eq. exists l. congruence.
    + rewrite lookup_insert_ne by auto. exists (Meta.state m').
      rewrite Hm'. destruct m'; reflexivity.
  - intros p Hp. rewrite lookup_insert_ne by congruence. exact Hp.
  - intros p st. unfold state_of; simpl.
    destruct (decide (p = prev)) as [->|Hne].
    + rewrite lookup_insert_eq. simpl. rewrite lookup_insert_eq.
      intros _. eexists. split; [reflexivity | right; reflexivity].
    + rewrite lookup_insert_ne by auto.
      destruct (metas s !! p) as [m'|]; [|discriminate].
      intros Hst. exists st. split; [|apply state_le_refl].
      rewrite lookup_insert_ne; [exact Hst|].
      intros E. rewrite <- E in Hst. congruence.
Qed.

Lemma fire_quiet e s : quiet s (fire e s) /\ same_fs s (fire e s).
Proof.
  destruct e as [i code|i ch chunk|i ch]; simpl;
    destruct (children s !! i) as [c|];
    try (split; [apply quiet_refl | apply same_fs_refl]).
  - destruct (c_exitHandled c);
      [split; [apply quiet_refl | apply same_fs_refl]|].
    split.
    + eapply quiet_trans; [|apply exit_watcher_quiet].
      repeat split; auto.
      * intros p m Hm. exists (Meta.state m).
        rewrite set_state_same. exact Hm.
      * intros p st Hst. exists st. split; [exact Hst|apply state_le_refl].
    + unfold exit_watcher; simpl.
      destruct (map_get _ _); [|split; reflexivity].
      destruct (metas s !! _); split; reflexivity.
  - destruct (stream_of ch c);
      [|split; [apply quiet_refl | apply same_fs_refl]].
    split; [|split; reflexivity]. apply (quiet_refl s).
  - destruct (stream_of ch c);
      [|split; [apply quiet_refl | apply same_fs_refl]].
    split; [|split; reflexivity]. apply (quiet_refl s).
Qed.


Lemma fire_all_quiet es s : quiet s (fire_all es s) /\ same_fs s (fire_all es s).
Proof.
  revert s; induction es as [|e es IH]; intros s.
  - split; [apply quiet_refl | apply same_fs_refl].
  - change (fire_all (e :: es) s) with (fire_all es (fire e s)).
    destruct (fire_quiet e s) as [Q1 F1]. destruct (IH (fire e s)) as [Q2 F2].
    split; [eapply quiet_trans | eapply same_fs_trans]; eassumption.
Qed.

Lemma await_quiet ms sched s :
  quiet s (fst (await_ ms sched s)) /\ same_fs s (fst (await_ ms sched s)).
Proof.
  destruct sched as [|t rest]; simpl.
  - split; [apply (quiet_refl s) | split; reflexivity].
  - destruct (fire_all_quiet (events t)
                (set_clock (clock s + ms + Z.of_nat (elapsed t))%Z s))
      as [Q F].
    split.
    + eapply quiet_trans; [apply (quiet_refl s)|exact Q].
    + eapply same_fs_trans; [|exact F]. split; reflexivity.
Qed.

Lemma poll_quiet id startWait timeout sched s :
  quiet s (fst (FrpsManager.poll id startWait timeout sched s)) /\
  same_fs s (fst (FrpsManager.poll id startWait timeout sched s)).
Proof.
  funelim (FrpsManager.poll id startWait timeout sched s);
    try (split; [apply quiet_refl | apply same_fs_refl]).
  match goal with
  | IH : quiet _ _ /\ same_fs _ _ |- _ => destruct IH as [Q F]
  end.
  destruct (await_quiet 50 sched s) as [Q0 F0].
  split; [eapply quiet_trans | eapply same_fs_trans]; eassumption.
Qed.

Lemma map_get_elem id p (m : list (string * loc)) :
  map_get id m = Some p -> exists k, (k, p) ∈ m.
Proof.
  induction m as [|[k v] m IH]; simpl; [discriminate|].
  destruct (String.eqb k id).
  - intros [= ->]. exists k. apply elem_of_cons. left; reflexivity.
  - intros H. destruct (IH H) as [k' Hk']. exists k'.
    apply elem_of_cons. right; exact Hk'.
Qed.

Lemma sound_lookup id p s :
  registry_sound s -> map_get id (processes s) = Some p ->
  is_Some (state_of p s).
Proof.
  intros Hs Hp. destruct (map_get_elem _ _ _ Hp) as [k Hk].
  unfold registry_sound in Hs. rewrite Forall_forall in Hs.
  apply (Hs (k, p) Hk).
Qed.

Lemma quiet_sound s s' : quiet s s' -> registry_sound s -> registry_sound s'.
Proof.
  intros (P & _ & _ & _ & _ & T) Hs. unfold registry_sound in *. rewrite P.
  eapply Forall_impl; [exact Hs|]. intros e [st Hst].
  destruct (T _ st Hst) as (st' & H' & _). exists st'. exact H'.
Qed.

(** The end of [stop] on a record that was running when SIGTERM was
    sent: SIGKILL when forcing and the record is still running. *)
Lemma finish_spec id force_ s p pid startedAt s2 sched2 :
  FrpsManager.get id s = Some p ->
  state_of p s = Some (running pid startedAt) ->
  quiet (FrpsManager.kill pid SIGTERM s) s2 ->
  (state_of p s2 = Some (running pid startedAt) /\
   FrpsManager.finish id force_ s2 sched2
   = (Ok true, if force_ then FrpsManager.kill pid SIGKILL s2 else s2,
      sched2)) \/
  ((exists st, state_of p s2 = Some st /\ is_exited st = true) /\
   FrpsManager.finish id force_ s2 sched2 = (Ok true, s2, sched2)).
Proof.
  intros Hget Hst Q. unfold FrpsManager.finish, FrpsManager.look.
  destruct Q as (P & _ & _ & _ & _ & T).
  unfold FrpsManager.get in *. rewrite P. simpl. rewrite Hget.
  destruct (T p _ Hst) as (st' & Hst' & [->|Hex]); rewrite Hst'.
  - left. split; [reflexivity|]. destruct force_; reflexivity.
  - right. split; [eauto|]. destruct st'; [discriminate|reflexivity].
Qed.

(** What [stop] does to a running record: SIGTERM, the bounded wait, and
    SIGKILL when forcing and the record is still running. *)
Lemma stop_running id force_ timeout sched s p pid startedAt :
  FrpsManager.get id s = Some p ->
  state_of p s = Some (running pid startedAt) ->
  exists s2 sched2,
    FrpsManager.poll id (clock s) timeout sched
      (FrpsManager.kill pid SIGTERM s) = (s2, sched2) /\
    quiet (FrpsManager.kill pid SIGTERM s) s2 /\
    same_fs s s2 /\
    ((state_of p s2 = Some (running pid startedAt) /\
      FrpsManager.stop_within id force_ timeout sched s
      = (Ok true,
         if force_ then FrpsManager.kill pid SIGKILL s2 else s2, sched2)) \/
     ((exists st, state_of p s2 = Some st /\ is_exited st = true) /\
      FrpsManager.stop_within id force_ timeout sched s
      = (Ok true, s2, sched2))).
Proof.
  intros Hget Hst. unfold FrpsManager.stop_within, FrpsManager.look.
  rewrite Hget, Hst.
  set (s1 := FrpsManager.kill pid SIGTERM s).
  change (clock s) with (clock s1).
  destruct (FrpsManager.poll id (clock s1) timeout sched s1)
    as [s2 sched2] eqn:Hp.
  destruct (poll_quiet id (clock s1) timeout sched s1) as [Q F].
  rewrite Hp in Q, F. simpl in Q, F.
  exists s2, sched2. split; [reflexivity|]. split; [exact Q|].
  split; [exact F|].
  exact (finish_spec id force_ s p pid startedAt s2 sched2 Hget Hst Q).
Qed.

Lemma poll_forever_quiet id sched s s2 sched2 :
  FrpsManager.poll_forever id sched s = Some (s2, sched2) ->
  quiet s s2 /\ same_fs s s2.
Proof.
  revert s. induction sched as [|t rest IH]; intros s;
    cbn [FrpsManager.poll_forever].
  - destruct (FrpsManager.wait_over id s); [|discriminate].
    intros [= <- <-]. split; [apply quiet_refl|apply same_fs_refl].
  - destruct (FrpsManager.wait_over id s).
    + intros [= <- <-]. split; [apply quiet_refl|apply same_fs_refl].
    + intros H. destruct (IH _ H) as [Q F].
      destruct (await_quiet 50 (t :: rest) s) as [Q0 F0].
      split; [eapply quiet_trans|eapply same_fs_trans]; eassumption.
Qed.

Lemma wait_quiet id startWait timeoutMs sched s s2 sched2 :
  FrpsManager.wait id startWait timeoutMs sched s = Some (s2, sched2) ->
  quiet s s2 /\ same_fs s s2.
Proof.
  unfold FrpsManager.wait. destruct timeoutMs as [| |q|].
  - intros [= <- <-]. split; [apply quiet_refl|apply same_fs_refl].
  - intros [= <- <-]. split; [apply quiet_refl|apply same_fs_refl].
  - intros [= E].
    destruct (poll_quiet id startWait (Qceiling q) sched s) as [Q F].
    rewrite E in Q, F. split; assumption.
  - apply poll_forever_quiet.
Qed.

(** [stop] on a running record, in terms of its loop. *)
Lemma stop_on_running id options sched s p pid startedAt :
  FrpsManager.get id s = Some p ->
  state_of p s = Some (running pid startedAt) ->
  FrpsManager.stop id options sched s
  = match FrpsManager.wait id (clock s) (timeout_of options) sched
            (FrpsManager.kill pid SIGTERM s) with
    | Some (s2, sched2) =>
        Some (FrpsManager.finish id (force_of options) s2 sched2)
    | None => None
    end.
Proof.
  intros Hget Hst. unfold FrpsManager.stop, FrpsManager.look.
  rewrite Hget, Hst. reflexivity.
Qed.



Lemma quiet_monotone s s' : quiet s s' -> monotone s s'.
Proof. intros (_ & _ & _ & M & _ & T). split; assumption. Qed.

Lemma monotone_refl s : monotone s s.
Proof. apply quiet_monotone, quiet_refl. Qed.

Lemma monotone_trans a b c : monotone a b -> monotone b c -> monotone a c.
Proof.
  intros [M1 T1] [M2 T2]. split.
  - intros p m Hm. destruct (M1 p m Hm) as [l Hl].
    destruct (M2 p _ Hl) as [l' Hl']. exists l'.
    rewrite set_state_twice in Hl'. exact Hl'.
  - intros p st Hst. destruct (T1 p st Hst) as (st1 & H1 & L1).
    destruct (T2 p st1 H1) as (st2 & H2 & L2).
    exists st2. split; [exact H2 | eapply state_le_trans; eassumption].
Qed.

Lemma map_get_set_eq id v m : map_get id (map_set id v m) = Some v.
Proof.
  induction m as [|[k w] m IH]; simpl.
  - rewrite String.eqb_refl. reflexivity.
  - destruct (String.eqb k id) eqn:E; simpl.
    + rewrite String.eqb_refl. reflexivity.
    + rewrite E. exact IH.
Qed.

Lemma map_get_set_ne id id' v m :
  id <> id' -> map_get id' (map_set id v m) = map_get id' m.
Proof.
  intros Hne. induction m as [|[k w] m IH]; simpl.
  - destruct (String.eqb_spec id id'); [contradiction|reflexivity].
  - destruct (String.eqb_spec k id) as [->|Hk]; simpl.
    + destruct (String.eqb_spec id id'); [contradiction|reflexivity].
    + destruct (String.eqb_spec k id'); [reflexivity|exact IH].
Qed.

Lemma spawn_and_register_spec h input id binaryPath s r s' :
  FrpsManager.spawn_and_register h input id binaryPath
    (configPath_of h id) (workDir_of h id) s = (r, s') ->
  monotone s s' /\ signals s' = signals s /\ same_fs s s' /\
  match r with
  | Ok p' => installed h id s s' p'
  | Throw _ => processes s' = processes s
  end.
Proof.
  unfold FrpsManager.spawn_and_register.
  destruct (spawn_pid h _ _ _) as [pid|].
  2:{ intros [= <- <-]. split; [apply monotone_refl|].
      split; [reflexivity|]. split; [apply same_fs_refl|reflexivity]. }
  destruct (RingBuffer.new _) as [rb|e].
  2:{ intros [= <- <-]. split; [apply (monotone_refl s)|].
      split; [reflexivity|]. split; [split; reflexivity|reflexivity]. }
  intros [= <- <-]. cbn [set_spawned metas states arrays envs buffers clock
    processes dirs files signals spawned children uuids].
  set (lm := fresh (dom (metas s))). set (ls := fresh (dom (states s))).
  assert (Hlm : metas s !! lm = None) by (apply not_elem_of_dom, is_fresh).
  assert (Hls : states s !! ls = None) by (apply not_elem_of_dom, is_fresh).
  split; [|split; [reflexivity|split; [split; reflexivity|]]].
  - split.
    + intros p m Hm. exists (Meta.state m). cbn [metas].
      rewrite lookup_insert_ne by congruence.
      rewrite Hm. destruct m; reflexivity.
    + intros p st. unfold state_of. cbn [metas states].
      destruct (metas s !! p) as [m|] eqn:Hm; [|discriminate].
      intros Hst. rewrite lookup_insert_ne by congruence. rewrite Hm.
      exists st. split; [|apply state_le_refl].
      rewrite lookup_insert_ne; [exact Hst|]. intros E.
      rewrite <- E in Hst. congruence.
  - unfold installed, FrpsManager.get, state_of.
    cbn [metas states processes clock].
    split; [exact Hlm|]. split; [apply map_get_set_eq|].
    rewrite lookup_insert_eq. cbn [Meta.state]. rewrite lookup_insert_eq.
    split; [eauto|]. eexists. split; [reflexivity|]. repeat split.
Qed.


Lemma assertBinaryExists_spec h binaryPath sched s :
  exists s' sched',
    FrpsManager.assertBinaryExists h binaryPath sched s
    = (if resolves h binaryPath s then Ok tt
       else Throw (HttpError 400 (not_found_message binaryPath)),
       s', sched') /\
    quiet s s' /\ same_fs s s'.
Proof.
  unfold FrpsManager.assertBinaryExists, resolves, not_found_message.
  fold (has_separator binaryPath).
  destruct (has_separator binaryPath).
  - destruct (await_ 0 sched s) as [s' sched'] eqn:Ha.
    exists s', sched'. destruct (await_quiet 0 sched s) as [Q F].
    rewrite Ha in Q, F.
    destruct (FrpsManager.path_exists binaryPath s); auto.
  - exists s, sched. destruct (which h binaryPath);
      (split; [reflexivity|split; [apply quiet_refl|apply same_fs_refl]]).
Qed.

Lemma mkdir_spec h workDir sched s :
  exists s' sched',
    FrpsManager.mkdir h workDir sched s
    = (if mkdir_ok h workDir then Ok tt else Throw (HostFailure "mkdir"),
       s', sched') /\
    quiet s s' /\ files s' = files s /\
    dirs s' = (if mkdir_ok h workDir then {[workDir]} ∪ dirs s else dirs s).
Proof.
  unfold FrpsManager.mkdir. destruct (mkdir_ok h workDir).
  - destruct (await_ 0 sched _) as [s' sched'] eqn:Ha.
    exists s', sched'.
    destruct (await_quiet 0 sched (set_dirs ({[workDir]} ∪ dirs s) s))
      as [Q [D F]].
    rewrite Ha in Q, D, F. simpl in *.
    split; [reflexivity|]. split; [|split; assumption].
    eapply quiet_trans; [apply (quiet_refl s)|exact Q].
  - destruct (await_ 0 sched s) as [s' sched'] eqn:Ha.
    exists s', sched'. destruct (await_quiet 0 sched s) as [Q [D F]].
    rewrite Ha in Q, D, F. auto.
Qed.

Lemma writeFile_spec h path text sched s :
  exists s' sched',
    FrpsManager.writeFile h path text sched s
    = (if writeFile_ok h path then Ok tt
       else Throw (HostFailure "writeFile"), s', sched') /\
    quiet s s' /\ dirs s' = dirs s /\
    files s' = (if writeFile_ok h path then <[path := text]> (files s)
                else files s).
Proof.
  unfold FrpsManager.writeFile. destruct (writeFile_ok h path).
  - destruct (await_ 0 sched _) as [s' sched'] eqn:Ha.
    exists s', sched'.
    destruct (await_quiet 0 sched (set_files (<[path := text]> (files s)) s))
      as [Q [D F]].
    rewrite Ha in Q, D, F. simpl in *.
    split; [reflexivity|]. split; [|split; assumption].
    eapply quiet_trans; [apply (quiet_refl s)|exact Q].
  - destruct (await_ 0 sched s) as [s' sched'] eqn:Ha.
    exists s', sched'. destruct (await_quiet 0 sched s) as [Q [D F]].
    rewrite Ha in Q, D, F. auto.
Qed.

Lemma quiet_none p s s' : quiet s s' -> metas s' !! p = None -> metas s !! p = None.
Proof.
  intros (_ & _ & _ & M & _ & _) Hp.
  destruct (metas s !! p) as [m|] eqn:Hm; [|reflexivity].
  destruct (M p m Hm) as [l Hl]. congruence.
Qed.

(** [create] from binary resolution on. *)
Lemma create_resolved_spec h input id sched s :
  exists r s' sched',
    FrpsManager.create_resolved h input id sched s = (r, s', sched') /\
    monotone s s' /\ signals s' = signals s /\
    (resolves h (locator input) s = false ->
       r = Throw (HttpError 400 (not_found_message (locator input))) /\
       same_fs s s' /\ spawned s' = spawned s /\
       processes s' = processes s) /\
    (forall p', r = Ok p' ->
       installed h id s s' p' /\ workDir_of h id ∈ dirs s' /\
       is_Some (files s' !! configPath_of h id)) /\
    (resolves h (locator input) s = true -> cooperative h input id ->
       exists p', r = Ok p').
Proof.
  unfold FrpsManager.create_resolved. fold (locator input).
  fold (workDir_of h id). fold (configPath_of h id).
  destruct (assertBinaryExists_spec h (locator input) sched s)
    as (s1 & sched1 & -> & Q1 & F1).
  destruct (resolves h (locator input) s) eqn:Hres.
  2:{ exists (Throw (HttpError 400 (not_found_message (locator input)))),
        s1, sched1.
      split; [reflexivity|]. split; [apply quiet_monotone, Q1|].
      split; [apply Q1|]. split.
      - intros _. split; [reflexivity|]. split; [exact F1|].
        split; apply Q1.
      - split; [discriminate|discriminate]. }
  destruct (mkdir_spec h (workDir_of h id) sched1 s1)
    as (s2 & sched2 & -> & Q2 & F2 & D2).
  destruct (mkdir_ok h (workDir_of h id)) eqn:Hmk.
  2:{ do 3 eexists. split; [reflexivity|].
      pose proof (quiet_trans _ _ _ Q1 Q2) as Q.
      split; [apply quiet_monotone, Q|]. split; [apply Q|].
      split; [discriminate|]. split; [discriminate|].
      intros _ (Hc & _). congruence. }
  match goal with
  | |- context [FrpsManager.writeFile h ?p ?t sched2 s2] =>
      destruct (writeFile_spec h p t sched2 s2)
        as (s3 & sched3 & -> & Q3 & D3 & F3)
  end.
  pose proof (quiet_trans _ _ _ (quiet_trans _ _ _ Q1 Q2) Q3) as Q.
  destruct (writeFile_ok h (configPath_of h id)) eqn:Hwr.
  2:{ do 3 eexists. split; [reflexivity|].
      split; [apply quiet_monotone, Q|]. split; [apply Q|].
      split; [discriminate|]. split; [discriminate|].
      intros _ (_ & Hc & _). congruence. }
  destruct (FrpsManager.spawn_and_register h input id (locator input)
              (configPath_of h id) (workDir_of h id) s3) as [r s4] eqn:Hreg.
  destruct (spawn_and_register_spec _ _ _ _ _ _ _ Hreg)
    as (M4 & S4 & [D4 F4] & Hr).
  exists r, s4, sched3. split; [reflexivity|].
  split; [eapply monotone_trans; [apply quiet_monotone, Q|exact M4]|].
  split; [rewrite S4; apply Q|]. split; [discriminate|]. split.
  - intros p' ->. destruct Hr as (Hn & Hg & Hs & Hm). split.
    + split; [eapply quiet_none; eassumption|]. auto.
    + rewrite D4, D3, D2, F4, F3. split; [apply elem_of_union; left; apply elem_of_singleton; reflexivity|].
      rewrite lookup_insert_eq. eauto.
  - intros _ (_ & _ & Hsp & rb & Hrb).
    unfold FrpsManager.spawn_and_register in Hreg.
    match type of Hreg with
    | context [spawn_pid h ?n ?b ?a] => destruct (Hsp n a) as [pid Hpid]
    end.
    rewrite Hpid, Hrb in Hreg. injection Hreg as <- _. eauto.
Qed.


(** What the end of [stop] leaves as it was. *)
Lemma finish_frame id force_ s p pid startedAt s2 sched2 :
  FrpsManager.get id s = Some p ->
  state_of p s = Some (running pid startedAt) ->
  quiet (FrpsManager.kill pid SIGTERM s) s2 ->
  same_fs s s2 ->
  exists s',
    FrpsManager.finish id force_ s2 sched2 = (Ok true, s', sched2) /\
    monotone s s' /\ same_fs s s' /\ spawned s' = spawned s /\
    processes s' = processes s /\
    (forall q, metas s' !! q = None -> metas s !! q = None).
Proof.
  intros Hget Hst Q F.
  assert (Hcommon : forall s',
    (s' = s2 \/ s' = FrpsManager.kill pid SIGKILL s2) ->
    monotone s s' /\ same_fs s s' /\ spawned s' = spawned s /\
    processes s' = processes s /\
    (forall q, metas s' !! q = None -> metas s !! q = None)).
  { intros s' Hs'.
    assert (M : monotone s s2).
    { eapply monotone_trans; [apply (monotone_refl s)|].
      apply quiet_monotone in Q. exact Q. }
    destruct Q as (P & _ & W & _ & _ & _).
    destruct Hs' as [->| ->].
    - split; [exact M|]. split; [exact F|]. split; [exact W|].
      split; [exact P|].
      intros q Hq.
      destruct (metas s !! q) as [m|] eqn:Hm; [|reflexivity].
      destruct M as [M _]. destruct (M q m Hm) as [l Hl]. congruence.
    - split; [exact M|]. split; [exact F|]. split; [exact W|].
      split; [exact P|].
      intros q Hq. destruct (metas s !! q) as [m|] eqn:Hm; [|reflexivity].
      destruct M as [M _]. destruct (M q m Hm) as [l Hl].
      simpl in Hq. congruence. }
  destruct (finish_spec id force_ s p pid startedAt s2 sched2 Hget Hst Q)
    as [[_ E]|[_ E]]; rewrite E; eexists; (split; [reflexivity|]);
    apply Hcommon; destruct force_; auto.
Qed.

(** [stop] with a whole timeout, in general: it never touches the map,
    the file system or the spawn log, and states only move toward
    [exited]. *)
Lemma stop_spec id force_ timeout sched s :
  exists r s' sched',
    FrpsManager.stop_within id force_ timeout sched s = (r, s', sched') /\
    monotone s s' /\ same_fs s s' /\ spawned s' = spawned s /\
    processes s' = processes s /\
    (forall q, metas s' !! q = None -> metas s !! q = None) /\
    (registry_sound s -> exists b, r = Ok b).
Proof.
  destruct (FrpsManager.look id s) as [| |st] eqn:Hlook.
  - exists (Ok false), s, sched. unfold FrpsManager.stop_within.
    rewrite Hlook.
    split; [reflexivity|]. split; [apply monotone_refl|].
    split; [apply same_fs_refl|]. repeat split; eauto.
  - exists (Throw TypeError), s, sched. unfold FrpsManager.stop_within.
    rewrite Hlook. split; [reflexivity|]. split; [apply monotone_refl|].
    split; [apply same_fs_refl|]. repeat split; auto.
    intros Hs. unfold FrpsManager.look, FrpsManager.get in Hlook.
    destruct (map_get id (processes s)) as [p|] eqn:Hp; [|discriminate].
    destruct (sound_lookup id p s Hs Hp) as [st Hst].
    rewrite Hst in Hlook. discriminate.
  - unfold FrpsManager.look in Hlook.
    destruct (FrpsManager.get id s) as [p|] eqn:Hget; [|discriminate].
    destruct (state_of p s) as [st0|] eqn:Hst; [|discriminate].
    injection Hlook as ->. destruct st as [pid startedAt|sa ea code sg].
    + unfold FrpsManager.stop_within, FrpsManager.look. rewrite Hget, Hst.
      set (s1 := FrpsManager.kill pid SIGTERM s).
      destruct (poll_quiet id (clock s1) timeout sched s1) as [Q F].
      destruct (FrpsManager.poll id (clock s1) timeout sched s1)
        as [s2 sched2].
      cbn [fst] in Q, F.
      destruct (finish_frame id force_ s p pid startedAt s2 sched2 Hget Hst
                  Q F) as (s' & E & M & Fs & W & P & N).
      exists (Ok true), s', sched2. cbv zeta. rewrite E.
      split; [reflexivity|]. repeat (split; [assumption|]). eauto.
    + exists (Ok true), s, sched.
      unfold FrpsManager.stop_within, FrpsManager.look.
      rewrite Hget, Hst. split; [reflexivity|]. split; [apply monotone_refl|].
      split; [apply same_fs_refl|]. repeat split; eauto.
Qed.

(** [stop] with any options, when it returns. *)
Lemma stop_returned_spec id options sched s r s' sched' :
  FrpsManager.stop id options sched s = Some (r, s', sched') ->
  monotone s s' /\ same_fs s s' /\ spawned s' = spawned s /\
  processes s' = processes s /\
  (forall q, metas s' !! q = None -> metas s !! q = None) /\
  (registry_sound s -> exists b, r = Ok b).
Proof.
  destruct (FrpsManager.look id s) as [| |st] eqn:Hlook.
  - unfold FrpsManager.stop. rewrite Hlook. intros [= <- <- <-].
    split; [apply monotone_refl|].
    split; [apply same_fs_refl|]. repeat split; eauto.
  - unfold FrpsManager.stop. rewrite Hlook. intros [= <- <- <-].
    split; [apply monotone_refl|].
    split; [apply same_fs_refl|]. repeat split; auto.
    intros Hs. unfold FrpsManager.look, FrpsManager.get in Hlook.
    destruct (map_get id (processes s)) as [p|] eqn:Hp; [|discriminate].
    destruct (sound_lookup id p s Hs Hp) as [st Hst].
    rewrite Hst in Hlook. discriminate.
  - unfold FrpsManager.look in Hlook.
    destruct (FrpsManager.get id s) as [p|] eqn:Hget; [|discriminate].
    destruct (state_of p s) as [st0|] eqn:Hst; [|discriminate].
    injection Hlook as ->. destruct st as [pid startedAt|sa ea code sg].
    + rewrite (stop_on_running id options sched s p pid startedAt Hget Hst).
      destruct (FrpsManager.wait _ _ _ _ _) as [[s2 sched2]|] eqn:Hw;
        [|discriminate].
      destruct (wait_quiet _ _ _ _ _ _ _ Hw) as [Q F].
      assert (F' : same_fs s s2) by exact F.
      destruct (finish_frame id (force_of options) s p pid startedAt s2
                  sched2 Hget Hst Q F') as (s3 & E & M & Fs & W & P & N).
      rewrite E. intros [= <- <- <-].
      repeat (split; [assumption|]). eauto.
    + unfold FrpsManager.stop, FrpsManager.look. rewrite Hget, Hst.
      intros [= <- <- <-]. split; [apply monotone_refl|].
      split; [apply same_fs_refl|]. repeat split; eauto.
Qed.

End SupervisorFrames.

(** * The supervisor's contract *)
Section SupervisorContract.

(** C7: [stop] on an id that the map does not hold returns false and
    leaves the whole state, signal log included, as it was; [stop] on a
    record that is already exited returns true at once, again with the
    state and the signal log untouched.  Both hold whatever the options
    are, [timeoutMs] being any number. *)
Theorem stop_unknown_or_exited (id : string) (options : option StopOptions)
    (sched : list Tick) (s : State) :
  (FrpsManager.get id s = None ->
   FrpsManager.stop id options sched s = Some (Ok false, s, sched)) /\
  (forall p st,
      FrpsManager.get id s = Some p -> state_of p s = Some st ->
      is_exited st = true ->
      FrpsManager.stop id options sched s = Some (Ok true, s, sched)).
Proof.
  unfold FrpsManager.stop, FrpsManager.look. split.
  - intros ->. reflexivity.
  - intros p st -> -> Hex. destruct st; [discriminate|reflexivity].
Qed.

(** C6, as amended: when the binary locator does not resolve, [create]
    fails without any file-system side effect and without spawning; the
    failure is the binary-not-found error (status 400) unless the id is
    already in the map and [replaceIfExists] is not set, in which case it
    is the conflict error (status 409) raised by the earlier check. *)
Theorem create_binary_not_found (h : Host) (input : CreateInput.t)
    (sched : list Tick) (s : State) :
  registry_sound s ->
  resolves h (locator input) s = false ->
  exists e s' sched',
    FrpsManager.create h input sched s = (Throw e, s', sched') /\
    dirs s' = dirs s /\ files s' = files s /\ spawned s' = spawned s /\
    e = if map_has (id_of h input s) (processes s) &&
           negb (default false (CreateInput.replaceIfExists input))
        then HttpError 409 (conflict_message (id_of h input s))
        else HttpError 400 (not_found_message (locator input)).
Proof.
  intros Hsound Hres. unfold FrpsManager.create.
  set (s0 := match CreateInput.id input with
             | Some _ => s
             | None => set_uuids (S (uuids s)) s
             end).
  assert (Hpair : (match CreateInput.id input with
                   | Some i => (i, s)
                   | None => (randomUUID h (uuids s), set_uuids (S (uuids s)) s)
                   end) = (id_of h input s, s0)).
  { unfold id_of, s0. destruct (CreateInput.id input); reflexivity. }
  rewrite Hpair.
  assert (H0 : processes s0 = processes s /\ same_fs s s0 /\
               spawned s0 = spawned s /\ registry_sound s0 /\
               resolves h (locator input) s0 = false).
  { unfold s0. destruct (CreateInput.id input);
      (split; [reflexivity|]; split; [split; reflexivity|];
       split; [reflexivity|]; split; [exact Hsound|exact Hres]). }
  destruct H0 as (P0 & [D0 F0] & W0 & Hsound0 & Hres0).
  rewrite P0.
  destruct (map_has (id_of h input s) (processes s)) eqn:Hhas; simpl.
  - destruct (default false (CreateInput.replaceIfExists input)); simpl.
    + destruct (stop_spec (id_of h input s) true 1000%Z sched s0)
        as (r & s1 & sched1 & -> & M1 & [D1 F1] & W1 & P1 & _ & Hok).
      destruct (Hok Hsound0) as [b ->].
      destruct (create_resolved_spec h input (id_of h input s) sched1 s1)
        as (r2 & s2 & sched2 & -> & _ & _ & Hun & _).
      assert (Hres1 : resolves h (locator input) s1 = false).
      { unfold resolves, FrpsManager.path_exists in *.
        rewrite D1, F1. exact Hres0. }
      destruct (Hun Hres1) as (-> & [D2 F2] & W2 & _).
      do 3 eexists. split; [reflexivity|].
      repeat split; congruence.
    + do 3 eexists. split; [reflexivity|]. repeat split; congruence.
  - destruct (create_resolved_spec h input (id_of h input s) sched s0)
      as (r2 & s2 & sched2 & -> & _ & _ & Hun & _).
    destruct (Hun Hres0) as (-> & [D2 F2] & W2 & _).
    do 3 eexists. split; [reflexivity|]. repeat split; congruence.
Qed.

End SupervisorContract.

Section Registry.

Lemma Forall2_with_Forall {A B} (P : A -> Prop) (Q R : A -> B -> Prop)
    (l : list A) (k : list B) :
  Forall P l -> Forall2 Q l k ->
  (forall x y, P x -> Q x y -> R x y) -> Forall2 R l k.
Proof.
  intros HP HQ Himp. induction HQ as [|x y l k Hxy HQ IH]; constructor.
  - inversion HP; subst. auto.
  - inversion HP; subst. auto.
Qed.

Lemma copy_records_spec (entries : list (string * loc)) :
  forall (out : list loc) (s : State),
    Forall (fun e => is_Some (metas s !! snd e)) entries ->
    exists new,
      fst (foldl FrpsManager.copy_record (out, s) entries) = out ++ new /\
      metas s ⊆ metas (snd (foldl FrpsManager.copy_record (out, s) entries)) /\
      same_but_metas s (snd (foldl FrpsManager.copy_record (out, s) entries)) /\
      Forall2 (fun e q =>
                 metas s !! q = None /\
                 metas (snd (foldl FrpsManager.copy_record (out, s) entries))
                   !! q = metas s !! snd e) entries new.
Proof.
  induction entries as [|e es IH]; intros out s Hall.
  - exists []. simpl. rewrite app_nil_r.
    split; [reflexivity|]. split; [reflexivity|]. split; [|constructor].
    unfold same_but_metas. destruct s; reflexivity.
  - inversion Hall as [|? ? [m Hm] Hes]; subst.
    cbn [foldl].
    set (l := fresh (dom (metas s))).
    assert (Hl : metas s !! l = None) by (apply not_elem_of_dom, is_fresh).
    set (s1 := set_metas (<[l := m]> (metas s)) s).
    assert (Hsub1 : metas s ⊆ metas s1) by (apply insert_subseteq, Hl).
    assert (Hall1 : Forall (fun e => is_Some (metas s1 !! snd e)) es).
    { eapply Forall_impl; [exact Hes|]. intros e' [m' Hm'].
      exists m'. eapply lookup_weaken; eassumption. }
    assert (Hstep : FrpsManager.copy_record (out, s) e = (out ++ [l], s1)).
    { unfold FrpsManager.copy_record. cbn [fst snd]. rewrite Hm. reflexivity. }
    rewrite Hstep.
    destruct (IH (out ++ [l]) s1 Hall1) as (new & Hout & Hsub & Hsame & Hf).
    exists (l :: new). rewrite Hout, <- app_assoc.
    split; [reflexivity|]. split; [transitivity (metas s1); assumption|]. split.
    + unfold same_but_metas in *. rewrite Hsame at 1. reflexivity.
    + constructor.
      * split; [exact Hl|]. rewrite Hm.
        eapply lookup_weaken; [|exact Hsub]. apply lookup_insert_eq.
      * eapply Forall2_with_Forall; [exact Hes|exact Hf|].
        intros e' q [m' Hm'] [Hq Hq'].
        assert (Hsq : metas s !! q = None).
        { destruct (metas s !! q) as [x|] eqn:E; [|reflexivity].
          eapply lookup_weaken in E; [|exact Hsub1]. congruence. }
        split; [exact Hsq|]. rewrite Hq'. unfold s1; simpl.
        destruct (decide (l = snd e')) as [El|Ne].
        -- congruence.
        -- apply lookup_insert_ne; exact Ne.
Qed.


Lemma deref_same_but_metas (p : loc) (s s' : State) :
  same_but_metas s s' -> metas s' !! p = metas s !! p ->
  deref p s' = deref p s.
Proof.
  intros Hsame Hp. unfold deref. rewrite Hp, Hsame. reflexivity.
Qed.

Lemma registry_view_ext (s s' : State) :
  same_but_metas s s' ->
  Forall (fun e => metas s' !! snd e = metas s !! snd e) (processes s) ->
  registry_view s' = registry_view s.
Proof.
  intros Hsame Hall. unfold registry_view.
  assert (Hp : processes s' = processes s) by (rewrite Hsame; reflexivity).
  rewrite Hp. clear Hp. revert Hall. generalize (processes s).
  intros ps Hall. induction Hall as [|e es He Hes IH]; [reflexivity|].
  simpl. rewrite IH, (deref_same_but_metas _ _ _ Hsame He). reflexivity.
Qed.

(** C1, as amended: [list()] leaves the registry as it was and returns one
    fresh record object per record, holding the record's field values;
    assigning any field of a returned object never changes the registry.
    (The [args], [env], [state] and [logBuffer] that the fields refer to
    are the registry's own objects.) *)
Theorem list_returns_fresh_records (s : State) (snaps : list loc)
    (s' : State) :
  registry_allocated s ->
  FrpsManager.list s = (snaps, s') ->
  registry_view s' = registry_view s /\
  Forall2 (fun e q => metas s !! q = None /\ metas s' !! q = metas s !! snd e)
    (processes s) snaps /\
  (forall q w, q ∈ snaps ->
     registry_view (Caller.mutate q (Caller.Assign w) s') = registry_view s').
Proof.
  intros Halloc Hlist. unfold FrpsManager.list in Hlist.
  destruct (copy_records_spec (processes s) [] s Halloc)
    as (new & Hout & Hsub & Hsame & Hf).
  rewrite Hlist in Hout, Hsub, Hsame, Hf. simpl in Hout, Hsub, Hsame, Hf.
  subst new.
  assert (Hkeep : Forall (fun e => metas s' !! snd e = metas s !! snd e)
                    (processes s)).
  { eapply Forall_impl; [exact Halloc|]. intros e [m Hm].
    rewrite Hm. eapply lookup_weaken; eassumption. }
  split; [apply registry_view_ext; assumption|]. split; [exact Hf|].
  intros q w Hq. unfold Caller.mutate.
  destruct (metas s' !! q) as [mq|] eqn:Hmq; [|reflexivity].
  assert (Hfresh : metas s !! q = None).
  { clear -Hf Hq. induction Hf as [|e q' es qs [H1 _] _ IH].
    - inversion Hq.
    - apply elem_of_cons in Hq as [->|Hq]; auto. }
  apply registry_view_ext; [unfold same_but_metas; destruct s'; reflexivity|].
  assert (Hp : processes s' = processes s) by (rewrite Hsame; reflexivity).
  rewrite Hp. eapply Forall_impl; [exact Halloc|]. intros e [m Hm]. simpl.
  apply lookup_insert_ne. intros ->. congruence.
Qed.

End Registry.

Section Lifecycle.

Lemma create_monotone h input sched s r s' sched' :
  FrpsManager.create h input sched s = (r, s', sched') -> monotone s s'.
Proof.
  unfold FrpsManager.create.
  set (s0 := match CreateInput.id input with
             | Some _ => s
             | None => set_uuids (S (uuids s)) s
             end).
  assert (Hpair : (match CreateInput.id input with
                   | Some i => (i, s)
                   | None => (randomUUID h (uuids s), set_uuids (S (uuids s)) s)
                   end) = (id_of h input s, s0)).
  { unfold id_of, s0. destruct (CreateInput.id input); reflexivity. }
  rewrite Hpair.
  assert (M0 : monotone s s0).
  { unfold s0. destruct (CreateInput.id input); apply (monotone_refl s). }
  destruct (map_has _ _).
  - destruct (default false _).
    + destruct (stop_spec (id_of h input s) true 1000%Z sched s0)
        as (r1 & s1 & sched1 & -> & M1 & _).
      destruct r1 as [b|e].
      * destruct (create_resolved_spec h input (id_of h input s) sched1 s1)
          as (r2 & s2 & sched2 & -> & M2 & _).
        intros [= _ <- _].
        eapply monotone_trans; [|exact M2].
        eapply monotone_trans; eassumption.
      * intros [= _ <- _]. eapply monotone_trans; eassumption.
    + intros [= _ <- _]. exact M0.
  - destruct (create_resolved_spec h input (id_of h input s) sched s0)
      as (r2 & s2 & sched2 & -> & M2 & _).
    intros [= _ <- _]. eapply monotone_trans; eassumption.
Qed.

Lemma list_monotone s snaps s' :
  FrpsManager.list s = (snaps, s') -> monotone s s'.
Proof.
  unfold FrpsManager.list. intros Hlist.
  assert (H : forall entries out s0,
             monotone s0 (snd (foldl FrpsManager.copy_record (out, s0) entries))).
  { clear. induction entries as [|e es IH]; intros out s0.
    - apply monotone_refl.
    - cbn [foldl]. unfold FrpsManager.copy_record at 2. cbn [fst snd].
      destruct (metas s0 !! snd e) as [m|] eqn:Hm; [|apply IH].
      eapply monotone_trans; [|apply IH].
      set (l := fresh (dom (metas s0))).
      assert (Hl : metas s0 !! l = None) by (apply not_elem_of_dom, is_fresh).
      split.
      + intros p m' Hm'. exists (Meta.state m'). simpl.
        rewrite lookup_insert_ne by congruence.
        rewrite Hm'. destruct m'; reflexivity.
      + intros p st. unfold state_of. simpl.
        destruct (metas s0 !! p) as [m'|] eqn:Hm'; [|discriminate].
        rewrite lookup_insert_ne by congruence. rewrite Hm'.
        intros Hst. exists st. split; [exact Hst|apply state_le_refl]. }
  specialize (H (processes s) [] s). rewrite Hlist in H. exact H.
Qed.

Lemma step_monotone h s s' : step h s s' -> monotone s s'.
Proof.
  intros [input sched s0 r s1 sched' Hc
         |id options sched s0 r s1 sched' Hs
         |id options sched s0 p pid startedAt _ _ _
         |s0 snaps s1 Hl
         |e s0
         |dt s0].
  - eapply create_monotone; eassumption.
  - apply (stop_returned_spec _ _ _ _ _ _ _ Hs).
  - apply (monotone_refl s0).
  - eapply list_monotone; eassumption.
  - apply quiet_monotone, fire_quiet.
  - apply (monotone_refl s0).
Qed.

Lemma exit_watcher_children c code s :
  children (exit_watcher c code s) = children s.
Proof.
  unfold exit_watcher. destruct (map_get _ _); [|reflexivity].
  destruct (metas s !! _); reflexivity.
Qed.

(** What the code keeps of the one-directional transition: along any
    sequence of creates, stops, listings, exit notifications and output
    events, the state seen through a record reference either stays what
    it was or has become [exited], so the status never goes back to
    running.  An exit notification for a child whose exit was already
    handled changes nothing, and so does [stop] on an exited record.
    (The details of an exited state are another matter: the exit of a
    replaced child rewrites them, see the concrete runs.) *)
Lemma state_only_moves_to_exited (h : Host) :
  (forall s s', rtc (step h) s s' ->
     forall p st, state_of p s = Some st ->
       exists st', state_of p s' = Some st' /\
                   (st' = st \/ is_exited st' = true) /\
                   (is_exited st = true -> is_exited st' = true)) /\
  (forall i code code' s,
     fire (ChildExit i code') (fire (ChildExit i code) s)
     = fire (ChildExit i code) s) /\
  (forall id options sched s p st,
     FrpsManager.get id s = Some p -> state_of p s = Some st ->
     is_exited st = true ->
     FrpsManager.stop id options sched s = Some (Ok true, s, sched)).
Proof.
  split; [|split].
  - intros s s' Hrtc.
    assert (M : monotone s s').
    { induction Hrtc as [|a b c Hab _ IH]; [apply monotone_refl|].
      eapply monotone_trans; [eapply step_monotone; eassumption|exact IH]. }
    intros p st Hst. destruct M as [_ T].
    destruct (T p st Hst) as (st' & Hst' & Hle).
    exists st'. split; [exact Hst'|]. split; [exact Hle|].
    apply state_le_exited; exact Hle.
  - intros i code code' s. cbn [fire].
    destruct (children s !! i) as [c|] eqn:Hc.
    + destruct (c_exitHandled c) eqn:Hh.
      * rewrite Hc, Hh. reflexivity.
      * rewrite exit_watcher_children. cbn [children set_children].
        rewrite list_lookup_insert_eq by (eapply lookup_lt_Some; eassumption).
        reflexivity.
    + rewrite Hc. reflexivity.
  - intros id options sched s p st Hget Hst Hex.
    unfold FrpsManager.stop, FrpsManager.look. rewrite Hget, Hst.
    destruct st; [discriminate|reflexivity].
Qed.

Lemma validate_string_cases field message body :
  (exists v, validate_string field message body = Ok v) \/
  validate_string field message body = bad_request message.
Proof.
  unfold validate_string. destruct (Json.prop field body) as [[]|]; eauto.
  destruct (String.eqb _ _); eauto.
Qed.

Lemma validate_object_cases field message body :
  (exists v, validate_object field message body = Ok v) \/
  validate_object field message body = bad_request message.
Proof.
  unfold validate_object. destruct (Json.prop field body) as [v|]; eauto.
  destruct (Json.is_object v); eauto.
Qed.

(** C5: a [POST /frps] request whose body has neither [configToml] nor
    [config] (absent, or [config] null) is refused with a validation error
    (status 400) before the supervisor is entered: the state is unchanged,
    so no working directory is created and no process is spawned. *)
Theorem post_frps_without_config (ToNumber : json -> Js.number) (h : Host)
    (body : json) (sched : list Tick) (s : State) :
  Json.prop "configToml" body = None ->
  (Json.prop "config" body = None \/ Json.prop "config" body = Some JNull) ->
  exists message,
    post_frps ToNumber h body sched s
    = (Throw (HttpError 400 message), s, sched).
Proof.
  intros Htoml Hconfig.
  assert (Hv : exists message,
             validateCreateBody ToNumber body = bad_request message).
  { unfold validateCreateBody.
    destruct (negb (Json.truthy body) || negb (Json.is_object body)); [eauto|].
    destruct (validate_string_cases "id" "id must be non-empty string" body)
      as [[v1 ->]| ->]; [|eauto]. cbn [bind].
    destruct (validate_string_cases "binaryPath" "binaryPath must be string"
                body) as [[v2 ->]| ->]; [|eauto]. cbn [bind].
    assert (E3 : validate_string "configToml" "configToml must be string" body
                 = Ok None) by (unfold validate_string; rewrite Htoml; reflexivity).
    rewrite E3. cbn [bind].
    assert (E4 : exists c, validate_object "config" "config must be object" body
                           = Ok c /\ from_option Json.truthy false c = false).
    { unfold validate_object.
      destruct Hconfig as [-> | ->]; eexists; split; reflexivity. }
    destruct E4 as (c & -> & Hc). cbn [bind].
    destruct (validate_object_cases "env" "env must be object" body)
      as [[v5 ->]| ->]; [|eauto]. cbn [bind].
    destruct (validate_args body) as [v6|e6] eqn:E6.
    2:{ unfold validate_args in E6.
        destruct (Json.prop "args" body) as [[]|]; try discriminate;
          try (injection E6 as <-; eauto).
        destruct (Json.strings_of _); [discriminate|].
        injection E6 as <-; eauto. }
    cbn [bind].
    destruct (validate_logLines ToNumber body) as [v7|e7] eqn:E7.
    2:{ unfold validate_logLines in E7.
        destruct (Json.prop "logLines" body); [|discriminate].
        destruct (ToNumber _); try (injection E7 as <-; eauto).
        destruct (Qle_bool _ _); [discriminate|].
        injection E7 as <-; eauto. }
    cbn [bind]. rewrite Hc. simpl. eauto. }
  destruct Hv as [message Hv]. exists message.
  unfold post_frps. rewrite Hv. reflexivity.
Qed.

End Lifecycle.

(** * The hypotheses hold in every state the supervisor reaches *)
Section Reachability.

Lemma spawn_and_register_processes h input id binaryPath configPath workDir
    s r s' :
  FrpsManager.spawn_and_register h input id binaryPath configPath workDir s
  = (r, s') ->
  match r with
  | Ok p' => processes s' = map_set id p' (processes s)
  | Throw _ => processes s' = processes s
  end.
Proof.
  unfold FrpsManager.spawn_and_register.
  destruct (spawn_pid h _ _ _); [|intros [= <- <-]; reflexivity].
  destruct (RingBuffer.new _); intros [= <- <-]; reflexivity.
Qed.

Lemma create_resolved_processes h input id sched s r s' sched' :
  FrpsManager.create_resolved h input id sched s = (r, s', sched') ->
  match r with
  | Ok p' => processes s' = map_set id p' (processes s)
  | Throw _ => processes s' = processes s
  end.
Proof.
  unfold FrpsManager.create_resolved.
  destruct (assertBinaryExists_spec h (locator input) sched s)
    as (s1 & sched1 & E1 & Q1 & _).
  fold (locator input). rewrite E1.
  destruct (resolves h (locator input) s);
    [|intros [= <- <- _]; apply Q1].
  match goal with
  | |- context [FrpsManager.mkdir h ?w sched1 s1] =>
      destruct (mkdir_spec h w sched1 s1) as (s2 & sched2 & E2 & Q2 & _);
      rewrite E2; destruct (mkdir_ok h w)
  end.
  2:{ intros [= <- <- _]. destruct Q1 as [P1 _], Q2 as [P2 _]. congruence. }
  match goal with
  | |- context [FrpsManager.writeFile h ?p ?t sched2 s2] =>
      destruct (writeFile_spec h p t sched2 s2)
        as (s3 & sched3 & E3 & Q3 & _);
      rewrite E3; destruct (writeFile_ok h p)
  end.
  2:{ intros [= <- <- _].
      destruct Q1 as [P1 _], Q2 as [P2 _], Q3 as [P3 _]. congruence. }
  match goal with
  | |- context [FrpsManager.spawn_and_register ?a ?b ?c ?d ?e ?f s3] =>
      destruct (FrpsManager.spawn_and_register a b c d e f s3)
        as [r4 s4] eqn:E4
  end.
  intros [= <- <- _].
  pose proof (spawn_and_register_processes _ _ _ _ _ _ _ _ _ E4) as H4.
  destruct Q1 as [P1 _], Q2 as [P2 _], Q3 as [P3 _].
  destruct r4; rewrite H4; congruence.
Qed.

Lemma create_processes h input sched s r s' sched' :
  FrpsManager.create h input sched s = (r, s', sched') ->
  match r with
  | Ok p' => processes s' = map_set (id_of h input s) p' (processes s)
  | Throw _ => processes s' = processes s
  end.
Proof.
  unfold FrpsManager.create.
  set (s0 := match CreateInput.id input with
             | Some _ => s
             | None => set_uuids (S (uuids s)) s
             end).
  assert (Hpair : (match CreateInput.id input with
                   | Some i => (i, s)
                   | None => (randomUUID h (uuids s), set_uuids (S (uuids s)) s)
                   end) = (id_of h input s, s0)).
  { unfold id_of, s0. destruct (CreateInput.id input); reflexivity. }
  rewrite Hpair.
  assert (P0 : processes s0 = processes s).
  { unfold s0. destruct (CreateInput.id input); reflexivity. }
  destruct (map_has _ _).
  - destruct (default false _).
    + destruct (stop_spec (id_of h input s) true 1000%Z sched s0)
        as (r1 & s1 & sched1 & -> & _ & _ & _ & P1 & _).
      destruct r1 as [b|e]; [|intros [= <- <- _]; congruence].
      intros E. apply create_resolved_processes in E.
      destruct r; rewrite E; congruence.
    + intros [= <- <- _]. exact P0.
  - intros E. apply create_resolved_processes in E.
    destruct r; rewrite E; congruence.
Qed.

Lemma map_set_elem (e : string * loc) id v (m : list (string * loc)) :
  e ∈ map_set id v m -> e = (id, v) \/ e ∈ m.
Proof.
  induction m as [|[k w] m IH]; simpl.
  - intros H. apply elem_of_cons in H as [->|H]; [left; reflexivity|].
    inversion H.
  - destruct (String.eqb k id).
    + intros H. apply elem_of_cons in H as [->|H]; [left; reflexivity|].
      right. apply elem_of_cons. right; exact H.
    + intros H. apply elem_of_cons in H as [->|H].
      * right. apply elem_of_cons. left; reflexivity.
      * destruct (IH H) as [->|H']; [left; reflexivity|].
        right. apply elem_of_cons. right; exact H'.
Qed.

Lemma monotone_sound s s' :
  monotone s s' -> processes s' = processes s ->
  registry_sound s -> registry_sound s'.
Proof.
  intros [_ T] P Hs. unfold registry_sound in *. rewrite P.
  eapply Forall_impl; [exact Hs|]. intros e [st Hst].
  destruct (T _ st Hst) as (st' & H' & _). exists st'. exact H'.
Qed.

Lemma create_sound h input sched s r s' sched' :
  FrpsManager.create h input sched s = (r, s', sched') ->
  registry_sound s -> registry_sound s'.
Proof.
  intros E Hs. pose proof (create_monotone _ _ _ _ _ _ _ E) as M.
  pose proof (create_processes _ _ _ _ _ _ _ E) as P.
  destruct r as [p'|e]; [|eapply monotone_sound; eassumption].
  assert (Hnew : is_Some (state_of p' s')).
  { clear M Hs. revert E. unfold FrpsManager.create.
    assert (Hfin : forall id sch st0,
      FrpsManager.create_resolved h input id sch st0 = (Ok p', s', sched') ->
      is_Some (state_of p' s')).
    { intros id sch st0 E.
      destruct (create_resolved_spec h input id sch st0)
        as (r2 & s2 & sched2 & E2 & _ & _ & _ & Hok & _).
      rewrite E in E2. injection E2 as <- <- <-.
      destruct (Hok p' eq_refl) as ((_ & _ & [pid' Hst] & _) & _). eauto. }
    destruct (CreateInput.id input).
    - destruct (map_has _ _); [|apply Hfin].
      destruct (default false _); [|discriminate].
      destruct (FrpsManager.stop_within _ _ _ _ _) as [[r1 s1] sched1].
      destruct r1; [apply Hfin|discriminate].
    - destruct (map_has _ _); [|apply Hfin].
      destruct (default false _); [|discriminate].
      destruct (FrpsManager.stop_within _ _ _ _ _) as [[r1 s1] sched1].
      destruct r1; [apply Hfin|discriminate]. }
  unfold registry_sound in *. rewrite P. apply Forall_forall.
  intros e He. apply map_set_elem in He as [->|He]; [exact Hnew|].
  rewrite Forall_forall in Hs. destruct (Hs e He) as [st Hst].
  destruct M as [_ T]. destruct (T _ st Hst) as (st' & H' & _). eauto.
Qed.

Lemma sound_allocated s : registry_sound s -> registry_allocated s.
Proof.
  unfold registry_sound, registry_allocated. intros Hs.
  eapply Forall_impl; [exact Hs|].
  intros e [st Hst]. unfold state_of in Hst.
  destruct (metas s !! snd e); [eauto|discriminate].
Qed.

(** Every state reached from the initial one by creates, stops, listings
    and events has a sound registry: each id leads to a record object
    whose [state] refers to a state object. *)
Theorem reachable_registry_sound (h : Host) (s : State) :
  rtc (step h) initial s -> registry_sound s /\ registry_allocated s.
Proof.
  intros Hrtc.
  assert (Hs : registry_sound s).
  { assert (H0 : registry_sound initial) by constructor.
    revert H0. induction Hrtc as [|a b c Hab _ IH]; [auto|].
    intros Ha. apply IH. clear IH.
    destruct Hab as [input sched s0 r s1 sched' Hc
                    |id options sched s0 r s1 sched' Hst
                    |id options sched s0 p pid startedAt _ _ _
                    |s0 snaps s1 Hl
                    |e s0
                    |dt s0].
    - eapply create_sound; eassumption.
    - destruct (stop_returned_spec _ _ _ _ _ _ _ Hst)
        as (M & _ & _ & P & _).
      eapply monotone_sound; eassumption.
    - exact Ha.
    - pose proof (list_monotone _ _ _ Hl) as M.
      eapply monotone_sound; [exact M| |exact Ha].
      unfold FrpsManager.list in Hl.
      destruct (copy_records_spec (processes s0) [] s0
                  (sound_allocated _ Ha)) as (new & _ & _ & Hsame & _).
      rewrite Hl in Hsame. simpl in Hsame. rewrite Hsame. reflexivity.
    - eapply quiet_sound; [apply fire_quiet|exact Ha].
    - exact Ha. }
  split; [exact Hs|apply sound_allocated, Hs].
Qed.

End Reachability.

(** * The contract on concrete runs *)
Section ConcreteRuns.

Import DemoStates.

Lemma s1_sound : registry_sound s1.
Proof. apply (bool_decide_unpack _). vm_compute. exact I. Qed.

Lemma s1_allocated : registry_allocated s1.
Proof. apply (bool_decide_unpack _). vm_compute. exact I. Qed.

Lemma stop_unknown_or_exited_witness :
  FrpsManager.stop "b" None [] s1 = Some (Ok false, s1, []) /\
  FrpsManager.stop "a" None [] s1_exited = Some (Ok true, s1_exited, []).
Proof.
  split.
  - apply (proj1 (stop_unknown_or_exited "b" None [] s1)).
    vm_compute; reflexivity.
  - eapply (proj2 (stop_unknown_or_exited "a" None [] s1_exited));
      vm_compute; reflexivity.
Defined.

Lemma create_binary_not_found_witness :
  exists e s' sched',
    FrpsManager.create Demo.host (missing_binary true) [] s1
    = (Throw e, s', sched') /\
    dirs s' = dirs s1 /\ files s' = files s1 /\ spawned s' = spawned s1 /\
    e = HttpError 400 "binary not found in PATH: no-such-binary".
Proof.
  apply (create_binary_not_found Demo.host (missing_binary true) [] s1).
  - apply (bool_decide_unpack _). vm_compute. exact I.
  - vm_compute; reflexivity.
Defined.

(** C6 as first stated fails when the id is already in the map and
    [replaceIfExists] is not set: the conflict check comes first and the
    failure is the conflict error, not the binary-not-found error. *)
Lemma create_binary_not_found_counterexample :
  ~ (forall (h : Host) (input : CreateInput.t) (sched : list Tick)
            (s : State),
        registry_sound s ->
        resolves h (locator input) s = false ->
        exists s' sched',
          FrpsManager.create h input sched s
          = (Throw (HttpError 400 (not_found_message (locator input))),
             s', sched') /\
          dirs s' = dirs s /\ files s' = files s).
Proof.
  intros H.
  destruct (H Demo.host (missing_binary false) [] s1 s1_sound eq_refl)
    as (s' & sched' & E & _).
  vm_compute in E. discriminate E.
Qed.


Lemma post_frps_without_config_witness :
  exists message,
    post_frps Demo.ToNumber Demo.host
      (JObj [("id", JStr "a"); ("config", JNull)]) [] initial
    = (Throw (HttpError 400 message), initial, []).
Proof.
  apply (post_frps_without_config Demo.ToNumber Demo.host
           (JObj [("id", JStr "a"); ("config", JNull)]) [] initial).
  - reflexivity.
  - right. reflexivity.
Defined.

Lemma state_only_moves_to_exited_witness :
  exists st',
    state_of 1%positive s1_exited = Some st' /\
    (st' = running 1000 0 \/ is_exited st' = true) /\
    (is_exited (running 1000 0) = true -> is_exited st' = true).
Proof.
  apply (proj1 (state_only_moves_to_exited Demo.host) s1 s1_exited).
  - apply rtc_once. exact (step_fire Demo.host (ChildExit 0 (Some 0%Z)) s1).
  - vm_compute; reflexivity.
Defined.

Lemma list_returns_fresh_records_witness :
  registry_view (snd listed) = registry_view s1 /\
  (forall q w, q ∈ fst listed ->
     registry_view (Caller.mutate q (Caller.Assign w) (snd listed))
     = registry_view (snd listed)).
Proof.
  destruct (list_returns_fresh_records s1 (fst listed) (snd listed))
    as (Hview & _ & Hassign).
  - apply (bool_decide_unpack _). vm_compute. exact I.
  - vm_compute; reflexivity.
  - split; [exact Hview|exact Hassign].
Defined.

(** C1 as first stated fails on what the fields refer to: a line pushed
    through the [logBuffer] of a record returned by [list()] lands in the
    registry's own buffer. *)
Lemma list_shares_logBuffer_counterexample :
  ~ (forall (s : State) (snaps : list loc) (s' : State) (q : loc)
            (mu : Caller.Mutation),
        registry_allocated s ->
        FrpsManager.list s = (snaps, s') ->
        q ∈ snaps ->
        registry_view (Caller.mutate q mu s') = registry_view s').
Proof.
  intros H.
  specialize (H s1 (fst listed) (snd listed) 2%positive
                (Caller.LogPush "injected") s1_allocated).
  assert (Hlist : FrpsManager.list s1 = (fst listed, snd listed))
    by (vm_compute; reflexivity).
  assert (Hin : 2%positive ∈ fst listed)
    by (vm_compute; apply elem_of_cons; left; reflexivity).
  specialize (H Hlist Hin).
  apply (f_equal (fun v =>
           match v with
           | (_, _, Some snap) :: _ =>
               RingBuffer.toArray None <$> snap_log snap
           | _ => None
           end)) in H.
  vm_compute in H. discriminate H.
Qed.

(** [get(id)] hands out the registry's own record object. *)
Remark get_returns_the_record :
  FrpsManager.get "a" s1 = Some 1%positive /\
  map fst (registry_view s1) = [("a", 1%positive)].
Proof. split; vm_compute; reflexivity. Qed.

(** [FrpsManager.create] itself does not look for a configuration: reached
    without the validator and with neither [configToml] nor [config], it
    renders an empty configuration and goes on to create the directory. *)
Remark create_without_validator :
  exists p s',
    FrpsManager.create Demo.host
      (CreateInput.mk (Some "c") None None None None None None None)
      [] initial = (Ok p, s', []) /\
    bool_decide (workDir_of Demo.host "c" ∈ dirs s') = true.
Proof. do 2 eexists. split; vm_compute; reflexivity. Qed.

(** After a replace, the exit of the replaced child is recorded on the
    record now held under the id, with the replaced child's start time. *)
Remark replaced_child_exit_marks_new_record :
  exists s2,
    FrpsManager.create Demo.host (Demo.input "a" true) [] s1
    = (Ok 2%positive, s2, []) /\
    state_of 2%positive s2 = Some (running 1001 1000) /\
    state_of 2%positive (fire (ChildExit 0 (Some 137%Z)) s2)
    = Some (exited 0 1000 (Some 137%Z) None).
Proof. eexists. split; [|split]; vm_compute; reflexivity. Qed.

End ConcreteRuns.
(** * Further properties of the ring buffer *)
Section RingBufferMore.

Import RingBuffer.

Lemma Qle_bool_inject (a b : Z) :
  Qle_bool (inject_Z a) (inject_Z b) = (a <=? b)%Z.
Proof.
  unfold Qle_bool, inject_Z. simpl. rewrite !Z.mul_1_r. reflexivity.
Qed.

Lemma clamp_of_Z (c : Z) :
  clamp (Js.of_Z c) = Js.of_Z (Z.max 10 (Z.min c 10000)).
Proof.
  unfold clamp, Js.Math_min, Js.of_Z, Js.gt. rewrite Qle_bool_inject.
  destruct (Z.leb_spec c 10000); cbn [negb].
  - unfold Js.Math_max, Js.gt. rewrite Qle_bool_inject.
    destruct (Z.leb_spec c 10); cbn [negb]; do 2 f_equal; lia.
  - unfold Js.Math_max, Js.gt. rewrite Qle_bool_inject.
    destruct (Z.leb_spec 10000 10); [lia|]. cbn [negb]. do 2 f_equal; lia.
Qed.

Lemma new_of_clamp (x : Js.number) (z : Z) :
  clamp x = Js.of_Z z -> (0 <= z)%Z ->
  new x = Ok (mk (Z.to_nat z) (replicate (Z.to_nat z) None) 0 false).
Proof.
  intros Hc Hz. unfold new. rewrite Hc. unfold Js.of_Z.
  assert (Hi : Js.is_integer (inject_Z z) = true).
  { unfold Js.is_integer, inject_Z. simpl. rewrite Z.rem_1_r. reflexivity. }
  assert (Ht : Js.trunc (inject_Z z) = z).
  { unfold Js.trunc, inject_Z. simpl. apply Z.quot_1_r. }
  rewrite Hi, Ht. destruct (Z.leb_spec 0 z); [reflexivity|lia].
Qed.

(** X1: the constructor clamps: an integer argument gives the capacity
    max(10, min(c, 10000)) and an empty buffer, the infinities give 10000
    and 10, and NaN is a RangeError. *)
Theorem new_clamps :
  (forall c : Z,
      new (Js.of_Z c)
      = Ok (mk (Z.to_nat (Z.max 10 (Z.min c 10000)))
              (replicate (Z.to_nat (Z.max 10 (Z.min c 10000))) None)
              0 false)) /\
  (exists rb, new Js.Infinity = Ok rb /\ Z.of_nat (capacity rb) = 10000%Z) /\
  (exists rb, new Js.NegInfinity = Ok rb /\ capacity rb = 10) /\
  new Js.NaN = Throw RangeError.
Proof.
  split; [|split; [|split]].
  - intros c. apply new_of_clamp; [apply clamp_of_Z|lia].
  - eexists. split; [apply (new_of_clamp Js.Infinity 10000); [reflexivity|lia]|].
    simpl. lia.
  - eexists. split; [apply (new_of_clamp Js.NegInfinity 10); [reflexivity|lia]|].
    reflexivity.
  - reflexivity.
Qed.

(** X2: a fractional capacity strictly between 10 and 10000 makes the
    constructor throw a RangeError (the array length is not an integer);
    outside that range the clamp hides the fraction. *)
Theorem new_fractional (q : Q) :
  Js.is_integer q = false ->
  (10 < q)%Q -> (q < 10000)%Q ->
  new (Js.Fin q) = Throw RangeError.
Proof.
  intros Hint Hlo Hhi. unfold new, clamp, Js.Math_max, Js.Math_min, Js.of_Z, Js.gt.
  assert (H1 : Qle_bool q (inject_Z 10000) = true).
  { apply Qle_bool_iff, Qlt_le_weak, Hhi. }
  rewrite H1. simpl.
  assert (H2 : Qle_bool q (inject_Z 10) = false).
  { destruct (Qle_bool q (inject_Z 10)) eqn:E; [|reflexivity].
    apply Qle_bool_iff in E. exfalso. apply (Qlt_not_le _ _ Hlo). exact E. }
  rewrite H2. simpl. rewrite Hint. reflexivity.
Qed.

Lemma new_fractional_witness :
  new (Js.Fin (21 # 2)) = Throw RangeError.
Proof.
  apply new_fractional; [reflexivity| |]; unfold Qlt; simpl; lia.
Defined.

(** X3: on a constructed buffer the backing array never grows and the
    capacity never changes, whatever is pushed; the number of retained
    lines is the number of pushes capped at the capacity, and the buffer
    is marked filled exactly once the pushes reach the capacity. *)
Theorem pushes_bounded (requested : Js.number) (rb0 : t)
    (lines : list string) :
  new requested = Ok rb0 ->
  let rb := pushes lines rb0 in
  capacity rb = capacity rb0 /\
  length (buffer rb) = capacity rb0 /\
  index rb < capacity rb0 /\
  length (toArray None rb) = min (length lines) (capacity rb0) /\
  (filled rb = true <-> capacity rb0 <= length lines).
Proof.
  intros Hnew rb.
  destruct (new_inv _ _ Hnew) as [Hrange Hinv0].
  assert (HC : 0 < capacity rb0) by lia.
  pose proof (pushes_inv (capacity rb0) lines rb0 HC Hinv0) as Hinv.
  fold rb in Hinv.
  pose proof (toArray_all_inv _ _ _ Hinv) as Hout.
  destruct Hinv as (Hc & Hl & Hi & Hd).
  split; [exact Hc|]. split; [exact Hl|]. split; [exact Hi|]. split.
  - rewrite Hout, length_fmap, length_drop. lia.
  - destruct (filled rb).
    + split; [intros _; apply Hd|reflexivity].
    + split; [discriminate|]. destruct Hd as [Hd _]. lia.
Qed.

Lemma pushes_bounded_witness :
  length (toArray None
            (pushes ["a"; "b"; "c"]
               (mk 10 (replicate 10 None) 0 false))) = 3.
Proof.
  exact (proj1 (proj2 (proj2 (proj2
    (pushes_bounded (Js.of_Z 10) (mk 10 (replicate 10 None) 0 false)
       ["a"; "b"; "c"] eq_refl))))).
Defined.

(** X4: a limit that is an integer at least as large as the number of
    retained entries, or that is +Infinity, returns everything. *)
Theorem toArray_large_limit (rb : t) :
  (forall L : nat, 1 <= L -> length (toArray None rb) <= L ->
     toArray (Some (Js.of_nat L)) rb = toArray None rb) /\
  toArray (Some Js.Infinity) rb = toArray None rb.
Proof.
  split.
  - intros L H1 H2. rewrite toArray_positive by exact H1.
    replace (length (toArray None rb) - L) with 0 by lia. reflexivity.
  - unfold toArray. set (data := if filled rb then _ else _).
    cbn. change (Js.trunc (inject_Z 0)) with 0%Z.
    replace (Z.to_nat (0 `min` Z.of_nat (length data))) with 0 by lia.
    reflexivity.
Qed.

Lemma toArray_large_limit_witness :
  toArray (Some (Js.of_nat 5))
    (pushes ["a"; "b"] (mk 10 (replicate 10 None) 0 false))
  = [Some "a"; Some "b"].
Proof.
  refine (proj1 (toArray_large_limit
                   (pushes ["a"; "b"] (mk 10 (replicate 10 None) 0 false)))
            5 _ _); simpl; lia.
Defined.

End RingBufferMore.
(** * Further properties of the line splitter *)
Section LineSplitterMore.

Import LineSplitter.

Lemma strip_cr_LF_free (s : string) : LF_free s -> LF_free (strip_cr s).
Proof.
  unfold LF_free. induction s as [|a r IH]; [auto|].
  cbn [indexOf]. destruct (Ascii.eqb a LF) eqn:Ea; [discriminate|].
  destruct (indexOf LF r) eqn:Er; [discriminate|]. intros _.
  destruct r as [|b r'].
  - cbn [strip_cr]. destruct (Ascii.eqb a CR); [reflexivity|].
    cbn [indexOf]. rewrite Ea. reflexivity.
  - change (strip_cr (String a (String b r')))
      with (String a (strip_cr (String b r'))).
    cbn [indexOf]. rewrite Ea. rewrite IH by reflexivity. reflexivity.
Qed.

Lemma emit_record_line (lines out : list string) :
  emit record_line lines out = out ++ lines.
Proof.
  revert out; induction lines as [|l ls IH]; intros out.
  - rewrite app_nil_r. reflexivity.
  - unfold emit in *. cbn [foldl]. rewrite IH. unfold record_line.
    rewrite <- app_assoc. reflexivity.
Qed.

(** X5: at any point of the stream, before its end, every line that a
    line feed has completed so far has already been handed to the sink,
    once and in order, without its one trailing carriage return (when it
    has one), and the splitter holds the unterminated remainder, nothing
    else: when the text so far is the segments [segs], a line feed after
    each, followed by [rest], all free of line feeds, the splitter holds
    [rest] and the sink has received the segments, stripped. *)
Theorem feed_emits_completed_lines {S} (onLine : string -> S -> S)
    (chunks : list string) (sink : S) (segs lines : list string)
    (rest : string) :
  concat_chunks chunks = join_LF segs rest ->
  Forall LF_free segs -> LF_free rest -> Forall2 stripped segs lines ->
  feed onLine chunks (EmptyString, sink) = (rest, emit onLine lines sink).
Proof.
  intros Htext Hsegs Hrest Hlines.
  rewrite feed_split by reflexivity.
  change (String.app EmptyString (concat_chunks chunks))
    with (concat_chunks chunks).
  rewrite Htext, (split_LF_of_join _ _ Hsegs Hrest).
  rewrite (stripped_lines _ _ Hlines). reflexivity.
Qed.

Lemma feed_emits_completed_lines_witness :
  feed record_line ["ab"; String "c" (String CR (String LF "d"))]
    (EmptyString, [])
  = ("d", ["abc"]).
Proof.
  refine (feed_emits_completed_lines record_line
            ["ab"; String "c" (String CR (String LF "d"))] []
            [String.app "abc" (String CR EmptyString)] ["abc"] "d" _ _ _ _).
  - reflexivity.
  - repeat constructor.
  - reflexivity.
  - constructor; [left; reflexivity|constructor].
Defined.

(** X6: no line handed to the sink contains a line feed. *)
Theorem emitted_lines_LF_free (chunks : list string) :
  Forall LF_free (streamLines record_line chunks []).
Proof.
  unfold streamLines. rewrite feed_split by reflexivity.
  change (String.app EmptyString (concat_chunks chunks))
    with (concat_chunks chunks).
  pose proof (split_LF_segs_no_LF (concat_chunks chunks)) as Hsegs.
  pose proof (split_LF_rest_no_LF (concat_chunks chunks)) as Hrest.
  destruct (split_LF (concat_chunks chunks)) as [segs rest].
  cbn [fst snd] in *. unfold on_end. cbn [fst snd].
  rewrite emit_record_line. cbn [app].
  assert (Hm : Forall LF_free (map strip_cr segs)).
  { induction Hsegs; constructor; [apply strip_cr_LF_free|]; assumption. }
  destruct rest; [exact Hm|].
  unfold record_line. apply Forall_app. split; [exact Hm|].
  constructor; [exact Hrest|constructor].
Qed.

Lemma split_LF_terminated (lines : list string) :
  Forall LF_free lines ->
  split_LF (terminated (String LF EmptyString) lines) = (lines, EmptyString).
Proof.
  induction 1 as [|l ls Hl _ IH]; [reflexivity|].
  cbn [terminated foldr]. fold (terminated (String LF EmptyString) ls).
  change (String.app (String LF EmptyString) (terminated (String LF EmptyString) ls))
    with (String LF (terminated (String LF EmptyString) ls)).
  rewrite split_LF_line by exact Hl. rewrite IH. reflexivity.
Qed.

Lemma snoc_CR_LF_free (l : string) :
  LF_free l -> LF_free (String.app l (String CR EmptyString)).
Proof.
  unfold LF_free. induction l as [|a r IH]; [reflexivity|].
  cbn [indexOf]. destruct (Ascii.eqb a LF) eqn:Ea; [discriminate|].
  destruct (indexOf LF r) eqn:Er; [discriminate|]. intros _.
  rewrite str_app_cons. cbn [indexOf]. rewrite Ea, IH by reflexivity.
  reflexivity.
Qed.

Lemma split_LF_terminated_CRLF (lines : list string) :
  Forall LF_free lines ->
  split_LF (terminated CRLF lines)
  = (map (fun l => String.app l (String CR EmptyString)) lines, EmptyString).
Proof.
  induction 1 as [|l ls Hl _ IH]; [reflexivity|].
  cbn [terminated foldr map]. fold (terminated CRLF ls).
  assert (E : String.app l (String.app CRLF (terminated CRLF ls))
              = String.app (String.app l (String CR EmptyString))
                  (String LF (terminated CRLF ls))).
  { rewrite <- str_app_assoc. reflexivity. }
  rewrite E, split_LF_line by (apply snoc_CR_LF_free, Hl).
  rewrite IH. reflexivity.
Qed.

(** X7: writing lines out and splitting them gives the lines back, in
    any chunking: lines free of line feeds written with a CR LF after
    each are emitted exactly as they were; written with a bare LF after
    each they are emitted exactly as they were provided none ends in a
    carriage return. *)
Theorem streamLines_round_trip (lines chunks : list string) :
  Forall LF_free lines ->
  (concat_chunks chunks = terminated CRLF lines ->
   streamLines record_line chunks [] = lines) /\
  (Forall (fun l => last_char l <> Some CR) lines ->
   concat_chunks chunks = terminated (String LF EmptyString) lines ->
   streamLines record_line chunks [] = lines).
Proof.
  intros Hfree.
  assert (Hrun : forall segs,
             split_LF (concat_chunks chunks) = (segs, EmptyString) ->
             streamLines record_line chunks [] = map strip_cr segs).
  { intros segs Hs. unfold streamLines. rewrite feed_split by reflexivity.
    change (String.app EmptyString (concat_chunks chunks))
      with (concat_chunks chunks).
    rewrite Hs. unfold on_end. cbn [fst snd]. apply emit_record_line. }
  split.
  - intros E. rewrite (Hrun _ ltac:(rewrite E; apply split_LF_terminated_CRLF, Hfree)).
    rewrite map_map. clear. induction lines as [|l ls IH]; [reflexivity|].
    cbn [map]. rewrite strip_cr_snoc, IH. reflexivity.
  - intros Hcr E.
    rewrite (Hrun _ ltac:(rewrite E; apply split_LF_terminated, Hfree)).
    clear -Hcr. induction Hcr as [|l ls Hl _ IH]; [reflexivity|].
    cbn [map]. rewrite strip_cr_id, IH by exact Hl. reflexivity.
Qed.

Lemma streamLines_round_trip_witness :
  streamLines record_line
    ["he"; String.app "llo" (String CR (String LF "wor"));
     String.app "ld" CRLF] []
  = ["hello"; "world"].
Proof.
  refine (proj1 (streamLines_round_trip ["hello"; "world"] _ _) _).
  - repeat constructor.
  - vm_compute. reflexivity.
Defined.

End LineSplitterMore.
(** * Further properties of the supervisor *)
Section SupervisorMore.

(** X8: [create] without [replaceIfExists] on an id that the map already
    holds fails with the conflict error (status 409) and leaves the whole
    state as it was: no signal, no directory, no file, no process, and the
    existing record untouched. *)
Theorem create_conflict (h : Host) (input : CreateInput.t)
    (sched : list Tick) (s : State) (id : string) :
  CreateInput.id input = Some id ->
  map_has id (processes s) = true ->
  default false (CreateInput.replaceIfExists input) = false ->
  FrpsManager.create h input sched s
  = (Throw (HttpError 409 (conflict_message id)), s, sched).
Proof.
  intros Hid Hhas Hrep. unfold FrpsManager.create.
  rewrite Hid, Hhas, Hrep. reflexivity.
Qed.

Lemma wait_over_running id s p pid startedAt :
  FrpsManager.get id s = Some p ->
  state_of p s = Some (running pid startedAt) ->
  FrpsManager.wait_over id s = false.
Proof.
  intros Hg Hs. unfold FrpsManager.wait_over, FrpsManager.look.
  rewrite Hg, Hs. reflexivity.
Qed.






Lemma set_clock_same (s : State) : set_clock (clock s) s = s.
Proof. destruct s; reflexivity. Qed.

(** The polling loop when nothing else happens meanwhile. *)
Lemma poll_idle id startWait timeout sched s :
  sched = [] ->
  FrpsManager.wait_over id s = false ->
  exists c,
    FrpsManager.poll id startWait timeout sched s = (set_clock c s, []) /\
    ((timeout <= clock s - startWait -> c = clock s) /\
     (clock s - startWait < timeout ->
      timeout <= c - startWait < timeout + 50))%Z.
Proof.
  funelim (FrpsManager.poll id startWait timeout sched s);
    intros Hsched Hover; subst sched.
  - exists (clock s). rewrite set_clock_same. split; [reflexivity|].
    match goal with
    | E : (_ <? _)%Z = false |- _ => pose proof (proj1 (Z.ltb_ge _ _) E)
    end. split; [reflexivity|lia].
  - congruence.
  - match goal with
    | E : (_ <? _)%Z = true |- _ => pose proof (proj1 (Z.ltb_lt _ _) E) as Hin0
    end.
    match goal with
    | IH : _ -> _ -> exists c, _ |- _ =>
        destruct (IH eq_refl Hover) as (c & Hc & Hge & Hlt')
    end.
    exists c. cbn [await_ fst snd] in *. split.
    + rewrite Hc. destruct s; reflexivity.
    + split; [lia|]. intros _.
      cbn [clock set_clock] in Hge, Hlt'.
      destruct (Z.lt_ge_cases (clock s + 50 - startWait) timeout) as [Hin|Hout].
      * specialize (Hlt' Hin). lia.
      * specialize (Hge Hout). lia.
Qed.

(** X10: [stop] on a process that ignores the graceful signal, with
    nothing else going on.  With a [timeoutMs] that is a positive whole
    number of milliseconds it returns true with the record still running
    after a wait of at least [timeoutMs] and less than [timeoutMs] + 50
    milliseconds, having sent SIGTERM only, or SIGTERM and then SIGKILL
    when [force] is set.  With [timeoutMs] Infinity it never returns. *)
Theorem stop_ignored_sigterm (id : string) (options : option StopOptions)
    (s : State) (p : loc) (pid startedAt : Z) :
  FrpsManager.get id s = Some p ->
  state_of p s = Some (running pid startedAt) ->
  (forall t : Z,
     timeout_of options = Js.of_Z t -> (0 < t)%Z ->
     exists c,
       FrpsManager.stop id options [] s
       = Some (Ok true,
               set_signals
                 (signals s ++ (pid, SIGTERM) ::
                    (if force_of options then [(pid, SIGKILL)] else []))
                 (set_clock c s), []) /\
       (clock s + t <= c < clock s + t + 50)%Z) /\
  (timeout_of options = Js.Infinity ->
   FrpsManager.stop id options [] s = None).
Proof.
  intros Hget Hst.
  rewrite (stop_on_running id options [] s p pid startedAt Hget Hst).
  set (s1 := FrpsManager.kill pid SIGTERM s).
  assert (Hover : FrpsManager.wait_over id s1 = false).
  { apply (wait_over_running id s1 p pid startedAt); assumption. }
  split.
  - intros t Et Hpos. rewrite Et. unfold Js.of_Z. cbn [FrpsManager.wait].
    rewrite Qceiling_Z.
    destruct (poll_idle id (clock s) t [] s1 eq_refl Hover)
      as (c & -> & _ & Hc).
    specialize (Hc ltac:(change (clock s1) with (clock s); lia)).
    exists c. split; [|lia].
    unfold FrpsManager.finish, FrpsManager.look.
    change (FrpsManager.get id (set_clock c s1)) with (FrpsManager.get id s).
    rewrite Hget.
    change (state_of p (set_clock c s1)) with (state_of p s). rewrite Hst.
    destruct (force_of options); unfold FrpsManager.kill, s1; cbn.
    + rewrite <- app_assoc. reflexivity.
    + reflexivity.
  - intros ->. cbn [FrpsManager.wait FrpsManager.poll_forever].
    rewrite Hover. reflexivity.
Qed.


Lemma create_resolved_reaches_spawn h input id sched s :
  resolves h (locator input) s = true ->
  mkdir_ok h (workDir_of h id) = true ->
  writeFile_ok h (configPath_of h id) = true ->
  exists s3 sched3,
    quiet s s3 /\
    dirs s3 = {[workDir_of h id]} ∪ dirs s /\
    files s3 = <[configPath_of h id := config_text h input]> (files s) /\
    FrpsManager.create_resolved h input id sched s
    = (fst (FrpsManager.spawn_and_register h input id (locator input)
              (configPath_of h id) (workDir_of h id) s3),
       snd (FrpsManager.spawn_and_register h input id (locator input)
              (configPath_of h id) (workDir_of h id) s3),
       sched3).
Proof.
  intros Hres Hmk Hwr. unfold FrpsManager.create_resolved.
  fold (locator input). fold (workDir_of h id). fold (configPath_of h id).
  fold (config_text h input).
  destruct (assertBinaryExists_spec h (locator input) sched s)
    as (s1 & sched1 & -> & Q1 & [D1 F1]). rewrite Hres.
  destruct (mkdir_spec h (workDir_of h id) sched1 s1)
    as (s2 & sched2 & -> & Q2 & F2 & D2). rewrite Hmk in *.
  destruct (writeFile_spec h (configPath_of h id) (config_text h input)
              sched2 s2) as (s3 & sched3 & -> & Q3 & D3 & F3).
  rewrite Hwr in *.
  exists s3, sched3.
  split; [eapply quiet_trans; [eapply quiet_trans|]; eassumption|].
  split; [congruence|]. split; [congruence|].
  destruct (FrpsManager.spawn_and_register _ _ _ _ _ _ s3); reflexivity.
Qed.

Lemma map_set_absent id v (m : list (string * loc)) :
  map_has id m = false -> map_set id v m = m ++ [(id, v)].
Proof.
  unfold map_has. induction m as [|[k w] m IH]; simpl; [reflexivity|].
  destruct (String.eqb k id); [discriminate|].
  intros H. rewrite IH by exact H. reflexivity.
Qed.

(** The synchronous end of a successful [create], spelled out. *)
Lemma spawn_and_register_ok h input id s pid rb :
  spawn_pid h (length (spawned s)) (locator input) (args_of h input id)
  = Some pid ->
  RingBuffer.new (default (Js.of_Z 1000) (CreateInput.logLines input))
  = Ok rb ->
  exists p' s' m',
    FrpsManager.spawn_and_register h input id (locator input)
      (configPath_of h id) (workDir_of h id) s = (Ok p', s') /\
    metas s !! p' = None /\
    processes s' = map_set id p' (processes s) /\
    dirs s' = dirs s /\ files s' = files s /\ signals s' = signals s /\
    clock s' = clock s /\
    spawned s' = spawned s ++
                 [(pid, locator input, args_of h input id, workDir_of h id)] /\
    deref p' s'
    = Some (mkSnapshot m' (Some (args_of h input id)) (Some (env_of h input))
              (Some (running pid (clock s))) (Some rb)) /\
    Meta.id m' = id /\ Meta.binaryPath m' = locator input /\
    Meta.workDir m' = workDir_of h id /\
    Meta.configPath m' = configPath_of h id /\
    children s' = children s ++
                  [mkChild pid id (clock s) (Meta.logBuffer m') false
                     (Some EmptyString) (Some EmptyString)].
Proof.
  intros Hpid Hrb. unfold FrpsManager.spawn_and_register.
  fold (args_of h input id). fold (env_of h input).
  rewrite Hpid, Hrb.
  do 3 eexists. split; [reflexivity|].
  cbn [metas processes dirs files signals clock spawned children
       set_spawned arrays envs states buffers].
  split; [apply not_elem_of_dom, is_fresh|].
  do 6 (split; [reflexivity|]).
  split.
  - unfold deref. cbn [metas arrays envs states buffers].
    rewrite lookup_insert_eq.
    cbn [Meta.args Meta.env Meta.state Meta.logBuffer].
    rewrite !lookup_insert_eq. reflexivity.
  - cbn. repeat split.
Qed.

(** [create] on an id that the map does not hold, with a binary that
    resolves and a host that cooperates. *)
Lemma create_fresh_spec h input sched s :
  map_has (id_of h input s) (processes s) = false ->
  resolves h (locator input) s = true ->
  cooperative h input (id_of h input s) ->
  exists p' s' sched' pid rb m',
    FrpsManager.create h input sched s = (Ok p', s', sched') /\
    spawn_pid h (length (spawned s)) (locator input)
      (args_of h input (id_of h input s)) = Some pid /\
    RingBuffer.new (default (Js.of_Z 1000) (CreateInput.logLines input))
    = Ok rb /\
    metas s !! p' = None /\
    processes s' = processes s ++ [(id_of h input s, p')] /\
    dirs s' = {[workDir_of h (id_of h input s)]} ∪ dirs s /\
    files s' = <[configPath_of h (id_of h input s) := config_text h input]>
                 (files s) /\
    signals s' = signals s /\
    spawned s' = spawned s ++
                 [(pid, locator input, args_of h input (id_of h input s),
                   workDir_of h (id_of h input s))] /\
    deref p' s'
    = Some (mkSnapshot m' (Some (args_of h input (id_of h input s)))
              (Some (env_of h input))
              (Some (running pid (clock s'))) (Some rb)) /\
    Meta.id m' = id_of h input s /\
    Meta.binaryPath m' = locator input /\
    Meta.workDir m' = workDir_of h (id_of h input s) /\
    Meta.configPath m' = configPath_of h (id_of h input s).
Proof.
  intros Hhas Hres (Hmk & Hwr & Hsp & rb & Hrb).
  unfold FrpsManager.create.
  assert (Hpair : (match CreateInput.id input with
                   | Some i => (i, s)
                   | None => (randomUUID h (uuids s), set_uuids (S (uuids s)) s)
                   end) = (id_of h input s, id_drawn input s)).
  { unfold id_of, id_drawn. destruct (CreateInput.id input); reflexivity. }
  rewrite Hpair. set (id := id_of h input s) in *.
  set (s0 := id_drawn input s).
  assert (H0 : processes s0 = processes s /\ dirs s0 = dirs s /\
               files s0 = files s /\ signals s0 = signals s /\
               spawned s0 = spawned s /\ metas s0 = metas s /\
               resolves h (locator input) s0 = true).
  { unfold s0, id_drawn. destruct (CreateInput.id input);
      repeat split; auto. }
  destruct H0 as (P0 & D0 & F0 & S0 & W0 & M0 & Hres0).
  rewrite P0, Hhas.
  destruct (create_resolved_reaches_spawn h input id sched s0 Hres0 Hmk Hwr)
    as (s3 & sched3 & Q & D3 & F3 & ->).
  destruct Q as (P3 & S3 & W3 & Ms & _ & _).
  destruct (Hsp (length (spawned s3)) (args_of h input id)) as [pid Hpid].
  destruct (spawn_and_register_ok h input id s3 pid rb Hpid Hrb)
    as (p' & s' & m' & -> & Hnew & P & D & F & S & C & W & Hd & Hm).
  cbn [fst snd].
  exists p', s', sched3, pid, rb, m'. split; [reflexivity|].
  split; [rewrite <- W0, <- W3; exact Hpid|]. split; [exact Hrb|].
  split.
  { rewrite <- M0. destruct (metas s0 !! p') as [m|] eqn:E; [|reflexivity].
    destruct (Ms p' m E) as [l Hl]. congruence. }
  split.
  { rewrite P, P3, P0. apply map_set_absent, Hhas. }
  split; [congruence|]. split; [congruence|]. split; [congruence|].
  split; [rewrite W, W3, W0; reflexivity|].
  split; [rewrite C; exact Hd|].
  destruct Hm as (A & B & E & G & _). auto.
Qed.


Lemma map_get_app_absent id id' v (m : list (string * loc)) :
  map_get id' (m ++ [(id, v)])
  = match map_get id' m with
    | Some w => Some w
    | None => if String.eqb id id' then Some v else None
    end.
Proof.
  induction m as [|[k w] m IH]; simpl; [reflexivity|].
  destruct (String.eqb k id'); [reflexivity|exact IH].
Qed.

(** X11: [create] on an id that the map does not hold, when the binary
    resolves and the host cooperates, returns a new record object and
    appends it to the map under that id, in state [running] with the pid
    of the spawned process and the current time; every other id keeps its
    record; the working directory derived from the id is created, the
    config file is written into it, exactly one process is spawned, with
    the resolved binary and that directory as its working directory, and
    no signal is sent. *)
Theorem create_fresh_installs (h : Host) (input : CreateInput.t)
    (sched : list Tick) (s : State) :
  map_has (id_of h input s) (processes s) = false ->
  resolves h (locator input) s = true ->
  cooperative h input (id_of h input s) ->
  exists p' s' sched' pid args text,
    FrpsManager.create h input sched s = (Ok p', s', sched') /\
    metas s !! p' = None /\
    processes s' = processes s ++ [(id_of h input s, p')] /\
    FrpsManager.get (id_of h input s) s' = Some p' /\
    (forall id', id' <> id_of h input s ->
       FrpsManager.get id' s' = FrpsManager.get id' s) /\
    state_of p' s' = Some (running pid (clock s')) /\
    dirs s' = {[workDir_of h (id_of h input s)]} ∪ dirs s /\
    files s' = <[configPath_of h (id_of h input s) := text]> (files s) /\
    spawned s' = spawned s ++
                 [(pid, locator input, args, workDir_of h (id_of h input s))] /\
    signals s' = signals s.
Proof.
  intros Hhas Hres Hco.
  destruct (create_fresh_spec h input sched s Hhas Hres Hco)
    as (p' & s' & sched' & pid & rb & m' & E & _ & _ & Hnew & P & D & F & S
        & W & Hd & _).
  exists p', s', sched', pid, (args_of h input (id_of h input s)),
    (config_text h input).
  split; [exact E|]. split; [exact Hnew|]. split; [exact P|].
  assert (Hnone : map_get (id_of h input s) (processes s) = None).
  { unfold map_has in Hhas. destruct (map_get _ _); [discriminate|reflexivity]. }
  split.
  { unfold FrpsManager.get. rewrite P, map_get_app_absent, Hnone.
    rewrite String.eqb_refl. reflexivity. }
  split.
  { intros id' Hne. unfold FrpsManager.get. rewrite P, map_get_app_absent.
    destruct (map_get id' (processes s)); [reflexivity|].
    destruct (String.eqb_spec (id_of h input s) id'); [congruence|reflexivity]. }
  split.
  { unfold deref in Hd. unfold state_of.
    destruct (metas s' !! p') as [m|]; [|discriminate].
    injection Hd as _ _ _ Hst _. exact Hst. }
  auto.
Qed.

(** A [create] that gets through binary resolution with success has
    found the binary and was let through by the host. *)
Lemma create_resolved_ok_inv h input id sched s p' s' sched' :
  FrpsManager.create_resolved h input id sched s = (Ok p', s', sched') ->
  resolves h (locator input) s = true /\
  mkdir_ok h (workDir_of h id) = true /\
  writeFile_ok h (configPath_of h id) = true.
Proof.
  unfold FrpsManager.create_resolved.
  fold (locator input). fold (workDir_of h id). fold (configPath_of h id).
  fold (config_text h input).
  destruct (assertBinaryExists_spec h (locator input) sched s)
    as (s1 & sched1 & -> & _).
  destruct (resolves h (locator input) s); [|discriminate].
  destruct (mkdir_spec h (workDir_of h id) sched1 s1)
    as (s2 & sched2 & -> & _).
  destruct (mkdir_ok h (workDir_of h id)); [|discriminate].
  destruct (writeFile_spec h (configPath_of h id) (config_text h input)
              sched2 s2) as (s3 & sched3 & -> & _).
  destruct (writeFile_ok h (configPath_of h id)); [|discriminate].
  auto.
Qed.

(** What a successful [create] has done from binary resolution on. *)
Lemma create_resolved_ok h input id sched s p' s' sched' :
  FrpsManager.create_resolved h input id sched s = (Ok p', s', sched') ->
  exists s3 pid rb m',
    quiet s s3 /\
    dirs s3 = {[workDir_of h id]} ∪ dirs s /\
    files s3 = <[configPath_of h id := config_text h input]> (files s) /\
    RingBuffer.new (default (Js.of_Z 1000) (CreateInput.logLines input))
    = Ok rb /\
    metas s3 !! p' = None /\
    processes s' = map_set id p' (processes s3) /\
    dirs s' = dirs s3 /\ files s' = files s3 /\ signals s' = signals s3 /\
    clock s' = clock s3 /\
    spawned s' = spawned s3 ++
                 [(pid, locator input, args_of h input id, workDir_of h id)] /\
    deref p' s'
    = Some (mkSnapshot m' (Some (args_of h input id)) (Some (env_of h input))
              (Some (running pid (clock s3))) (Some rb)) /\
    Meta.id m' = id /\ Meta.binaryPath m' = locator input /\
    Meta.workDir m' = workDir_of h id /\
    Meta.configPath m' = configPath_of h id.
Proof.
  intros E.
  destruct (create_resolved_ok_inv _ _ _ _ _ _ _ _ E) as (Hres & Hmk & Hwr).
  destruct (create_resolved_reaches_spawn h input id sched s Hres Hmk Hwr)
    as (s3 & sched3 & Q & D3 & F3 & E3).
  rewrite E3 in E.
  destruct (spawn_pid h (length (spawned s3)) (locator input)
              (args_of h input id)) as [pid|] eqn:Hpid.
  2:{ unfold FrpsManager.spawn_and_register in E.
      fold (args_of h input id) in E. rewrite Hpid in E. discriminate E. }
  destruct (RingBuffer.new
              (default (Js.of_Z 1000) (CreateInput.logLines input)))
    as [rb|e] eqn:Hrb.
  2:{ unfold FrpsManager.spawn_and_register in E.
      fold (args_of h input id) in E. rewrite Hpid, Hrb in E.
      discriminate E. }
  destruct (spawn_and_register_ok h input id s3 pid rb Hpid Hrb)
    as (q & s4 & m' & E4 & Hnew & P & D & F & S & C & W & Hd & Hi & Hb & Hw
        & Hc & _).
  rewrite E4 in E. cbn [fst snd] in E. injection E as <- <- <-.
  exists s3, pid, rb, m'. auto 20.
Qed.

(** A successful [create] is a successful [create] from binary
    resolution on, in the state after the id was drawn and, on the id of
    an existing record, after that record was stopped. *)
Lemma create_ok_resolved h input sched s p' s' sched' :
  FrpsManager.create h input sched s = (Ok p', s', sched') ->
  exists s1 sched1,
    FrpsManager.create_resolved h input (id_of h input s) sched1 s1
    = (Ok p', s', sched').
Proof.
  unfold FrpsManager.create.
  assert (Hpair : (match CreateInput.id input with
                   | Some i => (i, s)
                   | None => (randomUUID h (uuids s), set_uuids (S (uuids s)) s)
                   end) = (id_of h input s, id_drawn input s)).
  { unfold id_of, id_drawn. destruct (CreateInput.id input); reflexivity. }
  rewrite Hpair.
  destruct (map_has _ _); [|eauto].
  destruct (default false _); [|discriminate].
  destruct (FrpsManager.stop_within _ _ _ _ _) as [[r1 s1] sched1].
  destruct r1; [eauto|discriminate].
Qed.

(** How [create] reaches binary resolution when the request is not a
    conflict: at once on a new id, and after the forced stop on the id of
    an existing record; the stop changes neither the map nor the file
    system nor the spawn log, and sends signals to the pid of that
    record only, when it is running. *)
Lemma create_enters h input sched s :
  registry_sound s ->
  map_has (id_of h input s) (processes s) = false \/
  default false (CreateInput.replaceIfExists input) = true ->
  exists s1 sched1 sigs,
    FrpsManager.create h input sched s
    = FrpsManager.create_resolved h input (id_of h input s) sched1 s1 /\
    processes s1 = processes s /\ dirs s1 = dirs s /\ files s1 = files s /\
    spawned s1 = spawned s /\
    signals s1 = signals s ++ sigs /\
    (map_has (id_of h input s) (processes s) = false -> sigs = []) /\
    Forall (fun sg => exists p startedAt,
              FrpsManager.get (id_of h input s) s = Some p /\
              state_of p s = Some (running (fst sg) startedAt)) sigs.
Proof.
  intros Hsound Hcase. unfold FrpsManager.create.
  assert (Hpair : (match CreateInput.id input with
                   | Some i => (i, s)
                   | None => (randomUUID h (uuids s), set_uuids (S (uuids s)) s)
                   end) = (id_of h input s, id_drawn input s)).
  { unfold id_of, id_drawn. destruct (CreateInput.id input); reflexivity. }
  rewrite Hpair. set (id := id_of h input s) in *.
  set (s0 := id_drawn input s).
  assert (H0 : processes s0 = processes s /\ dirs s0 = dirs s /\
               files s0 = files s /\ signals s0 = signals s /\
               spawned s0 = spawned s /\
               (forall p, state_of p s0 = state_of p s)).
  { unfold s0, id_drawn. destruct (CreateInput.id input);
      repeat split; auto. }
  destruct H0 as (P0 & D0 & F0 & S0 & W0 & St0).
  rewrite P0.
  destruct (map_has id (processes s)) eqn:Hhas.
  2:{ exists s0, sched, []. rewrite app_nil_r. auto 10. }
  destruct Hcase as [Hc|Hrep]; [discriminate|]. rewrite Hrep.
  unfold map_has in Hhas.
  destruct (map_get id (processes s)) as [p|] eqn:Hget; [|discriminate].
  destruct (sound_lookup id p s Hsound Hget) as [st Hst].
  assert (Hget0 : FrpsManager.get id s0 = Some p).
  { unfold FrpsManager.get. rewrite P0. exact Hget. }
  assert (Hst0 : state_of p s0 = Some st) by (rewrite St0; exact Hst).
  destruct st as [pid startedAt|sa ea code sg].
  - destruct (stop_running id true 1000%Z sched s0 p pid startedAt Hget0 Hst0)
      as (s2 & sched2 & _ & Q & [D F] & Hstop).
    destruct Q as (P & Sg & W & _). simpl in P, Sg, W.
    assert (Hsig : Forall (fun sg => exists p startedAt,
                     FrpsManager.get id s = Some p /\
                     state_of p s = Some (running (fst sg) startedAt))
                     [(pid, SIGTERM); (pid, SIGKILL)]).
    { repeat constructor; exists p, startedAt; split; assumption. }
    destruct Hstop as [[_ ->]|[_ ->]].
    + exists (FrpsManager.kill pid SIGKILL s2), sched2,
        [(pid, SIGTERM); (pid, SIGKILL)].
      split; [reflexivity|]. simpl.
      split; [congruence|]. split; [congruence|]. split; [congruence|].
      split; [congruence|]. split.
      { rewrite Sg, S0, <- app_assoc. reflexivity. }
      split; [discriminate|exact Hsig].
    + exists s2, sched2, [(pid, SIGTERM)].
      split; [reflexivity|].
      split; [congruence|]. split; [congruence|]. split; [congruence|].
      split; [congruence|]. split.
      { rewrite Sg, S0. reflexivity. }
      split; [discriminate|].
      inversion Hsig; subst. constructor; [assumption|constructor].
  - exists s0, sched, []. rewrite app_nil_r.
    unfold FrpsManager.stop_within, FrpsManager.look. rewrite Hget0, Hst0.
    split; [reflexivity|]. repeat (split; [assumption|]).
    split; [discriminate|constructor].
Qed.

(** X12: what the record of a successful [create] holds, on a new id as
    on the id of a replaced record.  The arguments are the caller's when
    it gave a non-empty list and [-c <config file>] otherwise; the
    environment is the host's with the caller's entries winning on a
    shared key; the config file holds the raw text when it is given and
    not empty, even if a structured configuration is given too, and the
    rendering of the structured configuration otherwise; the log buffer
    is empty. *)
Theorem create_record_contents (h : Host) (input : CreateInput.t)
    (sched : list Tick) (s : State) (p' : loc) (s' : State)
    (sched' : list Tick) :
  FrpsManager.create h input sched s = (Ok p', s', sched') ->
  exists snap args env rb,
    deref p' s' = Some snap /\
    Meta.id (snap_meta snap) = id_of h input s /\
    Meta.binaryPath (snap_meta snap) = locator input /\
    snap_args snap = Some args /\
    args = match CreateInput.args input with
           | Some (a :: rest) => a :: rest
           | _ => ["-c"; configPath_of h (id_of h input s)]
           end /\
    snap_env snap = Some env /\
    (forall k,
       env !! k = match FrpsManager.spread (CreateInput.env input) !! k with
                  | Some v => Some v
                  | None => process_env h !! k
                  end) /\
    (forall a r, CreateInput.configToml input = Some (String a r) ->
       files s' !! configPath_of h (id_of h input s) = Some (String a r)) /\
    (CreateInput.configToml input = None \/
     CreateInput.configToml input = Some EmptyString ->
     files s' !! configPath_of h (id_of h input s)
     = Some (generateToml h
               match CreateInput.config input with
               | Some JNull | None => JObj []
               | Some c => c
               end)) /\
    snap_log snap = Some rb /\
    RingBuffer.toArray None rb = [].
Proof.
  intros E.
  destruct (create_ok_resolved _ _ _ _ _ _ _ E) as (s1 & sched1 & E1).
  destruct (create_resolved_ok _ _ _ _ _ _ _ _ E1)
    as (s3 & pid & rb & m' & _ & _ & F3 & Hrb & _ & _ & _ & F & _ & _ & _
        & Hd & Hid & Hbin & _).
  exists (mkSnapshot m' (Some (args_of h input (id_of h input s)))
            (Some (env_of h input)) (Some (running pid (clock s3))) (Some rb)),
    (args_of h input (id_of h input s)), (env_of h input), rb.
  split; [exact Hd|]. cbn [snap_meta snap_args snap_env snap_log].
  split; [exact Hid|]. split; [exact Hbin|]. split; [reflexivity|].
  split; [reflexivity|]. split; [reflexivity|]. split.
  { intros k. unfold env_of. rewrite lookup_union.
    destruct (FrpsManager.spread (CreateInput.env input) !! k);
      destruct (process_env h !! k); reflexivity. }
  split.
  { intros a r Ht. rewrite F, F3, lookup_insert_eq. unfold config_text.
    rewrite Ht. reflexivity. }
  split.
  { intros Ht. rewrite F, F3, lookup_insert_eq. unfold config_text.
    destruct Ht as [-> | ->]; reflexivity. }
  split; [reflexivity|].
  unfold RingBuffer.toArray.
  unfold RingBuffer.new in Hrb.
  destruct (RingBuffer.clamp _); try discriminate.
  destruct (_ && _); [|discriminate]. injection Hrb as <-. reflexivity.
Qed.

(** X13: when the host refuses to start the process, a [create] that is
    not refused as a conflict fails with the host's error and rolls
    nothing back: the working directory and the config file it wrote
    stay, no spawn is recorded and the map holds what it held.  On a new
    id no signal is sent; on the id of an existing record the only
    signals are those of the forced stop, sent to the pid of that record
    when it was running. *)
Theorem create_spawn_failure (h : Host) (input : CreateInput.t)
    (sched : list Tick) (s : State) :
  registry_sound s ->
  map_has (id_of h input s) (processes s) = false \/
  default false (CreateInput.replaceIfExists input) = true ->
  resolves h (locator input) s = true ->
  mkdir_ok h (workDir_of h (id_of h input s)) = true ->
  writeFile_ok h (configPath_of h (id_of h input s)) = true ->
  (forall n args, spawn_pid h n (locator input) args = None) ->
  exists s' sched' sigs,
    FrpsManager.create h input sched s
    = (Throw (HostFailure "spawn"), s', sched') /\
    dirs s' = {[workDir_of h (id_of h input s)]} ∪ dirs s /\
    files s' = <[configPath_of h (id_of h input s) := config_text h input]>
                 (files s) /\
    processes s' = processes s /\ spawned s' = spawned s /\
    signals s' = signals s ++ sigs /\
    (map_has (id_of h input s) (processes s) = false -> sigs = []) /\
    Forall (fun sg => exists p startedAt,
              FrpsManager.get (id_of h input s) s = Some p /\
              state_of p s = Some (running (fst sg) startedAt)) sigs.
Proof.
  intros Hsound Hcase Hres Hmk Hwr Hsp.
  destruct (create_enters h input sched s Hsound Hcase)
    as (s1 & sched1 & sigs & -> & P1 & D1 & F1 & W1 & S1 & Hnew & Hsigs).
  assert (Hres1 : resolves h (locator input) s1 = true).
  { unfold resolves, FrpsManager.path_exists in *. rewrite D1, F1.
    exact Hres. }
  destruct (create_resolved_reaches_spawn h input (id_of h input s) sched1 s1
              Hres1 Hmk Hwr) as (s3 & sched3 & Q & D3 & F3 & ->).
  destruct Q as (P3 & S3 & W3 & _).
  unfold FrpsManager.spawn_and_register. rewrite Hsp. cbn [fst snd].
  exists s3, sched3, sigs.
  split; [reflexivity|]. split; [congruence|]. split; [congruence|].
  split; [congruence|]. split; [congruence|]. split; [congruence|].
  split; assumption.
Qed.

(** X14: a capacity that makes the buffer constructor throw (a fractional
    [logLines] between 10 and 10000, or NaN) is only noticed after the
    process has been spawned: a [create] that is not refused as a
    conflict, with a binary that resolves and a host that lets the
    directory, the file and the process be created, fails with the
    RangeError; the spawn is on record, and the map holds what it held,
    so no record leads to the new process. *)
Theorem create_bad_logLines_leaks_process (h : Host) (input : CreateInput.t)
    (sched : list Tick) (s : State) (e : Thrown) :
  registry_sound s ->
  map_has (id_of h input s) (processes s) = false \/
  default false (CreateInput.replaceIfExists input) = true ->
  resolves h (locator input) s = true ->
  mkdir_ok h (workDir_of h (id_of h input s)) = true ->
  writeFile_ok h (configPath_of h (id_of h input s)) = true ->
  (forall n args, is_Some (spawn_pid h n (locator input) args)) ->
  RingBuffer.new (default (Js.of_Z 1000) (CreateInput.logLines input))
  = Throw e ->
  exists s' sched' pid args,
    FrpsManager.create h input sched s = (Throw e, s', sched') /\
    e = RangeError /\
    spawned s' = spawned s ++
                 [(pid, locator input, args, workDir_of h (id_of h input s))] /\
    processes s' = processes s.
Proof.
  intros Hsound Hcase Hres Hmk Hwr Hsp Hrb.
  destruct (create_enters h input sched s Hsound Hcase)
    as (s1 & sched1 & sigs & -> & P1 & D1 & F1 & W1 & _).
  assert (Hres1 : resolves h (locator input) s1 = true).
  { unfold resolves, FrpsManager.path_exists in *. rewrite D1, F1.
    exact Hres. }
  destruct (create_resolved_reaches_spawn h input (id_of h input s) sched1 s1
              Hres1 Hmk Hwr) as (s3 & sched3 & Q & D3 & F3 & ->).
  destruct Q as (P3 & S3 & W3 & _).
  unfold FrpsManager.spawn_and_register.
  match goal with
  | |- context [spawn_pid h ?n ?b ?a] => destruct (Hsp n a) as [pid Hpid];
                                          rewrite Hpid
  end.
  rewrite Hrb. cbn [fst snd].
  do 4 eexists. split; [reflexivity|]. split.
  { unfold RingBuffer.new in Hrb.
    destruct (RingBuffer.clamp _); try (injection Hrb as <-; reflexivity).
    destruct (_ && _); [discriminate|]. injection Hrb as <-; reflexivity. }
  cbn [spawned set_spawned processes]. split; [|congruence].
  rewrite W3, W1. reflexivity.
Qed.


(** X15: the exit of a child whose exit was not yet handled marks the
    record that the map holds under the child's id as [exited], with the
    child's start time, the current time, the exit code and no signal;
    it changes no other field of that record and no other record, and it
    touches neither the map nor the signal log nor the file system.  When
    the map holds nothing under the id, no record changes. *)
Theorem child_exit_marks_record (i : nat) (exitCode : option Z) (s : State)
    (c : Child) :
  children s !! i = Some c ->
  c_exitHandled c = false ->
  let s' := fire (ChildExit i exitCode) s in
  processes s' = processes s /\ signals s' = signals s /\
  dirs s' = dirs s /\ files s' = files s /\
  (forall p m,
     FrpsManager.get (c_id c) s = Some p -> metas s !! p = Some m ->
     state_of p s'
     = Some (exited (c_startedAt c) (clock s) exitCode None) /\
     (exists l, metas s' !! p = Some (Meta.set_state l m)) /\
     (forall q st, q <> p -> state_of q s = Some st ->
                   state_of q s' = Some st)) /\
  (FrpsManager.get (c_id c) s = None ->
   metas s' = metas s /\ states s' = states s).
Proof.
  intros Hc Hh s'. unfold s'. cbn [fire]. rewrite Hc, Hh.
  unfold exit_watcher. simpl. unfold FrpsManager.get.
  destruct (map_get (c_id c) (processes s)) as [prev|] eqn:Hprev.
  - destruct (metas s !! prev) as [m0|] eqn:Hm0.
    + do 4 (split; [reflexivity|]). split; [|discriminate].
      intros p m [= <-] Hm. rewrite Hm0 in Hm. injection Hm as <-.
      set (l := fresh (dom (states s))).
      assert (Hl : states s !! l = None) by (apply not_elem_of_dom, is_fresh).
      split; [|split].
      * unfold state_of. simpl. rewrite lookup_insert_eq.
        simpl. rewrite lookup_insert_eq. reflexivity.
      * exists l. simpl. apply lookup_insert_eq.
      * intros q st Hne. unfold state_of. simpl.
        rewrite lookup_insert_ne by congruence.
        destruct (metas s !! q) as [mq|]; [|discriminate].
        intros Hst. rewrite lookup_insert_ne; [exact Hst|].
        intros E. rewrite <- E in Hst. congruence.
    + do 4 (split; [reflexivity|]). split; [|discriminate].
      intros p m [= <-] Hm. congruence.
  - do 4 (split; [reflexivity|]). split; [discriminate|].
    intros _. split; reflexivity.
Qed.

Lemma emit_capture_sink (l : loc) (ch : Channel) (lines : list string)
    (bufs : gmap loc RingBuffer.t) (rb : RingBuffer.t) :
  bufs !! l = Some rb ->
  emit (capture_sink l ch) lines bufs
  = <[l := RingBuffer.pushes (map (String.app (tag ch)) lines) rb]> bufs.
Proof.
  revert bufs rb; induction lines as [|x xs IH]; intros bufs rb Hl.
  - cbn. symmetry. apply insert_id, Hl.
  - unfold emit in *. cbn [foldl map].
    assert (Hstep : capture_sink l ch x bufs
                    = <[l := RingBuffer.push (String.app (tag ch) x) rb]> bufs).
    { unfold capture_sink. apply map_eq. intros k.
      rewrite lookup_alter, lookup_insert.
      destruct (decide (l = k)) as [<-|Hne]; [rewrite Hl; reflexivity|].
      reflexivity. }
    rewrite Hstep.
    rewrite (IH _ (RingBuffer.push (String.app (tag ch) x) rb))
      by apply lookup_insert_eq.
    rewrite insert_insert_eq. reflexivity.
Qed.

(** X16: a chunk of output of a child, on a stream that is still open,
    pushes onto the record's log buffer every line that the chunk
    completes, in order, each without its one trailing carriage return
    (when it has one) and with the prefix of its channel in front,
    [[stdout] ] or [[stderr] ]; the unterminated remainder stays in the
    stream's own buffer; no other log buffer, no record and nothing else
    of the state changes. *)
Theorem output_chunk_pushes_tagged_lines (i : nat) (ch : Channel)
    (chunk : string) (s : State) (c : Child) (buf : string)
    (rb : RingBuffer.t) (segs lines : list string) (rest : string) :
  children s !! i = Some c ->
  stream_of ch c = Some buf ->
  buffers s !! c_logBuffer c = Some rb ->
  String.app buf chunk = join_LF segs rest ->
  Forall LF_free segs -> LF_free rest -> Forall2 stripped segs lines ->
  fire (Output i ch chunk) s
  = set_buffers
      (<[c_logBuffer c :=
           RingBuffer.pushes
             (map (String.app match ch with
                              | Stdout => "[stdout] "
                              | Stderr => "[stderr] "
                              end) lines) rb]> (buffers s))
      (set_children (<[i := set_stream ch (Some rest) c]> (children s)) s).
Proof.
  intros Hc Hs Hrb Htext Hsegs Hrest Hlines.
  cbn [fire]. rewrite Hc, Hs. unfold LineSplitter.on_chunk. cbn [fst snd].
  rewrite drain_split, Htext, (split_LF_of_join _ _ Hsegs Hrest).
  cbn [fst snd].
  rewrite (emit_capture_sink _ _ _ _ rb Hrb).
  rewrite (stripped_lines _ _ Hlines).
  destruct ch; reflexivity.
Qed.

End SupervisorMore.
(** * Further properties of the request validator *)
Section ValidationMore.

Variable ToNumber : json -> Js.number.

Lemma validate_string_ok field message body v :
  validate_string field message body = Ok v ->
  forall i, v = Some i ->
            i <> EmptyString /\ Json.prop field body = Some (JStr i).
Proof.
  unfold validate_string.
  destruct (Json.prop field body) as [[| | |x| |]|]; try discriminate.
  - destruct (String.eqb_spec x EmptyString); [discriminate|].
    intros [= <-] i [= <-]. auto.
  - intros [= <-] i. discriminate.
Qed.

Lemma validate_logLines_ok body v :
  validate_logLines ToNumber body = Ok v ->
  forall n, v = Some n -> exists z, n = Js.of_Z z /\ (10 <= z)%Z.
Proof.
  unfold validate_logLines.
  destruct (Json.prop "logLines" body) as [x|]; [|intros [= <-] n; discriminate].
  destruct (ToNumber x) as [| |q|]; try discriminate.
  destruct (Qle_bool 10 q) eqn:E; [|discriminate].
  intros [= <-] n [= <-]. exists (Qfloor q). split; [reflexivity|].
  apply Qle_bool_iff in E. apply Qfloor_resp_le in E.
  change (Qfloor 10) with 10%Z in E. exact E.
Qed.

(** X17: a body that the validator accepts gives [create] an input that
    is well formed: an id, a binary path and a raw configuration, when
    present, are the body's own non-empty strings; a configuration is
    there, as non-empty raw text or as an array or object (possibly
    empty); [logLines], when present, is an integer of at least 10, so
    that the log buffer can always be constructed, with a capacity
    between 10 and 10000. *)
Theorem validated_input_well_formed (body : json) (input : CreateInput.t) :
  validateCreateBody ToNumber body = Ok input ->
  (forall i, CreateInput.id input = Some i ->
     i <> EmptyString /\ Json.prop "id" body = Some (JStr i)) /\
  (forall b, CreateInput.binaryPath input = Some b ->
     b <> EmptyString /\ Json.prop "binaryPath" body = Some (JStr b)) /\
  (forall t, CreateInput.configToml input = Some t ->
     t <> EmptyString /\ Json.prop "configToml" body = Some (JStr t)) /\
  (is_Some (CreateInput.configToml input) \/
   exists c, CreateInput.config input = Some c /\
             Json.truthy c = true /\ Json.is_object c = true) /\
  (forall n, CreateInput.logLines input = Some n ->
     exists z, n = Js.of_Z z /\ (10 <= z)%Z) /\
  exists rb,
    RingBuffer.new (default (Js.of_Z 1000) (CreateInput.logLines input))
    = Ok rb /\
    (10 <= Z.of_nat (RingBuffer.capacity rb) <= 10000)%Z.
Proof.
  unfold validateCreateBody.
  destruct (negb (Json.truthy body) || negb (Json.is_object body));
    [discriminate|].
  destruct (validate_string "id" _ body) as [v1|] eqn:E1; [|discriminate].
  destruct (validate_string "binaryPath" _ body) as [v2|] eqn:E2;
    [|discriminate].
  destruct (validate_string "configToml" _ body) as [v3|] eqn:E3;
    [|discriminate].
  destruct (validate_object "config" _ body) as [v4|] eqn:E4; [|discriminate].
  destruct (validate_object "env" _ body) as [v5|] eqn:E5; [|discriminate].
  destruct (validate_args body) as [v6|] eqn:E6; [|discriminate].
  destruct (validate_logLines ToNumber body) as [v7|] eqn:E7; [|discriminate].
  cbn [bind].
  destruct (negb (bool_decide (is_Some v3)) &&
            negb (from_option Json.truthy false v4)) eqn:Ec; [discriminate|].
  intros [= <-]. cbn.
  split; [apply (validate_string_ok _ _ _ _ E1)|].
  split; [apply (validate_string_ok _ _ _ _ E2)|].
  split; [apply (validate_string_ok _ _ _ _ E3)|].
  split.
  { apply andb_false_iff in Ec as [Ec|Ec]; apply negb_false_iff in Ec.
    - left. apply bool_decide_eq_true in Ec. exact Ec.
    - right. destruct v4 as [c|]; [|discriminate]. exists c.
      split; [reflexivity|]. split; [exact Ec|].
      unfold validate_object in E4.
      destruct (Json.prop "config" body) as [c'|]; [|discriminate].
      destruct (Json.is_object c') eqn:Eo; [|discriminate].
      injection E4 as <-. exact Eo. }
  split; [apply (validate_logLines_ok _ _ E7)|].
  assert (Hz : exists z, default (Js.of_Z 1000) v7 = Js.of_Z z /\ (10 <= z)%Z).
  { destruct v7 as [n|]; [|exists 1000%Z; split; [reflexivity|lia]].
    destruct (validate_logLines_ok _ _ E7 n eq_refl) as (z & -> & Hz).
    exists z. split; [reflexivity|exact Hz]. }
  destruct Hz as (z & -> & Hz). eexists. split.
  - apply (new_of_clamp _ (Z.max 10 (Z.min z 10000))); [apply clamp_of_Z|lia].
  - cbn [RingBuffer.capacity]. lia.
Qed.

(** X18: whatever the body, the validator either accepts it or fails
    with an error of status 400; it raises nothing else. *)
Theorem validateCreateBody_fails_with_400 (body : json) :
  (exists input, validateCreateBody ToNumber body = Ok input) \/
  (exists message, validateCreateBody ToNumber body = bad_request message).
Proof.
  unfold validateCreateBody.
  destruct (negb (Json.truthy body) || negb (Json.is_object body)); [eauto|].
  destruct (validate_string_cases "id" "id must be non-empty string" body)
    as [[v1 ->]| ->]; [|eauto]. cbn [bind].
  destruct (validate_string_cases "binaryPath" "binaryPath must be string"
              body) as [[v2 ->]| ->]; [|eauto]. cbn [bind].
  destruct (validate_string_cases "configToml" "configToml must be string"
              body) as [[v3 ->]| ->]; [|eauto]. cbn [bind].
  destruct (validate_object_cases "config" "config must be object" body)
    as [[v4 ->]| ->]; [|eauto]. cbn [bind].
  destruct (validate_object_cases "env" "env must be object" body)
    as [[v5 ->]| ->]; [|eauto]. cbn [bind].
  destruct (validate_args body) as [v6|e6] eqn:E6.
  2:{ right. unfold validate_args in E6.
      destruct (Json.prop "args" body) as [[]|]; try discriminate;
        try (injection E6 as <-; eauto).
      destruct (Json.strings_of _); [discriminate|].
      injection E6 as <-; eauto. }
  cbn [bind].
  destruct (validate_logLines ToNumber body) as [v7|e7] eqn:E7.
  2:{ right. unfold validate_logLines in E7.
      destruct (Json.prop "logLines" body); [|discriminate].
      destruct (ToNumber _); try (injection E7 as <-; eauto).
      destruct (Qle_bool _ _); [discriminate|].
      injection E7 as <-; eauto. }
  cbn [bind]. destruct (_ && _); eauto.
Qed.

End ValidationMore.

(** * The layout of the records of every reachable state *)
Section Layout.

Lemma fs_grows_refl s : fs_grows s s.
Proof. split; [reflexivity|auto]. Qed.

Lemma fs_grows_trans a b c : fs_grows a b -> fs_grows b c -> fs_grows a c.
Proof. intros [D1 F1] [D2 F2]. split; [etrans; eassumption|auto]. Qed.

Lemma same_fs_grows s s' : same_fs s s' -> fs_grows s s'.
Proof. intros [D F]. split; [rewrite D; reflexivity|rewrite F; auto]. Qed.

Lemma create_resolved_fs_grows h input id sched s r s' sched' :
  FrpsManager.create_resolved h input id sched s = (r, s', sched') ->
  fs_grows s s'.
Proof.
  unfold FrpsManager.create_resolved.
  destruct (assertBinaryExists_spec h (locator input) sched s)
    as (s1 & sched1 & E1 & _ & F1).
  fold (locator input). rewrite E1. apply same_fs_grows in F1.
  destruct (resolves h (locator input) s);
    [|intros [= _ <- _]; exact F1].
  match goal with
  | |- context [FrpsManager.mkdir h ?w sched1 s1] =>
      destruct (mkdir_spec h w sched1 s1) as (s2 & sched2 & E2 & _ & Fl2 & D2);
      rewrite E2
  end.
  assert (G2 : fs_grows s1 s2).
  { split; [|rewrite Fl2; auto]. rewrite D2.
    destruct (mkdir_ok h _); [apply union_subseteq_r|reflexivity]. }
  destruct (mkdir_ok h _).
  2:{ intros [= _ <- _]. eapply fs_grows_trans; eassumption. }
  match goal with
  | |- context [FrpsManager.writeFile h ?p ?t sched2 s2] =>
      destruct (writeFile_spec h p t sched2 s2)
        as (s3 & sched3 & E3 & _ & D3 & Fl3);
      rewrite E3
  end.
  assert (G3 : fs_grows s2 s3).
  { split; [rewrite D3; reflexivity|]. rewrite Fl3. intros k Hk.
    destruct (writeFile_ok h _); [|exact Hk].
    rewrite lookup_insert. destruct (decide _); [eauto|exact Hk]. }
  destruct (writeFile_ok h _).
  2:{ intros [= _ <- _].
      eapply fs_grows_trans; [eapply fs_grows_trans|]; eassumption. }
  match goal with
  | |- context [FrpsManager.spawn_and_register ?a ?b ?c ?d ?e ?f s3] =>
      destruct (FrpsManager.spawn_and_register a b c d e f s3)
        as [r4 s4] eqn:E4
  end.
  intros [= _ <- _].
  destruct (spawn_and_register_spec _ _ _ _ _ _ _ E4) as (_ & _ & F4 & _).
  apply same_fs_grows in F4.
  eapply fs_grows_trans; [|exact F4].
  eapply fs_grows_trans; [eapply fs_grows_trans|]; eassumption.
Qed.

Lemma laid_out_preserved h s s' e :
  monotone s s' -> fs_grows s s' ->
  record_laid_out h s e -> record_laid_out h s' e.
Proof.
  intros [M _] [D F] (m & Hm & Hid & Hw & Hc & Hd & Hf).
  destruct (M _ _ Hm) as [l Hl].
  exists (Meta.set_state l m). split; [exact Hl|].
  destruct m; cbn in *. repeat split; auto.
Qed.

Lemma step_layout h s s' :
  step h s s' ->
  Forall (record_laid_out h s) (processes s) ->
  Forall (record_laid_out h s') (processes s').
Proof.
  intros Hstep Hall.
  assert (Hkeep : forall s', monotone s s' -> fs_grows s s' ->
            processes s' = processes s ->
            Forall (record_laid_out h s') (processes s')).
  { intros s2 M G P. rewrite P. eapply Forall_impl; [exact Hall|].
    intros e. apply laid_out_preserved; assumption. }
  destruct Hstep as [input sched s0 r s1 sched' Hc
                    |id options sched s0 r s1 sched' Hst
                    |id options sched s0 p pid startedAt _ _ _
                    |s0 snaps s1 Hl
                    |e s0
                    |dt s0].
  - pose proof (create_monotone _ _ _ _ _ _ _ Hc) as M.
    pose proof (create_processes _ _ _ _ _ _ _ Hc) as P.
    assert (G : fs_grows s0 s1 /\
                forall p', r = Ok p' ->
                  record_laid_out h s1 (id_of h input s0, p')).
    { clear Hall Hkeep M P. revert Hc. unfold FrpsManager.create.
      assert (Hpair : (match CreateInput.id input with
                       | Some i => (i, s0)
                       | None => (randomUUID h (uuids s0),
                                  set_uuids (S (uuids s0)) s0)
                       end) = (id_of h input s0, id_drawn input s0)).
      { unfold id_of, id_drawn. destruct (CreateInput.id input); reflexivity. }
      rewrite Hpair.
      assert (G0 : fs_grows s0 (id_drawn input s0)).
      { unfold id_drawn. destruct (CreateInput.id input); apply (fs_grows_refl s0). }
      assert (Hfin : forall sch st0,
        fs_grows s0 st0 ->
        FrpsManager.create_resolved h input (id_of h input s0) sch st0
        = (r, s1, sched') ->
        fs_grows s0 s1 /\
        forall p', r = Ok p' -> record_laid_out h s1 (id_of h input s0, p')).
      { intros sch st0 G E.
        pose proof (create_resolved_fs_grows _ _ _ _ _ _ _ _ E) as G1.
        split; [eapply fs_grows_trans; eassumption|].
        intros p' ->.
        destruct (create_resolved_spec h input (id_of h input s0) sch st0)
          as (r2 & s2 & sched2 & E2 & _ & _ & _ & Hok & _).
        rewrite E in E2. injection E2 as <- <- <-.
        destruct (Hok p' eq_refl)
          as ((_ & _ & _ & m' & Hm' & Hid & Hw & Hcp) & Hd & Hf).
        exists m'. cbn [fst snd]. auto 10. }
      destruct (map_has _ _); [|apply Hfin, G0].
      destruct (default false _).
      - destruct (stop_spec (id_of h input s0) true 1000%Z sched
                    (id_drawn input s0))
          as (r1 & st1 & sch1 & -> & _ & F1 & _).
        destruct r1.
        + apply Hfin. eapply fs_grows_trans; [exact G0|].
          apply same_fs_grows, F1.
        + intros [= <- <- _]. split; [|discriminate].
          eapply fs_grows_trans; [exact G0|]. apply same_fs_grows, F1.
      - intros [= <- <- _]. split; [exact G0|discriminate]. }
    destruct G as [G Hnew].
    destruct r as [p'|e]; [|apply Hkeep; assumption].
    rewrite P. apply Forall_forall. intros e He.
    apply map_set_elem in He as [->|He]; [apply Hnew; reflexivity|].
    rewrite Forall_forall in Hall.
    eapply laid_out_preserved; eauto.
  - destruct (stop_returned_spec _ _ _ _ _ _ _ Hst)
      as (M & F & _ & P & _).
    apply Hkeep; [exact M|apply same_fs_grows, F|exact P].
  - apply Hkeep; [apply (monotone_refl s0)|apply (fs_grows_refl s0)|reflexivity].
  - pose proof (list_monotone _ _ _ Hl) as M.
    unfold FrpsManager.list in Hl.
    assert (Hal : Forall (fun e => is_Some (metas s0 !! snd e)) (processes s0)).
    { eapply Forall_impl; [exact Hall|]. intros e (m & Hm & _). eauto. }
    destruct (copy_records_spec (processes s0) [] s0 Hal)
      as (new & _ & _ & Hsame & _).
    rewrite Hl in Hsame. simpl in Hsame.
    apply Hkeep; [exact M| |]; rewrite Hsame;
      [apply (fs_grows_refl s0)|reflexivity].
  - destruct (fire_quiet e s0) as [Q F].
    apply Hkeep; [apply quiet_monotone, Q|apply same_fs_grows, F|apply Q].
  - apply Hkeep; [apply (monotone_refl s0)|apply (fs_grows_refl s0)|reflexivity].
Qed.

(** X19: in every state reached from the initial one by creates, stops,
    listings and events, each record of the map has its key as its id,
    the working directory [<runtimeRoot>/frps-<id>] and the config file
    [frps.toml] inside it, and both exist on the host. *)
Theorem reachable_records_laid_out (h : Host) (s : State) :
  rtc (step h) initial s ->
  Forall (record_laid_out h s) (processes s).
Proof.
  intros Hrtc.
  assert (H0 : Forall (record_laid_out h initial) (processes initial))
    by constructor.
  revert H0. induction Hrtc as [|a b c Hab _ IH]; [auto|].
  intros Ha. apply IH. eapply step_layout; eassumption.
Qed.

End Layout.

(** * Replacing a running record *)
Section Replacement.










End Replacement.
(** * Properties of the authentication and of the logs endpoint *)
Section AuthFacts.

Import Auth.

Lemma trim_end_app_space (x w : string) :
  trim_start w = EmptyString -> trim_end (String.app x w) = trim_end x.
Proof.
  intros Hw.
  assert (Hwe : trim_end w = EmptyString).
  { induction w as [|a r IH]; [reflexivity|].
    cbn [trim_start] in Hw. destruct (is_space a) eqn:Ea.
    - cbn [trim_end]. rewrite IH by exact Hw. rewrite Ea. reflexivity.
    - discriminate. }
  induction x as [|a r IH].
  - exact Hwe.
  - change (String.app (String a r) w) with (String a (String.app r w)).
    cbn [trim_end]. rewrite IH. reflexivity.
Qed.

Lemma trim_start_app_space (w x : string) :
  trim_start w = EmptyString -> trim_start (String.app w x) = trim_start x.
Proof.
  induction w as [|a r IH]; [reflexivity|].
  intros Hw. change (String.app (String a r) x) with (String a (String.app r x)).
  cbn [trim_start] in *. destruct (is_space a); [apply IH, Hw|discriminate].
Qed.

Lemma trim_end_never_ends_in_space (s : string) :
  match last_char (trim_end s) with
  | Some a => is_space a = false
  | None => True
  end.
Proof.
  induction s as [|a r IH]; [exact I|].
  cbn [trim_end]. destruct (trim_end r) as [|b r'] eqn:E.
  - destruct (is_space a) eqn:Ea; [exact I|exact Ea].
  - exact IH.
Qed.

Lemma trim_start_never_starts_with_space (s : string) :
  match trim_start s with
  | String a _ => is_space a = false
  | EmptyString => True
  end.
Proof.
  induction s as [|a r IH]; [exact I|].
  cbn [trim_start]. destruct (is_space a) eqn:Ea; [exact IH|exact Ea].
Qed.

Lemma trim_end_keeps_head (s : string) (a : ascii) (r : string) :
  trim_end s = String a r -> exists r0, s = String a r0.
Proof.
  destruct s as [|b s']; [discriminate|]. cbn [trim_end].
  destruct (trim_end s'); [destruct (is_space b)|];
    intros [= -> _]; eauto.
Qed.

Lemma trim_start_id (s : string) :
  match s with
  | String a _ => is_space a = false
  | EmptyString => True
  end -> trim_start s = s.
Proof. destruct s as [|a r]; [reflexivity|]. cbn. intros ->. reflexivity. Qed.

Lemma trim_end_idem (s : string) : trim_end (trim_end s) = trim_end s.
Proof.
  induction s as [|a r IH]; [reflexivity|].
  cbn [trim_end]. destruct (trim_end r) as [|b r'] eqn:E.
  - destruct (is_space a) eqn:Ea; [reflexivity|].
    cbn [trim_end]. rewrite Ea. reflexivity.
  - cbn [trim_end]. cbn [trim_end] in IH. rewrite IH. reflexivity.
Qed.

Lemma trim_idem (s : string) : trim (trim s) = trim s.
Proof.
  unfold trim.
  assert (H : trim_start (trim_end (trim_start s)) = trim_end (trim_start s)).
  { pose proof (trim_start_never_starts_with_space s) as Hh.
    destruct (trim_end (trim_start s)) as [|a r] eqn:E; [reflexivity|].
    destruct (trim_end_keeps_head _ _ _ E) as [r0 E0].
    rewrite E0 in Hh. cbn [trim_start]. rewrite Hh. reflexivity. }
  rewrite H. apply trim_end_idem.
Qed.

Lemma tight_trim_start (s : string) : tight s -> trim_start s = s.
Proof.
  unfold tight, trim. intros H.
  pose proof (trim_start_never_starts_with_space s) as Hh.
  destruct s as [|a r]; [reflexivity|].
  destruct (trim_end_keeps_head _ _ _ H) as [r0 E0].
  rewrite E0 in Hh. cbn [trim_start]. rewrite Hh. reflexivity.
Qed.

(** X20: white space around the token is tolerated: with a secret that
    has no white space at either end, the header [Bearer ], then any
    amount of white space, the secret, and any amount of white space
    again, lets the request through. *)
Theorem requireAuth_accepts_padded_token (get : string -> option string)
    (apiSecret w1 w2 : string) :
  tight apiSecret -> blank w1 -> blank w2 ->
  get "authorization"
  = Some (String.app "Bearer "
            (String.app w1 (String.app apiSecret w2))) ->
  requireAuth get apiSecret = Ok tt.
Proof.
  intros Ht H1 H2 Hget. unfold requireAuth.
  set (rest := String.app w1 (String.app apiSecret w2)) in *.
  change (String.app "Bearer " rest)
    with (String "B" (String "e" (String "a" (String "r" (String "e"
            (String "r" (String " " rest))))))) in Hget.
  rewrite Hget. cbn [or_else startsWith LineSplitter.slice_from].
  change (Ascii.eqb "B" "B" && (Ascii.eqb "e" "e" && (Ascii.eqb "a" "a" &&
          (Ascii.eqb "r" "r" && (Ascii.eqb "e" "e" && (Ascii.eqb "r" "r" &&
          (Ascii.eqb " " " " && true))))))) with true.
  cbv iota.
  assert (Htrim : trim rest = apiSecret).
  { unfold trim, rest. rewrite trim_start_app_space by exact H1.
    destruct apiSecret as [|a r] eqn:Es.
    - change (String.app EmptyString w2) with w2.
      unfold blank in H2. rewrite H2. reflexivity.
    - rewrite <- Es in *. pose proof (tight_trim_start _ Ht) as Hs.
      assert (Hss : trim_start (String.app apiSecret w2)
                    = String.app apiSecret w2).
      { rewrite Es in *.
        change (String.app (String a r) w2) with (String a (String.app r w2)).
        cbn [trim_start] in *. destruct (is_space a); [|reflexivity].
        exfalso. pose proof (trim_start_never_starts_with_space r) as Hh.
        rewrite Hs in Hh. cbn in Hh.
        clear -Hs. assert (Hl : String.length (trim_start r) <= String.length r).
        { clear. induction r as [|b r IH]; [reflexivity|].
          cbn [trim_start]. destruct (is_space b); cbn; lia. }
        rewrite Hs in Hl. cbn in Hl. lia. }
      rewrite Hss, trim_end_app_space by exact H2.
      unfold tight, trim in Ht. rewrite Hs in Ht. exact Ht. }
  rewrite Htrim, String.eqb_refl. reflexivity.
Qed.

Lemma requireAuth_accepts_padded_token_witness :
  requireAuth
    (fun name => if String.eqb name "authorization"
                 then Some "Bearer   s3cret " else None)
    "s3cret" = Ok tt.
Proof.
  apply (requireAuth_accepts_padded_token _ "s3cret" "  " " ");
    reflexivity.
Defined.

(** X21: a secret with white space at either end can never be
    presented: whatever the headers, the request is refused. *)
Theorem requireAuth_untrimmed_secret (get : string -> option string)
    (apiSecret : string) :
  trim apiSecret <> apiSecret ->
  requireAuth get apiSecret <> Ok tt.
Proof.
  intros Hs. unfold requireAuth.
  destruct (or_else _ _) as [[|a r]|]; try discriminate.
  destruct (startsWith _ _); [|discriminate].
  destruct (String.eqb_spec (trim (LineSplitter.slice_from 7 (String a r)))
              apiSecret) as [E|]; [|discriminate].
  exfalso. apply Hs. rewrite <- E. apply trim_idem.
Qed.

Lemma requireAuth_untrimmed_secret_witness :
  requireAuth (fun _ => Some "Bearer s3cret ") "s3cret " <> Ok tt.
Proof.
  apply requireAuth_untrimmed_secret. vm_compute. discriminate.
Defined.

Lemma or_of_xors_zero (a b : string) (n i : nat) (acc : Z) :
  or_of_xors a b i n acc = 0%Z <->
  acc = 0%Z /\
  forall j, i <= j < i + n -> charCodeAt a j = charCodeAt b j.
Proof.
  revert i acc; induction n as [|n IH]; intros i acc; cbn [or_of_xors].
  - split; [intros ->; split; [reflexivity|intros j Hj; lia]|intros [-> _]; reflexivity].
  - rewrite IH. rewrite Z.lor_eq_0_iff, Z.lxor_eq_0_iff. split.
    + intros [[Hacc Hi] Hrest]. split; [exact Hacc|].
      intros j Hj. destruct (decide (j = i)) as [->|Hne]; [exact Hi|].
      apply Hrest. lia.
    + intros [Hacc Hall]. split; [split; [exact Hacc|apply Hall; lia]|].
      intros j Hj. apply Hall. lia.
Qed.

Lemma get_of_charCodeAt (a b : string) :
  String.length a = String.length b ->
  (forall j, j < String.length a -> charCodeAt a j = charCodeAt b j) ->
  a = b.
Proof.
  revert b; induction a as [|x a IH]; intros [|y b]; cbn [String.length];
    try discriminate; [reflexivity|].
  intros [= Hlen] Hall. f_equal.
  - specialize (Hall 0 ltac:(lia)). unfold charCodeAt in Hall. cbn in Hall.
    apply Nat2Z.inj in Hall.
    rewrite <- (Ascii.ascii_nat_embedding x), <- (Ascii.ascii_nat_embedding y).
    congruence.
  - apply IH; [exact Hlen|]. intros j Hj.
    apply (Hall (S j)). lia.
Qed.

Lemma timingSafeEqual_eqb (a b : string) :
  timingSafeEqual a b = String.eqb a b.
Proof.
  unfold timingSafeEqual.
  destruct (String.eqb_spec a b) as [->|Hne].
  - rewrite Nat.eqb_refl. cbn [negb]. apply Z.eqb_eq.
    apply or_of_xors_zero. split; [reflexivity|reflexivity].
  - destruct (Nat.eqb_spec (String.length a) (String.length b)) as [Hl|Hl];
      [|reflexivity].
    cbn [negb]. apply Z.eqb_neq. intros H. apply Hne.
    apply or_of_xors_zero in H as [_ H].
    apply get_of_charCodeAt; [exact Hl|]. intros j Hj. apply H. lia.
Qed.

(** X22: [timingSafeEqual] answers true exactly on equal strings: the
    accumulated or of the xors of the code units is zero only when every
    pair of code units agrees. *)
Theorem timingSafeEqual_iff (a b : string) :
  timingSafeEqual a b = true <-> a = b.
Proof.
  rewrite timingSafeEqual_eqb. apply String.eqb_eq.
Qed.

(** X23: the bearer checks of the two servers decide alike: on the same
    headers and the same secret, the check that compares the token with
    [timingSafeEqual] and the one that compares it with [!==] give the
    same answer. *)
Theorem requireAuth_same_in_both_servers (get : string -> option string)
    (apiSecret : string) :
  requireAuth_timingSafe get apiSecret = requireAuth get apiSecret.
Proof.
  unfold requireAuth_timingSafe, requireAuth.
  destruct (or_else _ _) as [[|a r]|]; try reflexivity.
  destruct (startsWith _ _); [|reflexivity].
  rewrite timingSafeEqual_eqb. reflexivity.
Qed.

End AuthFacts.
Section LogsFacts.

Variable StringToNumber : string -> Js.number.

Lemma gt_inject (a b : Z) :
  Js.gt (Js.of_Z a) (Js.of_Z b) = (b <? a)%Z.
Proof.
  unfold Js.gt, Js.of_Z. rewrite Qle_bool_inject.
  destruct (Z.leb_spec a b), (Z.ltb_spec b a); try reflexivity; lia.
Qed.

(** The limit that the handler passes on is between 1 and 10000, unless
    it is not a number. *)
Lemma logs_limit_range (x : Js.number) :
  x <> Js.NaN ->
  exists q,
    Js.Math_max (Js.of_Z 1) (Js.Math_min (Js.of_Z 10000) x) = Js.Fin q /\
    (1 <= q)%Q /\ (q <= 10000)%Q.
Proof.
  intros Hx. destruct x as [| |q|]; [congruence| | |].
  - exists (inject_Z 1). split; [reflexivity|]. split; unfold Qle; simpl; lia.
  - unfold Js.Math_min, Js.of_Z, Js.gt.
    destruct (Qle_bool (inject_Z 10000) q) eqn:E1; cbn [negb].
    + exists (inject_Z 10000). split; [reflexivity|].
      split; unfold Qle; simpl; lia.
    + unfold Js.Math_max, Js.gt.
      destruct (Qle_bool q (inject_Z 1)) eqn:E2; cbn [negb].
      * exists (inject_Z 1). split; [reflexivity|].
        split; unfold Qle; simpl; lia.
      * exists q. split; [reflexivity|]. split.
        -- destruct (Qlt_le_dec q (inject_Z 1)) as [Hlt|Hle]; [|exact Hle].
           apply Qlt_le_weak, Qle_bool_iff in Hlt. congruence.
        -- destruct (Qlt_le_dec (inject_Z 10000) q) as [Hlt|Hle]; [|exact Hle].
           apply Qlt_le_weak, Qle_bool_iff in Hlt. congruence.
  - exists (inject_Z 10000). split; [reflexivity|].
    split; unfold Qle; simpl; lia.
Qed.

Lemma trunc_bound (q : Q) (len : Z) :
  (1 <= q)%Q -> (Js.trunc (inject_Z len - q) <= len - 1)%Z.
Proof.
  destruct q as [n d]. unfold Qle, Js.trunc, Qminus, Qplus, Qopp, inject_Z.
  simpl. intros Hq.
  replace (Z.pos (1 * d)) with (Z.pos d) by reflexivity.
  assert (Hd : (0 < Z.pos d)%Z) by lia.
  destruct (Z.le_gt_cases 0 (len * Z.pos d + - n * 1)) as [Hpos|Hneg].
  - rewrite Z.quot_div_nonneg by lia.
    apply Z.lt_succ_r. replace (Z.succ (len - 1)) with len by lia.
    apply Z.div_lt_upper_bound; [lia|]. nia.
  - assert (Hq0 : (Z.quot (len * Z.pos d + - n * 1) (Z.pos d) <= 0)%Z).
    { apply Z.quot_le_upper_bound; lia. }
    destruct (Z.le_gt_cases 1 len); [lia|].
    (* len <= 0: the quotient of a number below len * d *)
    apply Z.quot_le_upper_bound; [lia|]. nia.
Qed.

Lemma toArray_fin (rb : RingBuffer.t) (q : Q) :
  (1 <= q)%Q ->
  exists k,
    RingBuffer.toArray (Some (Js.Fin q)) rb
    = drop k (RingBuffer.toArray None rb) /\
    (RingBuffer.toArray None rb <> [] ->
     k < length (RingBuffer.toArray None rb)).
Proof.
  intros Hq. unfold RingBuffer.toArray.
  set (data := if RingBuffer.filled rb then _ else _).
  assert (Hgt : Js.gt (Js.Fin q) (Js.of_Z 0) = true).
  { unfold Js.gt, Js.of_Z. apply negb_true_iff.
    destruct (Qle_bool q (inject_Z 0)) eqn:E; [|reflexivity].
    apply Qle_bool_iff in E. exfalso.
    assert (H : (1 <= inject_Z 0)%Q) by (eapply Qle_trans; eassumption).
    unfold Qle in H. simpl in H. lia. }
  rewrite Hgt. unfold Js.sub, Js.of_nat, Js.of_Z, Js.Math_max, Js.gt.
  pose proof (trunc_bound q (Z.of_nat (length data)) Hq) as Hb.
  assert (Hlen : data <> [] -> 0 < length data).
  { destruct data; [congruence|simpl; lia]. }
  destruct (negb (Qle_bool _ _)) eqn:E; unfold Js.slice_from.
  - destruct (Z.ltb_spec (Js.trunc (inject_Z (Z.of_nat (length data)) - q)) 0).
    + eexists. split; [reflexivity|]. intros Hne. specialize (Hlen Hne). lia.
    + eexists. split; [reflexivity|]. intros Hne. specialize (Hlen Hne). lia.
  - change (Js.trunc (inject_Z 0)) with 0%Z. cbn.
    eexists. split; [reflexivity|]. intros Hne. specialize (Hlen Hne). lia.
Qed.

(** X24: what the logs endpoint returns.  Without [n], or with an [n]
    that is empty or not a number, it is every retained line; with an
    integer [n] it is the last [max(1, min(n, 10000))] retained lines, so
    that [n = 0] or a negative [n] gives the last line and not
    everything; and whatever [n] is, it is a run of the most recent
    lines that is not empty when the buffer is not. *)
Theorem read_logs_window (n : option string) (rb : RingBuffer.t) :
  let all := RingBuffer.toArray None rb in
  (match n with
   | None | Some EmptyString => read_logs StringToNumber n rb = all
   | Some s =>
       (StringToNumber s = Js.NaN -> read_logs StringToNumber n rb = all) /\
       (forall z, StringToNumber s = Js.of_Z z ->
          read_logs StringToNumber n rb
          = drop (length all - Z.to_nat (Z.max 1 (Z.min z 10000))) all)
   end) /\
  exists k, read_logs StringToNumber n rb = drop k all /\
            (all <> [] -> k < length all).
Proof.
  intros all. unfold read_logs, logs_limit.
  destruct n as [[|a r]|].
  - split; [reflexivity|]. exists 0. split; [reflexivity|].
    destruct all; [congruence|simpl; lia].
  - split; [split|].
    + intros ->. reflexivity.
    + intros z ->.
      assert (E : Js.Math_max (Js.of_Z 1) (Js.Math_min (Js.of_Z 10000) (Js.of_Z z))
                  = Js.of_nat (Z.to_nat (Z.max 1 (Z.min z 10000)))).
      { unfold Js.of_nat. rewrite Z2Nat.id by lia.
        unfold Js.Math_min at 1. cbn [Js.of_Z]. fold (Js.of_Z 10000).
        fold (Js.of_Z z). rewrite gt_inject.
        destruct (Z.ltb_spec z 10000).
        - unfold Js.Math_max. cbn [Js.of_Z]. fold (Js.of_Z 1). fold (Js.of_Z z).
          rewrite gt_inject. destruct (Z.ltb_spec 1 z); f_equal; lia.
        - unfold Js.Math_max. cbn [Js.of_Z]. fold (Js.of_Z 1).
          fold (Js.of_Z 10000). rewrite gt_inject.
          destruct (Z.ltb_spec 1 10000); [|lia]. f_equal; lia. }
      rewrite E. apply toArray_positive. lia.
    + destruct (StringToNumber (String a r)) as [| |q|] eqn:Ex.
      * exists 0. split; [reflexivity|]. destruct all; [congruence|simpl; lia].
      * destruct (logs_limit_range Js.NegInfinity ltac:(discriminate))
          as (q' & -> & H1 & _). apply toArray_fin, H1.
      * destruct (logs_limit_range (Js.Fin q) ltac:(discriminate))
          as (q' & -> & H1 & _). apply toArray_fin, H1.
      * destruct (logs_limit_range Js.Infinity ltac:(discriminate))
          as (q' & -> & H1 & _). apply toArray_fin, H1.
  - split; [reflexivity|]. exists 0. split; [reflexivity|].
    destruct all; [congruence|simpl; lia].
Qed.

End LogsFacts.

(** * Properties of the configuration renderer *)
Section TomlFacts.

Variable stringify : string -> string.
Variable show_number : Js.number -> string.

Lemma obj_set_absent (k : string) (v : json) (fields : list (string * json)) :
  k ∉ map fst fields -> obj_set k v fields = fields ++ [(k, v)].
Proof.
  induction fields as [|[k' v'] fields IH]; simpl; [reflexivity|].
  intros Hk. apply not_elem_of_cons in Hk as [Hne Hk].
  destruct (String.eqb_spec k' k) as [->|_]; [contradiction|].
  now rewrite IH.
Qed.

Lemma classify_fold (l : list (string * json)) :
  forall a b,
    NoDup (map fst l) ->
    (forall k, k ∈ map fst l -> k ∉ map fst b) ->
    foldl classify (a, b) l
    = (a ++ List.filter flat_entry l, b ++ List.filter table_entry l).
Proof.
  induction l as [|kv l IH]; intros a b Hnd Hb.
  - simpl. now rewrite !app_nil_r.
  - cbn [map] in Hnd. apply NoDup_cons in Hnd as [Hkv Hnd].
    cbn [foldl List.filter]. unfold classify at 2, flat_entry at 1,
      table_entry at 1.
    cbn [fst snd].
    destruct (is_table (snd kv)) eqn:Et; cbn [negb andb].
    + destruct (String.eqb (fst kv) "__proto__") eqn:Ep; cbn [negb].
      * apply IH; [exact Hnd|].
        intros k Hk. apply Hb. cbn [map]. apply elem_of_cons; now right.
      * rewrite obj_set_absent
          by (apply Hb; cbn [map]; apply elem_of_cons; now left).
        rewrite IH; [|exact Hnd|].
        -- destruct kv. cbn [fst snd]. now rewrite <- app_assoc.
        -- intros k Hk. rewrite map_app. cbn [map].
           intros Hin. apply elem_of_app in Hin as [Hin|Hin].
           ++ revert Hin. apply Hb. cbn [map].
              apply elem_of_cons; now right.
           ++ apply elem_of_cons in Hin as [->|Hin]; [contradiction|].
              inversion Hin.
    + rewrite IH; [|exact Hnd|].
      * now rewrite <- app_assoc.
      * intros k Hk. apply Hb. cbn [map]. apply elem_of_cons; now right.
Qed.

Lemma push_entry_fold (l : list (string * json)) :
  forall acc,
    foldl (push_entry stringify show_number) acc l
    = acc ++ map (entry_line stringify show_number) l.
Proof.
  induction l as [|kv l IH]; intros acc; simpl.
  - now rewrite app_nil_r.
  - rewrite IH. unfold push_entry. now rewrite <- app_assoc.
Qed.

Lemma push_table_fold (l : list (string * json)) :
  forall acc,
    foldl (push_table stringify show_number) acc l
    = acc ++ flat_map (table_block stringify show_number) l.
Proof.
  induction l as [|tbl l IH]; intros acc; simpl.
  - now rewrite app_nil_r.
  - rewrite IH. unfold push_table, table_block.
    rewrite push_entry_fold. now rewrite <- !app_assoc.
Qed.

Lemma generateToml_lines_eq (config : json) :
  NoDup (map fst (Object_entries config)) ->
  generateToml_lines stringify show_number config
  = map (entry_line stringify show_number)
      (List.filter flat_entry (Object_entries config))
    ++ flat_map (table_block stringify show_number)
         (List.filter table_entry (Object_entries config)).
Proof.
  intros Hnd. unfold generateToml_lines.
  rewrite classify_fold; [|exact Hnd|intros k _ Hin; inversion Hin].
  simpl. rewrite push_table_fold, push_entry_fold. reflexivity.
Qed.

Lemma filter_keep {A} (p : A -> bool) (l : list A) :
  Forall (fun x => p x = true) l -> List.filter p l = l.
Proof.
  induction 1 as [|x l Hx _ IH]; [reflexivity|].
  cbn [List.filter]. now rewrite Hx, IH.
Qed.

Lemma filter_drop {A} (p : A -> bool) (l : list A) :
  Forall (fun x => p x = false) l -> List.filter p l = [].
Proof.
  induction 1 as [|x l Hx _ IH]; [reflexivity|].
  cbn [List.filter]. now rewrite Hx.
Qed.

Lemma filter_swap (p : string * json -> bool)
    (l1 l2 keep1 keep2 : list (string * json)) :
  List.filter p l1 = keep1 -> List.filter p l2 = keep2 ->
  List.filter p (l1 ++ l2) = keep1 ++ keep2.
Proof.
  intros <- <-. apply List.filter_app.
Qed.

(** X25: the rendered configuration of an object (or array) lists the
    entries that are not plain objects first, in the order of the
    object, one [key = value] line each; then, for every entry that is a
    plain object, an empty line, a [[name]] header and the lines of its
    own entries, except that a table named [__proto__] is left out; the
    lines are joined by LF and the text ends in LF. *)
Theorem generateToml_layout (config : json) :
  config <> JNull ->
  NoDup (map fst (Object_entries config)) ->
  generateToml_source stringify show_number config
  = Ok (String.app
          (join (String LineSplitter.LF EmptyString)
             (map (entry_line stringify show_number)
                (List.filter flat_entry (Object_entries config))
              ++ flat_map (table_block stringify show_number)
                   (List.filter table_entry (Object_entries config))))
          (String LineSplitter.LF EmptyString)).
Proof.
  intros Hn Hnd. unfold generateToml_source.
  rewrite generateToml_lines_eq by exact Hnd.
  destruct config; [contradiction| | | | |]; reflexivity.
Qed.

(** X26: where the plain objects stand among the other entries of the
    configuration does not matter: with them written before the other
    entries the rendered text is the same as with them written after. *)
Theorem generateToml_tables_last (tables flat : list (string * json)) :
  Forall (fun kv => is_table (snd kv) = true) tables ->
  Forall (fun kv => is_table (snd kv) = false) flat ->
  NoDup (map fst (tables ++ flat)) ->
  generateToml_source stringify show_number (JObj (tables ++ flat))
  = generateToml_source stringify show_number (JObj (flat ++ tables)).
Proof.
  intros Ht Hf Hnd.
  assert (Hnd' : NoDup (map fst (flat ++ tables))).
  { rewrite map_app in *. apply NoDup_app in Hnd as (H1 & H2 & H3).
    apply NoDup_app. split; [exact H3|]. split; [|exact H1].
    intros k Hk Hk'. exact (H2 k Hk' Hk). }
  assert (F1 : List.filter flat_entry tables = []).
  { apply filter_drop. eapply Forall_impl; [exact Ht|].
    intros kv Hkv. unfold flat_entry. now rewrite Hkv. }
  assert (F2 : List.filter flat_entry flat = flat).
  { apply filter_keep. eapply Forall_impl; [exact Hf|].
    intros kv Hkv. unfold flat_entry. now rewrite Hkv. }
  assert (T2 : List.filter table_entry flat = []).
  { apply filter_drop. eapply Forall_impl; [exact Hf|].
    intros kv Hkv. unfold table_entry. now rewrite Hkv. }
  unfold generateToml_source.
  rewrite !generateToml_lines_eq by assumption.
  cbn [Object_entries].
  rewrite (filter_swap _ _ _ _ _ F1 F2), (filter_swap _ _ _ _ _ F2 F1).
  rewrite (filter_swap _ _ _ _ _ eq_refl T2), (filter_swap _ _ _ _ _ T2 eq_refl).
  now rewrite !app_nil_r.
Qed.

End TomlFacts.

(** * Properties of the proxy manager *)
Section CaddyFacts.

Import Caddy.

Lemma nonempty_strings_of_spec (items : list json) :
  forall l, nonempty_strings_of items = Some l ->
    Forall (fun x => x <> EmptyString) l /\ items = map JStr l.
Proof.
  induction items as [|x items IH]; intros l; simpl.
  - intros [= <-]. split; [constructor | reflexivity].
  - destruct x as [| | |[|a r]| |]; try discriminate.
    destruct (nonempty_strings_of items) as [l'|]; [|discriminate].
    intros [= <-]. destruct (IH l' eq_refl) as [HF ->].
    split; [constructor; [discriminate | exact HF] | reflexivity].
Qed.

(** X27: a body that the proxy validator accepts gives a request whose
    server name is a non-empty string of the body, whose id, when
    present, is non-empty, whose hosts are the body's non-empty strings
    (a single string becomes a one-element list; an empty array is
    accepted), whose upstreams are a non-empty list of the body's
    non-empty strings, and whose terminal flag is set (true unless the
    body says otherwise). *)
Theorem validated_proxy_well_formed (body : json) (out : CreateProxyBody) :
  validateCreateProxyBody body = Ok out ->
  (server out <> EmptyString /\
   Json.prop "server" body = Some (JStr (server out))) /\
  (forall i, id out = Some i ->
     i <> EmptyString /\ Json.prop "id" body = Some (JStr i)) /\
  (Forall (fun x => x <> EmptyString) (hosts out) /\
   (Json.prop "hosts" body = Some (JArr (map JStr (hosts out))) \/
    exists x, hosts out = [x] /\ Json.prop "hosts" body = Some (JStr x))) /\
  (upstreams out <> [] /\
   Forall (fun x => x <> EmptyString) (upstreams out) /\
   Json.prop "upstreams" body = Some (JArr (map JStr (upstreams out)))) /\
  terminal out
  = Some (from_option Json.truthy true (Json.prop "terminal" body)).
Proof.
  unfold validateCreateProxyBody.
  destruct (negb (Json.truthy body) || negb (Json.is_object body));
    [discriminate|].
  destruct (validate_string "id" _ body) as [v1|] eqn:E1; [|discriminate].
  cbn [bind].
  destruct (Json.prop "server" body) as [[| | |[|a r]| |]|] eqn:E2;
    try discriminate.
  cbn [bind].
  destruct (Json.prop "hosts" body) as [hs|] eqn:E3; [|discriminate].
  destruct (Json.prop "upstreams" body) as [[| | | |[|u us]|]|] eqn:E4;
    try (destruct hs as [| | |[|? ?]|hs|]; try discriminate;
         destruct (nonempty_strings_of hs); discriminate).
  destruct (nonempty_strings_of (u :: us)) as [lu|] eqn:E5;
    [|destruct hs as [| | |[|? ?]|hs|]; try discriminate;
      destruct (nonempty_strings_of hs); discriminate].
  destruct (nonempty_strings_of_spec _ _ E5) as [HFu Hu].
  assert (Hne : lu <> []) by (destruct lu; [discriminate Hu | discriminate]).
  destruct hs as [| | |[|b q]|hs|]; try discriminate.
  - cbn [bind]. intros [= <-]. cbn.
    split; [split; [discriminate | reflexivity]|].
    split; [apply (validate_string_ok _ _ _ _ E1)|].
    split.
    { split; [constructor; [discriminate | constructor]|].
      right. eexists. split; reflexivity. }
    split; [|destruct (Json.prop "terminal" body); reflexivity].
    split; [exact Hne|]. split; [exact HFu|]. now rewrite Hu.
  - destruct (nonempty_strings_of hs) as [lh|] eqn:E6; [|discriminate].
    destruct (nonempty_strings_of_spec _ _ E6) as [HFh Hh].
    cbn [bind]. intros [= <-]. cbn.
    split; [split; [discriminate | reflexivity]|].
    split; [apply (validate_string_ok _ _ _ _ E1)|].
    split; [split; [exact HFh | left; now rewrite Hh]|].
    split; [|destruct (Json.prop "terminal" body); reflexivity].
    split; [exact Hne|]. split; [exact HFu|]. now rewrite Hu.
Qed.

(** X28: every failure of the proxy validator is an [HttpError] with
    status 400. *)
Theorem validateCreateProxyBody_fails_with_400 (body : json) (e : Thrown) :
  validateCreateProxyBody body = Throw e ->
  exists message, e = HttpError 400 message.
Proof.
  unfold validateCreateProxyBody, bad_request.
  destruct (negb (Json.truthy body) || negb (Json.is_object body));
    [intros [= <-]; eauto|].
  destruct (validate_string_cases "id" "id must be non-empty string" body)
    as [[v1 ->]| ->]; [|intros [= <-]; eauto].
  cbn [bind].
  destruct (Json.prop "server" body) as [[| | |[|a r]| |]|];
    try (intros [= <-]; eauto; fail).
  cbn [bind].
  destruct (Json.prop "hosts" body) as [[| | |[|b q]|hs|]|];
    try (intros [= <-]; eauto; fail).
  - cbn [bind].
    destruct (Json.prop "upstreams" body) as [[| | | |[|u us]|]|];
      try (intros [= <-]; eauto; fail).
    destruct (nonempty_strings_of (u :: us)); [discriminate|].
    intros [= <-]; eauto.
  - destruct (nonempty_strings_of hs); [|intros [= <-]; eauto].
    cbn [bind].
    destruct (Json.prop "upstreams" body) as [[| | | |[|u us]|]|];
      try (intros [= <-]; eauto; fail).
    destruct (nonempty_strings_of (u :: us)); [discriminate|].
    intros [= <-]; eauto.
Qed.

Lemma hosts_of_single (hs : list json) :
  hosts_of_match [JObj [("host", JArr hs)]] = Ok hs.
Proof.
  cbn. now rewrite app_nil_r.
Qed.

Lemma omap_dial (ups : list string) :
  omap (M:=list) dial_of
    (map (fun dial => JObj [("dial", JStr dial)]) ups) = ups.
Proof.
  induction ups as [|u ups IH]; [reflexivity|].
  cbn. f_equal. exact IH.
Qed.

(** The item that [listReverseProxies] reports for a route. *)
Lemma items_of_created_route (name uuid : string) (input : CreateProxyBody) :
  items_of_route name (route_of uuid input)
  = Ok [mkItem (Some (JStr (default (String.app "rp-" uuid) (id input))))
          name (Some (map JStr (hosts input))) (Some (upstreams input))
          (route_of uuid input)].
Proof.
  unfold items_of_route, route_of. cbn.
  unfold item_of_handler. cbn.
  rewrite app_nil_r, omap_dial. reflexivity.
Qed.

Lemma collect_app {A} (f : A -> Result (list Item)) (l1 l2 : list A) r1 r2 :
  collect f l1 = Ok r1 -> collect f l2 = Ok r2 ->
  collect f (l1 ++ l2) = Ok (r1 ++ r2).
Proof.
  revert r1. induction l1 as [|x l1 IH]; intros r1; simpl.
  - intros [= <-]. auto.
  - destruct (f x) as [here|]; [|discriminate]. cbn [bind].
    destruct (collect f l1) as [more|]; [|discriminate]. cbn [bind].
    intros [= <-] H2. rewrite (IH more eq_refl H2). cbn [bind].
    now rewrite app_assoc.
Qed.

(** X29: what [createReverseProxy] posts is read back by
    [listReverseProxies].  When the routes of a server are listed as
    [old] and the route built for a request is appended to them, the
    listing of that server (unfiltered, or filtered by its name) is
    [old] followed by one item: its id is the request's id (or the
    generated [rp-<uuid>]), its hosts and upstreams are the request's,
    and its route is the posted route. *)
Theorem created_route_is_listed (name uuid : string) (input : CreateProxyBody)
    (before : list json) (cfg cfg' : json) (old : list Item)
    (targetServer : option string) :
  targetServer = None \/ targetServer = Some name ->
  Json.prop "routes" cfg = Some (JArr before) ->
  Json.prop "routes" cfg' = Some (JArr (before ++ [route_of uuid input])) ->
  listReverseProxies targetServer (JObj [(name, cfg)]) = Ok old ->
  listReverseProxies targetServer (JObj [(name, cfg')])
  = Ok (old ++
        [mkItem (Some (JStr (default (String.app "rp-" uuid) (id input))))
           name (Some (map JStr (hosts input))) (Some (upstreams input))
           (route_of uuid input)]).
Proof.
  intros Ht Hcfg Hcfg'.
  assert (Hs : forall c rs, Json.prop "routes" c = Some (JArr rs) ->
            items_of_server targetServer (name, c)
            = collect (items_of_route name) rs).
  { intros c rs Hc. unfold items_of_server. cbn [fst snd].
    assert (prop_of "routes" c = Ok (Some (JArr rs))) as ->.
    { destruct c; try discriminate. unfold prop_of. now rewrite Hc. }
    destruct Ht as [-> | ->]; [reflexivity|].
    destruct name as [|a r]; [reflexivity|].
    now rewrite String.eqb_refl. }
  unfold listReverseProxies. cbn [Object_entries collect].
  rewrite (Hs _ _ Hcfg), (Hs _ _ Hcfg').
  destruct (collect (items_of_route name) before) as [r1|] eqn:E1;
    [|discriminate].
  cbn [bind]. rewrite app_nil_r. intros [= <-].
  erewrite collect_app; [|exact E1|].
  2:{ cbn [collect]. rewrite items_of_created_route. cbn [bind].
      reflexivity. }
  cbn [bind]. now rewrite !app_nil_r.
Qed.

End CaddyFacts.

(** * Further concrete runs *)
Section ConcreteRunsMore.

Import DemoStates DemoMore.

Lemma create_conflict_witness :
  FrpsManager.create Demo.host (Demo.input "a" false) [] s1
  = (Throw (HttpError 409 (conflict_message "a")), s1, []).
Proof.
  apply (create_conflict Demo.host (Demo.input "a" false) [] s1 "a");
    vm_compute; reflexivity.
Defined.


Lemma stop_ignored_sigterm_witness :
  (exists c,
     FrpsManager.stop "a"
       (Some (mkStopOptions (Some true) (Some (Js.of_Z 120)))) [] s1
     = Some (Ok true,
             set_signals
               (signals s1 ++ [(1000%Z, SIGTERM); (1000%Z, SIGKILL)])
               (set_clock c s1), []) /\
     (clock s1 + 120 <= c < clock s1 + 120 + 50)%Z) /\
  FrpsManager.stop "a"
    (Some (mkStopOptions (Some true) (Some Js.Infinity))) [] s1 = None.
Proof.
  split.
  - apply (proj1 (stop_ignored_sigterm "a"
                    (Some (mkStopOptions (Some true) (Some (Js.of_Z 120))))
                    s1 1%positive 1000%Z 0%Z eq_refl eq_refl) 120%Z eq_refl).
    lia.
  - apply (proj2 (stop_ignored_sigterm "a"
                    (Some (mkStopOptions (Some true) (Some Js.Infinity)))
                    s1 1%positive 1000%Z 0%Z eq_refl eq_refl)).
    reflexivity.
Defined.

Lemma demo_cooperative (id : string) :
  cooperative Demo.host (Demo.input "b" false) id.
Proof.
  split; [reflexivity|]. split; [reflexivity|]. split.
  - intros n args. eexists. reflexivity.
  - eexists. vm_compute. reflexivity.
Qed.

Lemma create_fresh_installs_witness :
  exists p' s' sched' pid args text,
    FrpsManager.create Demo.host (Demo.input "b" false) [] s1
    = (Ok p', s', sched') /\
    metas s1 !! p' = None /\
    processes s' = processes s1 ++ [("b", p')] /\
    FrpsManager.get "b" s' = Some p' /\
    (forall id', id' <> "b" ->
       FrpsManager.get id' s' = FrpsManager.get id' s1) /\
    state_of p' s' = Some (running pid (clock s')) /\
    dirs s' = {[workDir_of Demo.host "b"]} ∪ dirs s1 /\
    files s' = <[configPath_of Demo.host "b" := text]> (files s1) /\
    spawned s' = spawned s1 ++
                 [(pid, "frps", args, workDir_of Demo.host "b")] /\
    signals s' = signals s1.
Proof.
  apply (create_fresh_installs Demo.host (Demo.input "b" false) [] s1).
  - vm_compute; reflexivity.
  - vm_compute; reflexivity.
  - apply demo_cooperative.
Defined.

Lemma create_record_contents_witness :
  exists snap,
    deref 2%positive s1_replaced = Some snap /\
    snap_args snap = Some ["-c"; "/srv/runtime/frps-a/frps.toml"] /\
    files s1_replaced !! "/srv/runtime/frps-a/frps.toml"
    = Some "bindPort = 7000".
Proof.
  destruct (create_record_contents Demo.host (Demo.input "a" true) [] s1
              2%positive s1_replaced [])
    as (snap & args & env & rb & Hd & _ & _ & Ha & -> & _ & _ & Hf & _).
  - vm_compute; reflexivity.
  - exists snap. split; [exact Hd|]. split; [exact Ha|].
    exact (Hf _ _ eq_refl).
Defined.

Lemma create_spawn_failure_witness :
  exists s' sched' sigs,
    FrpsManager.create refusing (Demo.input "a" true) [] s1
    = (Throw (HostFailure "spawn"), s', sched') /\
    dirs s' = {[workDir_of refusing "a"]} ∪ dirs s1 /\
    files s' = <[configPath_of refusing "a" := "bindPort = 7000"]> (files s1) /\
    processes s' = processes s1 /\ spawned s' = spawned s1 /\
    signals s' = signals s1 ++ sigs /\
    (map_has "a" (processes s1) = false -> sigs = []) /\
    Forall (fun sg => exists p startedAt,
              FrpsManager.get "a" s1 = Some p /\
              state_of p s1 = Some (running (fst sg) startedAt)) sigs.
Proof.
  apply (create_spawn_failure refusing (Demo.input "a" true) [] s1).
  - exact s1_sound.
  - right. reflexivity.
  - vm_compute; reflexivity.
  - reflexivity.
  - reflexivity.
  - intros n args. reflexivity.
Defined.

Lemma create_bad_logLines_leaks_process_witness :
  exists s' sched' pid args,
    FrpsManager.create Demo.host fractional [] initial
    = (Throw RangeError, s', sched') /\
    RangeError = RangeError /\
    spawned s' = spawned initial ++
                 [(pid, "frps", args, workDir_of Demo.host "b")] /\
    processes s' = processes initial.
Proof.
  apply (create_bad_logLines_leaks_process Demo.host fractional [] initial
           RangeError).
  - constructor.
  - left. reflexivity.
  - vm_compute; reflexivity.
  - reflexivity.
  - reflexivity.
  - intros n args. eexists. reflexivity.
  - vm_compute; reflexivity.
Defined.

Lemma child_exit_marks_record_witness :
  state_of 1%positive (fire (ChildExit 0 (Some 0%Z)) s1)
  = Some (exited 0 0 (Some 0%Z) None).
Proof.
  destruct (child_exit_marks_record 0 (Some 0%Z) s1 s1_child)
    as (_ & _ & _ & _ & H & _).
  - vm_compute; reflexivity.
  - reflexivity.
  - refine (proj1 (H 1%positive _ _ _)); vm_compute; reflexivity.
Defined.

Lemma output_chunk_pushes_tagged_lines_witness :
  fire (Output 0 Stdout
          (String.app "one" (String LineSplitter.CR
                               (String LineSplitter.LF "two")))) s1
  = set_buffers
      (<[1%positive := RingBuffer.pushes ["[stdout] one"] s1_log]>
         (buffers s1))
      (set_children
         (<[0 := set_stream Stdout (Some "two") s1_child]> (children s1))
         s1).
Proof.
  refine (output_chunk_pushes_tagged_lines 0 Stdout _ s1 s1_child
            EmptyString s1_log
            [String.app "one" (String LineSplitter.CR EmptyString)]
            ["one"] "two" _ _ _ _ _ _ _).
  - vm_compute; reflexivity.
  - reflexivity.
  - vm_compute; reflexivity.
  - reflexivity.
  - repeat constructor.
  - reflexivity.
  - constructor; [left; reflexivity|constructor].
Defined.

Lemma validated_input_well_formed_witness :
  exists rb,
    RingBuffer.new (Js.Fin 12) = Ok rb /\
    (10 <= Z.of_nat (RingBuffer.capacity rb) <= 10000)%Z.
Proof.
  refine (proj2 (proj2 (proj2 (proj2 (proj2
    (validated_input_well_formed Demo.ToNumber body validated _)))))).
  vm_compute; reflexivity.
Defined.

Lemma reachable_records_laid_out_witness :
  Forall (record_laid_out Demo.host s1) (processes s1).
Proof.
  apply (reachable_records_laid_out Demo.host s1).
  apply rtc_once.
  apply (step_create Demo.host (Demo.input "a" false) [] initial
           (fst (fst Demo.after_first)) s1 (snd Demo.after_first)).
  vm_compute; reflexivity.
Defined.

Lemma read_logs_window_witness :
  read_logs StringToNumber (Some "0")
    (RingBuffer.pushes ["a"; "b"; "c"] s1_log)
  = [Some "c"].
Proof.
  exact (proj2 (proj1 (read_logs_window StringToNumber (Some "0")
                         (RingBuffer.pushes ["a"; "b"; "c"] s1_log)))
           0%Z eq_refl).
Defined.

Lemma generateToml_layout_witness :
  generateToml_source stringify show_number (JObj (tables ++ flat))
  = Ok "bindPort = 7000
tls = true

[webServer]
port = 7500
".
Proof.
  refine (generateToml_layout stringify show_number
            (JObj (tables ++ flat)) _ _).
  - discriminate.
  - apply (bool_decide_unpack _). vm_compute. exact I.
Defined.

Lemma generateToml_tables_last_witness :
  generateToml_source stringify show_number (JObj (tables ++ flat))
  = generateToml_source stringify show_number (JObj (flat ++ tables)).
Proof.
  apply (generateToml_tables_last stringify show_number tables flat).
  - repeat constructor.
  - repeat constructor.
  - apply (bool_decide_unpack _). vm_compute. exact I.
Defined.

Lemma validated_proxy_well_formed_witness :
  Caddy.upstreams proxy <> [] /\
  Forall (fun x => x <> EmptyString) (Caddy.upstreams proxy) /\
  Json.prop "upstreams" proxy_body
  = Some (JArr (map JStr (Caddy.upstreams proxy))).
Proof.
  refine (proj1 (proj2 (proj2 (proj2
    (validated_proxy_well_formed proxy_body proxy _))))).
  vm_compute; reflexivity.
Defined.

Lemma validateCreateProxyBody_fails_with_400_witness :
  exists message,
    HttpError 400 "hosts must be string or string[]" = HttpError 400 message.
Proof.
  apply (validateCreateProxyBody_fails_with_400
           (JObj [("server", JStr "srv0")])).
  reflexivity.
Defined.

Lemma created_route_is_listed_witness :
  Caddy.listReverseProxies (Some "srv0") (JObj [("srv0", srv0_after)])
  = Ok [Caddy.mkItem (Some (JStr "rp-uuid-0")) "srv0"
          (Some [JStr "example.org"]) (Some ["127.0.0.1:8080"])
          (Caddy.route_of "uuid-0" proxy)].
Proof.
  refine (created_route_is_listed "srv0" "uuid-0" proxy [] srv0_before
            srv0_after [] (Some "srv0") _ _ _ _).
  - right. reflexivity.
  - reflexivity.
  - reflexivity.
  - reflexivity.
Defined.

Lemma s1_reached : rtc (step Demo.host) initial s1.
Proof.
  apply rtc_once.
  apply (step_create Demo.host (Demo.input "a" false) [] initial
           (fst (fst Demo.after_first)) s1 (snd Demo.after_first)).
  vm_compute; reflexivity.
Qed.


(** C8: the run on which the code fails the claim.  The record under id
    ["a"] is replaced while its process ignores SIGTERM; the process of
    the new record exits with code 1, and the record is [exited] with the
    new process's start time and that code; then the exit of the replaced
    process is notified, and its watcher, which looks the record up by
    id, overwrites that exited state with the replaced process's start
    time and exit code.  Every state of the run is one that the
    supervisor reaches. *)
Theorem replaced_child_exit_overwrites_exited_state :
  rtc (step Demo.host) initial s1_new_exited /\
  rtc (step Demo.host) s1_new_exited s1_old_exit_late /\
  FrpsManager.get "a" s1_new_exited = Some 2%positive /\
  FrpsManager.get "a" s1_old_exit_late = Some 2%positive /\
  state_of 2%positive s1_new_exited
  = Some (exited 1000 1000 (Some 1%Z) None) /\
  state_of 2%positive s1_old_exit_late
  = Some (exited 0 1500 (Some 137%Z) None).
Proof.
  split.
  { etrans; [exact s1_reached|].
    eapply rtc_l; [|apply rtc_once, step_fire].
    apply (step_create Demo.host (Demo.input "a" true) [] s1
             (fst (fst replaced)) s1_replaced (snd replaced)).
    vm_compute; reflexivity. }
  split.
  { eapply rtc_l; [apply (step_time Demo.host 500)|].
    apply rtc_once, step_fire. }
  repeat split; vm_compute; reflexivity.
Qed.

End ConcreteRunsMore.
